(** * ZipAct: a shallow embedding of the agents and their runner

    The development follows the Python sources of the repository:
    - [src/agents/zipact.py], [react.py], [observation_masking.py], [base.py],
      [summary.py], [reflexion.py];
    - [src/llm/client.py], [src/utils/logger.py], [run_experiment.py], [run.py];
    - [src/envs/alfworld_simple.py].

    Conventions.
    - A Python [str] is a [string]; its characters are the code points below
      256, which is enough for every literal of the sources.  The character
      classes ([str.isspace], the regex classes [\s] and [\w]) are the ones of
      CPython 3 on that range.
    - Python exceptions are values of [exn]; a computation that may raise has
      type [result A].
    - A Python [int] is a [Z].  A Python [float] is given by its value, a
      [Q]; the operations on floats round to the nearest binary64 number
      ([PyFloat]).
    - The language model is outside the program: every reply of
      [LLMClient.chat] is an input of the function that consumes it. *)

From Stdlib Require Import Bool List Arith ZArith QArith Lia.
From Stdlib Require Import Strings.Ascii Strings.String Numbers.DecimalString.
From Stdlib Require Import Sorting.Permutation.
Import ListNotations.

Close Scope Q_scope.
Open Scope nat_scope.
Open Scope list_scope.
Open Scope string_scope.

(** ** Exceptions *)

Inductive exn : Type :=
| KeyError
| TypeError
| AttributeError
| IndexError
| ValueError
| UnboundLocalError
| StopIteration.

Inductive result (A : Type) : Type :=
| Ok (a : A)
| Raise (e : exn).
Arguments Ok {A} a.
Arguments Raise {A} e.

Definition bind {A B : Type} (r : result A) (k : A -> result B) : result B :=
  match r with
  | Ok a => k a
  | Raise e => Raise e
  end.

Notation "x <- r ;; k" := (bind r (fun x => k))
  (at level 61, r at next level, right associativity).

(** ** Python string primitives *)

Module PyStr.

Definition nl : ascii := "010"%char.

(** The double quote, and a text between double quotes. *)
Definition dq : ascii := "034"%char.
Definition quoted (s : string) : string := String dq (s ++ String dq EmptyString).

(** [str.isspace] on one character; the same set is the regex class [\s]. *)
Definition isspace (c : ascii) : bool :=
  let n := nat_of_ascii c in
  (((9 <=? n) && (n <=? 13)) || ((28 <=? n) && (n <=? 32))
   || (n =? 133) || (n =? 160))%nat.

Fixpoint lstrip (s : string) : string :=
  match s with
  | EmptyString => EmptyString
  | String c s' => if isspace c then lstrip s' else s
  end.

Fixpoint rstrip (s : string) : string :=
  match s with
  | EmptyString => EmptyString
  | String c s' =>
      match rstrip s' with
      | EmptyString => if isspace c then EmptyString else String c EmptyString
      | r => String c r
      end
  end.

(** [s.strip()] *)
Definition strip (s : string) : string := rstrip (lstrip s).

(** [s.startswith(p)] *)
Definition startswith (p s : string) : bool := prefix p s.

(** [sub in s] for two strings *)
Fixpoint contains (sub s : string) : bool :=
  prefix sub s ||
  match s with
  | EmptyString => false
  | String _ s' => contains sub s'
  end.

(** [s.split(sep)] for a non-empty [sep]: the occurrences of [sep] are found
    from the left and do not overlap.  [skip] counts the characters of the
    separator that is being passed. *)
Fixpoint split_go (sep : string) (skip : nat) (s : string) : list string :=
  match s with
  | EmptyString => [EmptyString]
  | String c s' =>
      match skip with
      | S k => split_go sep k s'
      | O =>
          if prefix sep s then EmptyString :: split_go sep (length sep - 1) s'
          else
            match split_go sep 0 s' with
            | h :: t => String c h :: t
            | [] => [String c EmptyString]
            end
      end
  end.

Definition split (sep s : string) : list string := split_go sep 0 s.

(** [s.replace(old, new)] for a non-empty [old]. *)
Fixpoint replace_go (old new : string) (skip : nat) (s : string) : string :=
  match s with
  | EmptyString => EmptyString
  | String c s' =>
      match skip with
      | S k => replace_go old new k s'
      | O =>
          if prefix old s then new ++ replace_go old new (length old - 1) s'
          else String c (replace_go old new 0 s')
      end
  end.

Definition replace (old new s : string) : string := replace_go old new 0 s.

(** Truth value of a string: [bool(s)]. *)
Definition truthy (s : string) : bool :=
  match s with
  | EmptyString => false
  | _ => true
  end.

(** [sep.join(parts)] *)
Fixpoint join (sep : string) (parts : list string) : string :=
  match parts with
  | [] => EmptyString
  | [p] => p
  | p :: rest => p ++ sep ++ join sep rest
  end.

End PyStr.

(** ** Regular expressions of the sources

    Each [re.search] of the sources is written out as the search it performs:
    the leftmost position at which the pattern matches, and the matched text
    [group(0)]. *)

Module PyRe.

Import PyStr.

(** The class [\w] (alphanumeric characters and the underscore). *)
Definition isword (c : ascii) : bool :=
  let n := nat_of_ascii c in
  (((48 <=? n) && (n <=? 57)) || ((65 <=? n) && (n <=? 90))
   || ((97 <=? n) && (n <=? 122)) || (n =? 95)
   || (n =? 170) || (n =? 178) || (n =? 179) || (n =? 181)
   || (n =? 185) || (n =? 186) || ((188 <=? n) && (n <=? 190))
   || ((192 <=? n) && (n <=? 214)) || ((216 <=? n) && (n <=? 246))
   || (248 <=? n))%nat.

(** Lower case of an ASCII letter, as [re.IGNORECASE] compares the letters of
    the patterns below. *)
Definition lower (c : ascii) : ascii :=
  let n := nat_of_ascii c in
  if ((65 <=? n) && (n <=? 90))%nat then ascii_of_nat (n + 32) else c.

(** [ci_take lit s]: [s] starts with the lower-case literal [lit], letter case
    ignored; the result is the matched text and what follows it. *)
Fixpoint ci_take (lit s : string) : option (string * string) :=
  match lit with
  | EmptyString => Some (EmptyString, s)
  | String p lit' =>
      match s with
      | EmptyString => None
      | String c s' =>
          if Ascii.eqb (lower c) p then
            match ci_take lit' s' with
            | Some (m, rest) => Some (String c m, rest)
            | None => None
            end
          else None
      end
  end.

Definition head (s : string) : option ascii :=
  match s with
  | EmptyString => None
  | String c _ => Some c
  end.

Fixpoint last (prev : option ascii) (s : string) : option ascii :=
  match s with
  | EmptyString => prev
  | String c s' => last (Some c) s'
  end.

Definition isword_opt (c : option ascii) : bool :=
  match c with
  | Some c => isword c
  | None => false
  end.

(** [\b] between the character before and the character after a position. *)
Definition boundary (before after : option ascii) : bool :=
  xorb (isword_opt before) (isword_opt after).

(** The text matched by a greedy [.+] that ends the pattern: the rest of the
    line, which must not be empty. *)
Fixpoint until_nl (s : string) : string :=
  match s with
  | EmptyString => EmptyString
  | String c s' => if Ascii.eqb c nl then EmptyString else String c (until_nl s')
  end.

(** [\b(v1|v2|...)\b.+] at one position, [prev] being the character before
    it: the text matched, if any. *)
Fixpoint verbs_at (verbs : list string) (prev : option ascii) (s : string)
  : option string :=
  match verbs with
  | [] => None
  | v :: verbs' =>
      match ci_take v s with
      | Some (m, rest) =>
          if boundary prev (head s) && boundary (last prev m) (head rest)
             && truthy (until_nl rest)
          then Some (m ++ until_nl rest)
          else verbs_at verbs' prev s
      | None => verbs_at verbs' prev s
      end
  end.

(** [re.search(r'\b(v1|v2|...)\b.+', text, re.IGNORECASE)] *)
Fixpoint search_verbs (verbs : list string) (prev : option ascii) (s : string)
  : option string :=
  match verbs_at verbs prev s with
  | Some m => Some m
  | None =>
      match s with
      | EmptyString => None
      | String c s' => search_verbs verbs (Some c) s'
      end
  end.

Definition alfworld_verbs : list string :=
  ["go to"; "take"; "put"; "open"; "close"; "clean"; "heat"; "cool"; "toggle";
   "use"; "look"; "inventory"].

Definition sciworld_verbs : list string :=
  ["look around"; "go to"; "pick up"; "put down"; "put"; "pour"; "open";
   "close"; "activate"; "deactivate"; "focus on"; "wait"; "mix"; "connect";
   "use"; "read"; "examine"].

Definition search_alfworld (text : string) : option string :=
  search_verbs alfworld_verbs None text.

Definition search_sciworld (text : string) : option string :=
  search_verbs sciworld_verbs None text.

(** The lazy [.+?\]]: one character of the line at least, then up to the
    first closing bracket of the line. *)
Fixpoint upto_rbracket (s : string) : option string :=
  match s with
  | EmptyString => None
  | String c s' =>
      if Ascii.eqb c "]" then Some (String c EmptyString)
      else if Ascii.eqb c nl then None
      else option_map (String c) (upto_rbracket s')
  end.

Definition lazy_bracket (s : string) : option string :=
  match s with
  | EmptyString => None
  | String c s' =>
      if Ascii.eqb c nl then None else option_map (String c) (upto_rbracket s')
  end.

Definition bracket_at (lit s : string) : option string :=
  match ci_take lit s with
  | Some (m, rest) => option_map (append m) (lazy_bracket rest)
  | None => None
  end.

(** [(search\[.+?\]|click\[.+?\]|back)] at one position *)
Definition webshop_at (s : string) : option string :=
  match bracket_at "search[" s with
  | Some m => Some m
  | None =>
      match bracket_at "click[" s with
      | Some m => Some m
      | None => option_map fst (ci_take "back" s)
      end
  end.

(** [re.search(r'(search\[.+?\]|click\[.+?\]|back)', text, re.IGNORECASE)] *)
Fixpoint search_webshop (s : string) : option string :=
  match webshop_at s with
  | Some m => Some m
  | None =>
      match s with
      | EmptyString => None
      | String _ s' => search_webshop s'
      end
  end.

(** [re.sub(r',(\s*[}\]])', r'\1', s)]: a comma followed by white space
    and a closing brace or bracket is dropped, what follows it is kept. *)
Fixpoint closer_after_space (s : string) : bool :=
  match s with
  | EmptyString => false
  | String c s' =>
      if Ascii.eqb c "}" || Ascii.eqb c "]" then true
      else if isspace c then closer_after_space s'
      else false
  end.

Fixpoint sub_trailing_commas (s : string) : string :=
  match s with
  | EmptyString => EmptyString
  | String c s' =>
      if Ascii.eqb c "," && closer_after_space s' then sub_trailing_commas s'
      else String c (sub_trailing_commas s')
  end.

End PyRe.

(** ** Thought/action extraction *)

(** The loop over the lines, shared by every agent: the last line with each
    prefix wins. *)
Definition scan_line (acc : string * string) (line : string) : string * string :=
  let '(thought, action) := acc in
  let line := PyStr.strip line in
  if PyStr.startswith "Thought:" line then
    (PyStr.strip (PyStr.replace "Thought:" "" line), action)
  else if PyStr.startswith "Action:" line then
    (thought, PyStr.strip (PyStr.replace "Action:" "" line))
  else (thought, action).

Definition scan_lines (text : string) : string * string :=
  fold_left scan_line
    (PyStr.split (String PyStr.nl "") (PyStr.strip text)) ("", "look").

(** What the fallback branch does with the result of its [re.search]. *)
Definition fallback (text : string) (action : string) (m : option string)
  : string * string :=
  match m with
  | Some g => (PyStr.strip text, PyStr.strip g)
  | None => (PyStr.strip text, action)
  end.

Module ReActAgent.

(** [ReActAgent._parse_thought_action] *)
Definition _parse_thought_action (text : string) : string * string :=
  let '(thought, action) := scan_lines text in
  if negb (PyStr.truthy thought) && negb (PyStr.truthy action) then
    fallback text action (PyRe.search_alfworld text)
  else (thought, action).

End ReActAgent.

(** ** JSON values and the Python operations on them *)

Module Json.

Set Warnings "-register-all".

(** A Python [float] that [json.loads] produces: a decimal literal
    [m * 10^e], or one of the constants [NaN], [Infinity], [-Infinity]. *)
Inductive pyfloat : Type :=
| FDec (m e : Z)
| FInf (negative : bool)
| FNaN.

(** The value of [json.loads]: [dict] keeps the insertion order of its keys. *)
Inductive json : Type :=
| JNull
| JBool (b : bool)
| JInt (n : Z)
| JFloat (f : pyfloat)
| JStr (s : string)
| JArr (l : list json)
| JObj (m : list (string * json)).

(** A decimal literal is read as [0.0] when it is at most [2^-1075] in
    absolute value (round to nearest, ties to even). *)
Definition float_truthy (f : pyfloat) : bool :=
  match f with
  | FDec m e =>
      negb (m =? 0)%Z &&
      (if (0 <=? e)%Z then true
       else (10 ^ (- e) <? Z.abs m * 2 ^ 1075)%Z)
  | FInf _ => true
  | FNaN => true
  end.

(** [bool(v)] *)
Definition truthy (v : json) : bool :=
  match v with
  | JNull => false
  | JBool b => b
  | JInt n => negb (n =? 0)%Z
  | JFloat f => float_truthy f
  | JStr s => PyStr.truthy s
  | JArr l => match l with [] => false | _ => true end
  | JObj m => match m with [] => false | _ => true end
  end.

Fixpoint assoc_get (k : string) (m : list (string * json)) : option json :=
  match m with
  | [] => None
  | (k', v) :: m' => if String.eqb k k' then Some v else assoc_get k m'
  end.

(** [d[k] = v]: an existing key keeps its place, a new one goes last. *)
Fixpoint assoc_set (k : string) (v : json) (m : list (string * json))
  : list (string * json) :=
  match m with
  | [] => [(k, v)]
  | (k', v') :: m' =>
      if String.eqb k k' then (k', v) :: m' else (k', v') :: assoc_set k v m'
  end.

Definition is_str (x : string) (v : json) : bool :=
  match v with
  | JStr s => String.eqb x s
  | _ => false
  end.

(** [x in v] for a string [x] *)
Definition contains (x : string) (v : json) : result bool :=
  match v with
  | JObj m => Ok (match assoc_get x m with Some _ => true | None => false end)
  | JArr l => Ok (existsb (is_str x) l)
  | JStr s => Ok (PyStr.contains x s)
  | _ => Raise TypeError
  end.

(** [v[k]] for a string [k] *)
Definition getitem (v : json) (k : string) : result json :=
  match v with
  | JObj m => match assoc_get k m with Some x => Ok x | None => Raise KeyError end
  | _ => Raise TypeError
  end.

(** [v[k] = x] for a string [k]; the result is the container after the
    assignment. *)
Definition setitem (v : json) (k : string) (x : json) : result json :=
  match v with
  | JObj m => Ok (JObj (assoc_set k x m))
  | _ => Raise TypeError
  end.

(** [v.get(k, default)] *)
Definition get (v : json) (k : string) (default : json) : result json :=
  match v with
  | JObj m => Ok (match assoc_get k m with Some x => x | None => default end)
  | _ => Raise AttributeError
  end.

(** [v.append(x)] *)
Definition append (v : json) (x : json) : result json :=
  match v with
  | JArr l => Ok (JArr (l ++ [x])%list)
  | _ => Raise AttributeError
  end.

End Json.

(** ** The state-compression agent ([src/agents/zipact.py]) *)

Module ZipActAgent.

Import Json.

Record agent : Type := mkAgent {
  state : json;
  last_action : option string;
  last_thought : string;
  current_step : Z;
  max_steps : Z
}.

(** [ZipActAgent._parse_thought_action] *)
Definition _parse_thought_action (text : string) : string * string :=
  let '(thought, action) := scan_lines text in
  if negb (PyStr.truthy thought) && negb (PyStr.truthy action) then
    fallback text action (PyRe.search_alfworld text)
  else (thought, action).

(** [ZipActAgent._get_empty_state] *)
Definition _get_empty_state : json :=
  JObj [("goal_state",
         JObj [("global_instruction", JStr "");
               ("sub_goal_queue", JArr []);
               ("current_objective", JStr "")]);
        ("world_state",
         JObj [("location", JStr "unknown");
               ("inventory", JArr []);
               ("entity_map", JObj []);
               ("discovered_objects", JArr [])]);
        ("constraint_state",
         JObj [("negative_constraints", JArr []);
               ("visited_locations", JArr []);
               ("attempted_actions", JArr [])])].

(** The text handed to [json.loads]: the first fenced block if there is one,
    the whole text otherwise.  [None] stands for an [IndexError]. *)
Definition payload (text : string) : option string :=
  if PyStr.contains "```json" text then
    match nth_error (PyStr.split "```json" text) 1 with
    | Some s => option_map PyStr.strip (nth_error (PyStr.split "```" s) 0)
    | None => None
    end
  else if PyStr.contains "```" text then
    match nth_error (PyStr.split "```" text) 1 with
    | Some s => option_map PyStr.strip (nth_error (PyStr.split "```" s) 0)
    | None => None
    end
  else Some (PyStr.strip text).

Section WithLoads.

(** [json.loads] of the Python library; [None] when it raises. *)
Variable json_loads : string -> option json.

(** [ZipActAgent._parse_json]: every exception of the [try] block gives the
    default. *)
Definition _parse_json (text : string) (default : option json) : json :=
  let default := match default with Some d => d | None => JObj [] end in
  match payload text with
  | Some json_str =>
      match json_loads (PyRe.sub_trailing_commas json_str) with
      | Some v => v
      | None => default
      end
  | None => default
  end.

(** The code-level tracking at the head of [_update_state] (lines 132-138);
    the result is [self.state] after the in-place updates. *)
Definition track (st : json) (last_action : option string) : result json :=
  match last_action with
  | Some a =>
      if PyStr.truthy a then
        c <- contains "constraint_state" st ;;
        st1 <- (if negb c then
                  setitem st "constraint_state"
                    (JObj [("attempted_actions", JArr []);
                           ("negative_constraints", JArr []);
                           ("visited_locations", JArr [])])
                else Ok st) ;;
        cs <- getitem st1 "constraint_state" ;;
        c <- contains "attempted_actions" cs ;;
        cs1 <- (if negb c then setitem cs "attempted_actions" (JArr [])
                else Ok cs) ;;
        aa <- getitem cs1 "attempted_actions" ;;
        c <- contains a aa ;;
        aa1 <- (if negb c then append aa (JStr a) else Ok aa) ;;
        cs2 <- setitem cs1 "attempted_actions" aa1 ;;
        setitem st1 "constraint_state" cs2
      else Ok st
  | None => Ok st
  end.

(** [ZipActAgent._update_state]; [response] is the reply of the updater
    call. *)
Definition _update_state (ag : agent) (observation response : string)
  : result agent :=
  st <- track (state ag) (last_action ag) ;;
  let new_state := _parse_json response (Some st) in
  if truthy new_state then
    c <- contains "constraint_state" new_state ;;
    new_state1 <-
      (if c then
         old_cs <- get st "constraint_state" (JObj []) ;;
         tracked <- get old_cs "attempted_actions" (JArr []) ;;
         cs <- getitem new_state "constraint_state" ;;
         cs1 <- setitem cs "attempted_actions" tracked ;;
         setitem new_state "constraint_state" cs1
       else Ok new_state) ;;
    Ok (mkAgent new_state1 (last_action ag) (last_thought ag)
          (current_step ag) (max_steps ag))
  else
    Ok (mkAgent st (last_action ag) (last_thought ag)
          (current_step ag) (max_steps ag)).

(** [ZipActAgent.reset]; [response] is the reply of the initialisation
    call. *)
Definition reset (ag : agent) (instruction response : string) : result agent :=
  let st := _parse_json response (Some _get_empty_state) in
  g <- get st "goal_state" (JObj []) ;;
  gi <- get g "global_instruction" JNull ;;
  st1 <- (if negb (truthy gi) then
            gs <- getitem st "goal_state" ;;
            gs1 <- setitem gs "global_instruction" (JStr instruction) ;;
            setitem st "goal_state" gs1
          else Ok st) ;;
  Ok (mkAgent st1 None "" 0 (max_steps ag)).

(** [BaseAgent.is_step_limit_reached] *)
Definition is_step_limit_reached (ag : agent) : bool :=
  (max_steps ag <=? current_step ag)%Z.

(** [ZipActAgent._act]; [response] is the reply of the actor call. *)
Definition _act (ag : agent) (observation response : string) : string * string :=
  _parse_thought_action response.

(** [ZipActAgent.step]; [upd] and [act] are the replies of the updater call
    (made only after the first step) and of the actor call. *)
Definition step (ag : agent) (observation upd act : string)
  : result (agent * string) :=
  if is_step_limit_reached ag then Raise StopIteration
  else
    let ag1 := mkAgent (state ag) (last_action ag) (last_thought ag)
                 (current_step ag + 1) (max_steps ag) in
    ag2 <- (match last_action ag1 with
            | Some _ => _update_state ag1 observation upd
            | None => Ok ag1
            end) ;;
    let '(thought, action) := _act ag2 observation act in
    Ok (mkAgent (state ag2) (Some action) thought
          (current_step ag2) (max_steps ag2), action).

End WithLoads.

(** [ZipActAgent.get_state]: [self.state.copy()], which a dictionary and a
    list have and the other values lack. *)
Definition get_state (ag : agent) : result json :=
  match state ag with
  | JObj m => Ok (JObj m)
  | JArr l => Ok (JArr l)
  | _ => Raise AttributeError
  end.

End ZipActAgent.

(** ** The transport wrapper ([src/llm/client.py]) *)

Module LLMClient.

Record client : Type := mkClient {
  total_input_tokens : Z;
  total_output_tokens : Z;
  call_count : Z
}.

(** What [self.client.chat.completions.create] does: it raises an exception
    (of class [Exception]), or it returns a response with its optional
    [usage] (prompt and completion tokens) and the contents of its choices. *)
Inductive api_reply : Type :=
| ApiRaises
| ApiReturns (usage : option (Z * Z)) (choices : list string).

(** A message is its role and its content. *)
Definition message : Type := (string * string)%type.

Section WithEncoding.

(** [len(self.encoding.encode(value))] of the tokenizer library. *)
Variable encode_len : string -> Z.

(** [LLMClient._count_tokens] *)
Definition _count_tokens (messages : list message) : Z :=
  (fold_left
     (fun num_tokens (m : message) =>
        num_tokens + 4 + encode_len (fst m) + encode_len (snd m))
     messages 0 + 2)%Z.

(** [LLMClient.chat]: the client after the call and the string returned.
    An [IndexError] on [response.choices[0]] is caught like the exception of
    the call itself. *)
Definition chat (c : client) (messages : list message) (r : api_reply)
  : client * string :=
  let c1 := mkClient (total_input_tokens c) (total_output_tokens c)
              (call_count c + 1) in
  match r with
  | ApiRaises => (c1, "")
  | ApiReturns usage choices =>
      let current :=
        match usage with
        | Some (p, q) => Some (p, q)
        | None =>
            match choices with
            | content :: _ =>
                Some (_count_tokens messages,
                      _count_tokens [("assistant", content)])
            | [] => None
            end
        end in
      match current with
      | None => (c1, "")
      | Some (i, o) =>
          let c2 := mkClient (total_input_tokens c1 + i)
                      (total_output_tokens c1 + o) (call_count c1) in
          match choices with
          | content :: _ => (c2, content)
          | [] => (c2, "")
          end
      end
  end.

End WithEncoding.

(** [LLMClient.get_token_usage] *)
Definition get_token_usage (c : client) : list (string * Z) :=
  [("input_tokens", total_input_tokens c);
   ("output_tokens", total_output_tokens c);
   ("total_tokens", (total_input_tokens c + total_output_tokens c)%Z)].

(** [LLMClient.reset_token_count] *)
Definition reset_token_count (c : client) : client := mkClient 0 0 0.

(** [LLMClient.__init__], as far as the counters go. *)
Definition init : client := mkClient 0 0 0.

End LLMClient.

(** ** Python floats

    A Python [float] is an IEEE 754 binary64 number.  A finite float is
    given here by its value, a rational; the sign of zero is not kept.
    Every operation on floats gives the float nearest to the exact result,
    the one with the even significand of two nearest ones.  Infinities and
    nan are outside the model, and so are the results of magnitude [2^1024]
    and more, which Python turns into an infinity or an [OverflowError]. *)

Module PyFloat.

(** [2^p] for an integer [p] of either sign. *)
Definition pow2 (p : Z) : Q :=
  if (0 <=? p)%Z then inject_Z (2 ^ p) else (1 # Z.to_pos (2 ^ (- p)))%Q.

(** The integer nearest to [a / b]; of two nearest ones, the even one. *)
Definition nearest_even (a : Z) (b : positive) : Z :=
  let f := (a / Z.pos b)%Z in
  let r := (a mod Z.pos b)%Z in
  match (2 * r ?= Z.pos b)%Z with
  | Lt => f
  | Gt => (f + 1)%Z
  | Eq => if Z.even f then f else (f + 1)%Z
  end.

(** The exponent [e] of the positive rational [n / d]:
    [2^e <= n / d < 2^(e+1)]. *)
Definition exponent (n d : positive) : Z :=
  let e0 := (Z.log2 (Z.pos n) - Z.log2 (Z.pos d))%Z in
  if (0 <=? e0)%Z
  then if (Z.pos d * 2 ^ e0 <=? Z.pos n)%Z then e0 else (e0 - 1)%Z
  else if (Z.pos d <=? Z.pos n * 2 ^ (- e0))%Z then e0 else (e0 - 1)%Z.

(** The float nearest to [n / d]: a significand of 53 bits, or of fewer bits
    below [2^-1022]. *)
Definition round_pos (n d : positive) : Q :=
  let p := (Z.max (exponent n d) (-1022) - 52)%Z in
  let k :=
    if (0 <=? p)%Z then nearest_even (Z.pos n) (d * Z.to_pos (2 ^ p))
    else nearest_even (Z.pos n * 2 ^ (- p)) d in
  Qred (inject_Z k * pow2 p).

Definition round (q : Q) : Q :=
  match Qnum q with
  | Z0 => 0
  | Zpos n => round_pos n (Qden q)
  | Zneg n => Qopp (round_pos n (Qden q))
  end.

(** [x + y] on floats, and on an integer of at most 53 bits and a float. *)
Definition add (x y : Q) : Q := round (x + y).

(** [a / b] on integers, for [b <> 0]: Python rounds the exact quotient
    once. *)
Definition truediv (a b : Z) : Q := round (inject_Z a / inject_Z b).

End PyFloat.

(** ** The logger ([src/utils/logger.py]) *)

Module Logger.

Record step_data : Type := mkStep {
  step : Z;
  observation : string;
  thought : string;
  action : string;
  step_state : option Json.json
}.

Record episode : Type := mkEpisode {
  episode_id : option Z;
  task : string;
  steps : list step_data;
  success : bool;
  reward : Q;
  num_steps : Z;
  token_usage : list (string * Z)
}.

(** The summary, without the names that [save_summary] copies from its
    arguments and without [avg_reward]: that entry is a [sum] of floats,
    which the interpreter rounds in a way that depends on its version
    (compensated summation from Python 3.12 on). *)
Record summary : Type := mkSummary {
  total_episodes : Z;
  successful_episodes : Z;
  success_rate : Q;
  avg_steps : Q;
  total_input_tokens : Z;
  total_output_tokens : Z;
  total_tokens : Z;
  avg_tokens_per_episode : Q
}.

(** The logger: the finished episodes, the one being recorded, the lines
    appended to the JSONL file and the last summary written. *)
Record logger : Type := mkLogger {
  episodes : list episode;
  current_episode : option episode;
  log_file : list episode;
  summary_file : option summary
}.

Definition init : logger := mkLogger [] None [] None.

(** [Logger.start_episode] *)
Definition start_episode (lg : logger) (task : string) (episode_id : option Z)
  : logger :=
  mkLogger (episodes lg)
    (Some (mkEpisode episode_id task [] false 0%Q 0 []))
    (log_file lg) (summary_file lg).

(** [Logger.log_step]; a state is stored when it is given and true. *)
Definition log_step (lg : logger) (step_num : Z)
  (observation thought action : string) (state : option Json.json) : logger :=
  match current_episode lg with
  | None => lg
  | Some ep =>
      let kept :=
        match state with
        | Some st => if Json.truthy st then Some st else None
        | None => None
        end in
      let sd := mkStep step_num observation thought action kept in
      mkLogger (episodes lg)
        (Some (mkEpisode (episode_id ep) (task ep) (steps ep ++ [sd])%list
                 (success ep) (reward ep) (num_steps ep) (token_usage ep)))
        (log_file lg) (summary_file lg)
  end.

(** [Logger.end_episode] *)
Definition end_episode (lg : logger) (success : bool) (reward : Q)
  (token_usage : list (string * Z)) : logger :=
  match current_episode lg with
  | None => lg
  | Some ep =>
      let ep1 := mkEpisode (episode_id ep) (task ep) (steps ep) success reward
                   (Z.of_nat (List.length (steps ep))) token_usage in
      mkLogger (episodes lg ++ [ep1])%list None (log_file lg ++ [ep1])%list
        (summary_file lg)
  end.

(** [sum(...)] of Python on integers: a left fold from [0]. *)
Definition sumZ (l : list Z) : Z := fold_left Z.add l 0%Z.

(** [d.get(k, 0)] on a dictionary of integers *)
Fixpoint get_or_zero (k : string) (d : list (string * Z)) : Z :=
  match d with
  | [] => 0
  | (k', v) :: d' => if String.eqb k k' then v else get_or_zero k d'
  end.

(** [Logger.save_summary]: the value returned and the logger, whose summary
    file holds the same record. *)
Definition save_summary (lg : logger) : logger * option summary :=
  match episodes lg with
  | [] => (lg, None)
  | _ =>
      let eps := episodes lg in
      let total_episodes := Z.of_nat (List.length eps) in
      let successful_episodes :=
        sumZ (map (fun _ => 1%Z) (filter success eps)) in
      let success_rate :=
        if (0 <? total_episodes)%Z
        then PyFloat.truediv successful_episodes total_episodes else 0%Q in
      let avg_steps :=
        PyFloat.truediv (sumZ (map num_steps eps)) total_episodes in
      let total_input_tokens :=
        sumZ (map (fun ep => get_or_zero "input_tokens" (token_usage ep)) eps) in
      let total_output_tokens :=
        sumZ (map (fun ep => get_or_zero "output_tokens" (token_usage ep)) eps) in
      let total_tokens := (total_input_tokens + total_output_tokens)%Z in
      let summary :=
        mkSummary total_episodes successful_episodes success_rate avg_steps
          total_input_tokens total_output_tokens total_tokens
          (if (0 <? total_episodes)%Z
           then PyFloat.truediv total_tokens total_episodes else 0%Q) in
      (mkLogger (episodes lg) (current_episode lg) (log_file lg) (Some summary),
       Some summary)
  end.

End Logger.

(** ** The experiment runner ([run_experiment.py]) *)

Module Experiment.

(** [reward > 0] *)
Definition positive (r : Q) : bool := negb (Qle_bool r 0).

(** What [run_episode] returns, with the objects it leaves behind. *)
Record finished (Env Agent : Type) : Type := mkFinished {
  success : bool;
  total_reward : Q;
  steps : Z;
  end_agent : Agent;
  end_env : Env;
  end_logger : option Logger.logger
}.
Arguments mkFinished {Env Agent}.
Arguments success {Env Agent}.
Arguments total_reward {Env Agent}.
Arguments steps {Env Agent}.
Arguments end_agent {Env Agent}.
Arguments end_env {Env Agent}.
Arguments end_logger {Env Agent}.

(** A run of [run_episode] as an observer sees it: how many times
    [agent.step] was invoked, the reward and the [done] flag of every
    [env.step] in order, and the value returned or the exception raised. *)
Record run (Env Agent : Type) : Type := mkRun {
  step_calls : nat;
  env_results : list (Q * bool);
  outcome : result (finished Env Agent)
}.
Arguments mkRun {Env Agent}.
Arguments step_calls {Env Agent}.
Arguments env_results {Env Agent}.
Arguments outcome {Env Agent}.

Section RunEpisode.

Variables Env Agent : Type.

(** The environment interface ([src/envs/base.py]); a reward is a float. *)
Variable env_reset : Env -> Env * string.
Variable env_get_task : Env -> string.
Variable env_step : Env -> string -> Env * string * Q * bool.

(** The agent interface ([src/agents/base.py]). *)
Variable agent_reset : Agent -> string -> result Agent.
Variable agent_step : Agent -> string -> result (Agent * string).
Variable agent_last_thought : Agent -> string.
Variable agent_get_state : Agent -> result (option Json.json).

(** [isinstance(agent, ReflexionAgent)] and [ReflexionAgent.reflect]. *)
Variable is_reflexion : bool.
Variable agent_reflect : Agent -> bool -> string -> Agent.

(** The statements after the loop; [iterations] is [step + 1], and [step] is
    unbound when the loop body never ran. *)
Definition finish (max_steps : Z) (success : bool) (iterations : nat)
  (ag : Agent) (env : Env) (lg : option Logger.logger) (total_reward : Q)
  : result (finished Env Agent) :=
  match iterations with
  | O => Raise UnboundLocalError
  | S _ =>
      let step := (Z.of_nat iterations - 1)%Z in
      let ag1 :=
        if is_reflexion && negb success then
          agent_reflect ag success
            (if (step =? max_steps - 1)%Z then "Max steps reached"
             else "Task failed")
        else ag in
      Ok (mkFinished success total_reward (step + 1)%Z ag1 env lg)
  end.

(** [for step in range(max_steps)]: [remaining] iterations are left, [step]
    of them are done.  [total_reward += reward] is an addition of floats
    (the first one adds a float to the integer [0]). *)
Fixpoint loop (max_steps : Z) (remaining step : nat) (ag : Agent) (env : Env)
  (lg : option Logger.logger) (obs : string) (total_reward : Q)
  : run Env Agent :=
  match remaining with
  | O => mkRun 0 [] (finish max_steps false step ag env lg total_reward)
  | S remaining' =>
      match agent_step ag obs with
      | Raise e => mkRun 1 [] (Raise e)
      | Ok (ag1, action) =>
          let thought := agent_last_thought ag1 in
          let logged :=
            match lg with
            | Some l =>
                match agent_get_state ag1 with
                | Ok state =>
                    Ok (Some (Logger.log_step l (Z.of_nat step + 1) obs
                                thought action state))
                | Raise e => Raise e
                end
            | None => Ok None
            end in
          match logged with
          | Raise e => mkRun 1 [] (Raise e)
          | Ok lg1 =>
              let '(env1, obs1, reward, done) := env_step env action in
              let total1 := PyFloat.add total_reward reward in
              if done then
                mkRun 1 [(reward, done)]
                  (finish max_steps (positive reward) (S step) ag1 env1 lg1
                     total1)
              else
                let r := loop max_steps remaining' (S step) ag1 env1 lg1 obs1
                           total1 in
                mkRun (S (step_calls r)) ((reward, done) :: env_results r)
                  (outcome r)
          end
      end
  end.

(** [run_episode(agent, env, max_steps, logger, episode_id)] *)
Definition run_episode (ag : Agent) (env : Env) (max_steps : Z)
  (lg : option Logger.logger) (episode_id : option Z) : run Env Agent :=
  let '(env1, obs) := env_reset env in
  let task := env_get_task env1 in
  match agent_reset ag task with
  | Raise e => mkRun 0 [] (Raise e)
  | Ok ag1 =>
      let lg1 := option_map (fun l => Logger.start_episode l task episode_id) lg in
      loop max_steps (Z.to_nat max_steps) 0 ag1 env1 lg1 obs 0%Q
  end.

(** The exception [e] is one that a method of the agent raises. *)
Definition raised_by_agent (e : exn) : Prop :=
  (exists ag task, agent_reset ag task = Raise e)
  \/ (exists ag obs, agent_step ag obs = Raise e)
  \/ (exists ag, agent_get_state ag = Raise e).

(** An agent that keeps to [BaseAgent] and raises nothing of its own, the
    two fields of [BaseAgent] being [current_step] and [max_steps]: [reset]
    puts the step counter at zero and leaves the limit as it is; below the
    limit [step] returns an action and counts one step; at the limit or
    beyond it [step] raises [StopIteration]; [get_state] returns. *)
Definition follows_base_agent (current_step max_steps : Agent -> Z) : Prop :=
  (forall ag task, exists ag0,
      agent_reset ag task = Ok ag0
      /\ current_step ag0 = 0%Z /\ max_steps ag0 = max_steps ag)
  /\ (forall ag obs,
        (current_step ag < max_steps ag)%Z ->
        exists ag1 action,
          agent_step ag obs = Ok (ag1, action)
          /\ current_step ag1 = (current_step ag + 1)%Z
          /\ max_steps ag1 = max_steps ag)
  /\ (forall ag obs,
        (max_steps ag <= current_step ag)%Z ->
        agent_step ag obs = Raise StopIteration)
  /\ (forall ag, exists st, agent_get_state ag = Ok st).

End RunEpisode.

(** *** The loop over the episodes in [main] *)

Section Main.

Variable encode_len : string -> Z.

(** [run_episode] reaches the client only through [LLMClient.chat]: for the
    client an episode is the list of the calls made while it runs.  The rest
    of its result is what it returns and the steps it logs. *)
Record episode_run : Type := mkEpisodeRun {
  chat_calls : list (list LLMClient.message * LLMClient.api_reply);
  returned : result (bool * Q * Z);
  logged_steps : list Logger.step_data;
  run_task : string
}.

Definition do_calls (c : LLMClient.client)
  (calls : list (list LLMClient.message * LLMClient.api_reply))
  : LLMClient.client :=
  fold_left (fun c call => fst (LLMClient.chat encode_len c (fst call) (snd call)))
    calls c.

Definition log_steps (lg : Logger.logger) (sds : list Logger.step_data)
  : Logger.logger :=
  fold_left
    (fun lg sd =>
       Logger.log_step lg (Logger.step sd) (Logger.observation sd)
         (Logger.thought sd) (Logger.action sd) (Logger.step_state sd))
    sds lg.

(** [for i in range(args.episodes)], episode [i] onwards.  The result also
    lists the client as it is when each episode starts. *)
Fixpoint main_loop (llm : LLMClient.client) (lg : Logger.logger) (i : Z)
  (runs : list episode_run)
  : list LLMClient.client * result (LLMClient.client * Logger.logger) :=
  match runs with
  | [] => ([], Ok (llm, lg))
  | r :: runs' =>
      let lg1 := Logger.start_episode lg (run_task r) (Some (i + 1)%Z) in
      let llm1 := do_calls llm (chat_calls r) in
      let lg2 := log_steps lg1 (logged_steps r) in
      match returned r with
      | Raise e => ([llm], Raise e)
      | Ok (success, reward, steps) =>
          let token_usage := LLMClient.get_token_usage llm1 in
          let lg3 := Logger.end_episode lg2 success reward token_usage in
          let llm2 := LLMClient.reset_token_count llm1 in
          let '(starts, res) := main_loop llm2 lg3 (i + 1)%Z runs' in
          (llm :: starts, res)
      end
  end.

(** [main] from the construction of the client and of the logger on. *)
Definition main (runs : list episode_run)
  : list LLMClient.client * result (LLMClient.client * Logger.logger) :=
  main_loop LLMClient.init Logger.init 0 runs.

End Main.

End Experiment.

(** ** The masked-history agent ([src/agents/observation_masking.py]) *)

Module ObservationMaskingAgent.

Record agent : Type := mkAgent {
  environment : string;
  keep_recent : Z;
  observations : list string;
  thoughts : list string;
  actions : list string;
  instruction : string;
  last_thought : string;
  current_step : Z;
  max_steps : Z
}.

(** [ObservationMaskingAgent._parse_thought_action]; [environment] is the
    agent's field of that name. *)
Definition _parse_thought_action (environment text : string) : string * string :=
  let '(thought, action) := scan_lines text in
  if negb (PyStr.truthy thought) && negb (PyStr.truthy action) then
    fallback text action
      (if String.eqb environment "webshop" then PyRe.search_webshop text
       else if String.eqb environment "sciworld" then PyRe.search_sciworld text
       else PyRe.search_alfworld text)
  else (thought, action).

(** [str(n)] for a step number *)
Definition str (n : nat) : string := NilZero.string_of_uint (Nat.to_uint n).

(** [ObservationMaskingAgent.reset] *)
Definition reset (ag : agent) (instruction : string) : agent :=
  mkAgent (environment ag) (keep_recent ag) [] [] [] instruction "" 0
    (max_steps ag).

(** [BaseAgent.is_step_limit_reached] *)
Definition is_step_limit_reached (ag : agent) : bool :=
  (max_steps ag <=? current_step ag)%Z.

(** The body of the loop that builds [history_parts], for the index [i]. *)
Definition history_entry (ag : agent) (i : nat) : list string :=
  let step_num := i + 1 in
  let obs_text :=
    if (Z.of_nat i <? Z.of_nat (List.length (observations ag)) - keep_recent ag)%Z
    then "[Observation masked]"
    else nth i (observations ag) "" in
  let obs_line := "Observation " ++ str step_num ++ ": " ++ obs_text in
  let thought_line :=
    "Thought " ++ str step_num ++ ": " ++ nth i (thoughts ag) "" in
  let action_line :=
    "Action " ++ str step_num ++ ": " ++ nth i (actions ag) "" in
  ([obs_line]
   ++ (if Nat.ltb i (List.length (thoughts ag)) then [thought_line] else [])
   ++ (if Nat.ltb i (List.length (actions ag)) then [action_line] else []))%list.

(** [history_parts] after [for i in range(len(self.observations))] *)
Definition history_parts (ag : agent) : list string :=
  flat_map (history_entry ag) (seq 0 (List.length (observations ag))).

(** The agent once the observation is stored (lines 72-75). *)
Definition observe (ag : agent) (observation : string) : agent :=
  mkAgent (environment ag) (keep_recent ag)
    (observations ag ++ [observation])%list (thoughts ag) (actions ag)
    (instruction ag) (last_thought ag) (current_step ag + 1) (max_steps ag).

(** [history_str], the history that goes into the prompt of a step. *)
Definition history_str (ag : agent) (observation : string) : string :=
  PyStr.join (String PyStr.nl "") (history_parts (observe ag observation)).

(** [ObservationMaskingAgent.step]; [response] is the reply of the call. *)
Definition step (ag : agent) (observation response : string)
  : result (agent * string) :=
  if is_step_limit_reached ag then Raise StopIteration
  else
    let ag1 := observe ag observation in
    let '(thought, action) :=
      _parse_thought_action (environment ag1) response in
    Ok (mkAgent (environment ag1) (keep_recent ag1) (observations ag1)
          (thoughts ag1 ++ [thought])%list (actions ag1 ++ [action])%list
          (instruction ag1) thought (current_step ag1) (max_steps ag1),
        action).

(** The steps of one episode: [reset], then a [step] for each observation
    with the reply it gets. *)
Fixpoint steps (ag : agent) (io : list (string * string)) : result agent :=
  match io with
  | [] => Ok ag
  | (observation, response) :: io' =>
      match step ag observation response with
      | Ok (ag1, _) => steps ag1 io'
      | Raise e => Raise e
      end
  end.

End ObservationMaskingAgent.

(** ** [json.loads]

    The decoder of the Python library, written as a lexer over the characters
    followed by a pushdown parser over the tokens.  A [string] holds code
    points below 256, so the model covers the documents whose [\uXXXX]
    escapes stay below code point 256: on the others, which Python decodes,
    [loads] gives [None].  The limits of the interpreter (depth of
    recursion, number of digits of an integer) are no part of the model.
    The general statements therefore take the decoder as a parameter
    [json_loads], or use [loads] in a hypothesis that it accepts a text;
    elsewhere [loads] is applied to given texts. *)

Module JsonLoads.

Import Json.

Inductive token : Type :=
| TLBrace | TRBrace | TLBrack | TRBrack | TColon | TComma
| TString (s : string)
| TValue (v : json).

(** *** The lexer *)

Inductive nphase : Type :=
| PSign | PZero | PInt | PDot | PFrac | PE | PESign | PExp.

(** A number being read: an optional minus sign, an integer part without
    leading zero, an optional fraction and an optional exponent. *)
Record num : Type := mkNum {
  phase : nphase;
  negative : bool;
  mant : Z;
  fracn : Z;
  eneg : bool;
  eabs : Z
}.

Inductive lstate : Type :=
| LOut
| LStr (acc : string)
| LEsc (acc : string)
| LUni (acc : string) (digits : list nat)
| LLit (rest : string) (v : json)
| LNum (n : num).

Definition signed (neg : bool) (z : Z) : Z := if neg then (- z)%Z else z.

(** The value of a number whose text is complete, if it is. *)
Definition num_value (n : num) : option json :=
  match phase n with
  | PZero | PInt => Some (JInt (signed (negative n) (mant n)))
  | PFrac => Some (JFloat (FDec (signed (negative n) (mant n)) (- fracn n)))
  | PExp =>
      Some (JFloat (FDec (signed (negative n) (mant n))
                      (signed (eneg n) (eabs n) - fracn n)))
  | _ => None
  end.

Definition digit (c : ascii) : option Z :=
  let n := nat_of_ascii c in
  if ((48 <=? n) && (n <=? 57))%nat then Some (Z.of_nat (n - 48)) else None.

Definition hexdigit (c : ascii) : option nat :=
  let n := nat_of_ascii c in
  if ((48 <=? n) && (n <=? 57))%nat then Some (n - 48)
  else if ((65 <=? n) && (n <=? 70))%nat then Some (n - 55)
  else if ((97 <=? n) && (n <=? 102))%nat then Some (n - 87)
  else None.

(** White space of JSON: space, tab, line feed, carriage return. *)
Definition json_space (c : ascii) : bool :=
  let n := nat_of_ascii c in
  ((n =? 32) || (n =? 9) || (n =? 10) || (n =? 13))%nat.

Definition snoc (s : string) (c : ascii) : string := s ++ String c EmptyString.

(** A character read between two tokens. *)
Definition lex_out (c : ascii) : option (lstate * list token) :=
  if json_space c then Some (LOut, [])
  else if Ascii.eqb c "{" then Some (LOut, [TLBrace])
  else if Ascii.eqb c "}" then Some (LOut, [TRBrace])
  else if Ascii.eqb c "[" then Some (LOut, [TLBrack])
  else if Ascii.eqb c "]" then Some (LOut, [TRBrack])
  else if Ascii.eqb c ":" then Some (LOut, [TColon])
  else if Ascii.eqb c "," then Some (LOut, [TComma])
  else if Ascii.eqb c PyStr.dq then Some (LStr EmptyString, [])
  else if Ascii.eqb c "n" then Some (LLit "ull" JNull, [])
  else if Ascii.eqb c "t" then Some (LLit "rue" (JBool true), [])
  else if Ascii.eqb c "f" then Some (LLit "alse" (JBool false), [])
  else if Ascii.eqb c "N" then Some (LLit "aN" (JFloat FNaN), [])
  else if Ascii.eqb c "I" then Some (LLit "nfinity" (JFloat (FInf false)), [])
  else if Ascii.eqb c "-" then Some (LNum (mkNum PSign true 0 0 false 0), [])
  else if Ascii.eqb c "0" then Some (LNum (mkNum PZero false 0 0 false 0), [])
  else
    match digit c with
    | Some d => Some (LNum (mkNum PInt false d 0 false 0), [])
    | None => None
    end.

(** The number ends before [c]. *)
Definition end_num (n : num) (c : ascii) : option (lstate * list token) :=
  match num_value n, lex_out c with
  | Some v, Some (st, toks) => Some (st, TValue v :: toks)
  | _, _ => None
  end.

Definition is_e (c : ascii) : bool := Ascii.eqb c "e" || Ascii.eqb c "E".

Definition lex_num (n : num) (c : ascii) : option (lstate * list token) :=
  let set p := mkNum p (negative n) (mant n) (fracn n) (eneg n) (eabs n) in
  match phase n with
  | PSign =>
      if Ascii.eqb c "0" then Some (LNum (set PZero), [])
      else if Ascii.eqb c "I"
      then Some (LLit "nfinity" (JFloat (FInf true)), [])
      else
        match digit c with
        | Some d => Some (LNum (mkNum PInt (negative n) d 0 false 0), [])
        | None => None
        end
  | PZero =>
      if Ascii.eqb c "." then Some (LNum (set PDot), [])
      else if is_e c then Some (LNum (set PE), [])
      else end_num n c
  | PInt =>
      match digit c with
      | Some d =>
          Some (LNum (mkNum PInt (negative n) (10 * mant n + d) 0 false 0), [])
      | None =>
          if Ascii.eqb c "." then Some (LNum (set PDot), [])
          else if is_e c then Some (LNum (set PE), [])
          else end_num n c
      end
  | PDot =>
      match digit c with
      | Some d =>
          Some (LNum (mkNum PFrac (negative n) (10 * mant n + d) 1 false 0), [])
      | None => None
      end
  | PFrac =>
      match digit c with
      | Some d =>
          Some (LNum (mkNum PFrac (negative n) (10 * mant n + d)
                        (fracn n + 1) false 0), [])
      | None => if is_e c then Some (LNum (set PE), []) else end_num n c
      end
  | PE =>
      if Ascii.eqb c "+" then Some (LNum (set PESign), [])
      else if Ascii.eqb c "-"
      then Some (LNum (mkNum PESign (negative n) (mant n) (fracn n) true 0), [])
      else
        match digit c with
        | Some d =>
            Some (LNum (mkNum PExp (negative n) (mant n) (fracn n) false d), [])
        | None => None
        end
  | PESign =>
      match digit c with
      | Some d =>
          Some (LNum (mkNum PExp (negative n) (mant n) (fracn n) (eneg n) d), [])
      | None => None
      end
  | PExp =>
      match digit c with
      | Some d =>
          Some (LNum (mkNum PExp (negative n) (mant n) (fracn n) (eneg n)
                        (10 * eabs n + d)), [])
      | None => end_num n c
      end
  end.

(** The character that an escape of one letter denotes. *)
Definition escape (c : ascii) : option ascii :=
  if Ascii.eqb c PyStr.dq || Ascii.eqb c "\" || Ascii.eqb c "/" then Some c
  else if Ascii.eqb c "b" then Some "008"%char
  else if Ascii.eqb c "f" then Some "012"%char
  else if Ascii.eqb c "n" then Some "010"%char
  else if Ascii.eqb c "r" then Some "013"%char
  else if Ascii.eqb c "t" then Some "009"%char
  else None.

Definition hexval (ds : list nat) : nat :=
  fold_left (fun a d => 16 * a + d) ds 0.

Definition lex_step (st : lstate) (c : ascii) : option (lstate * list token) :=
  match st with
  | LOut => lex_out c
  | LStr acc =>
      if Ascii.eqb c PyStr.dq then Some (LOut, [TString acc])
      else if Ascii.eqb c "\" then Some (LEsc acc, [])
      else if (nat_of_ascii c <? 32)%nat then None
      else Some (LStr (snoc acc c), [])
  | LEsc acc =>
      if Ascii.eqb c "u" then Some (LUni acc [], [])
      else
        match escape c with
        | Some e => Some (LStr (snoc acc e), [])
        | None => None
        end
  | LUni acc ds =>
      match hexdigit c with
      | Some h =>
          let ds1 := (ds ++ [h])%list in
          if (List.length ds1 <? 4)%nat then Some (LUni acc ds1, [])
          else if (hexval ds1 <? 256)%nat
          then Some (LStr (snoc acc (ascii_of_nat (hexval ds1))), [])
          else None
      | None => None
      end
  | LLit rest v =>
      match rest with
      | String r rest' =>
          if Ascii.eqb c r then
            match rest' with
            | EmptyString => Some (LOut, [TValue v])
            | _ => Some (LLit rest' v, [])
            end
          else None
      | EmptyString => None
      end
  | LNum n => lex_num n c
  end.

(** The end of the text. *)
Definition lex_end (st : lstate) : option (list token) :=
  match st with
  | LOut => Some []
  | LNum n => option_map (fun v => [TValue v]) (num_value n)
  | _ => None
  end.

Fixpoint lex_go (st : lstate) (s : string) : option (list token) :=
  match s with
  | EmptyString => lex_end st
  | String c s' =>
      match lex_step st c with
      | Some (st1, toks) => option_map (List.app toks) (lex_go st1 s')
      | None => None
      end
  end.

Definition lex (s : string) : option (list token) := lex_go LOut s.

(** *** The parser *)

(** An open container: an array with its elements so far, an object with its
    members so far, or an object whose key [key] waits for its value. *)
Inductive frame : Type :=
| FArr (acc : list json)
| FObj (acc : list (string * json))
| FKey (acc : list (string * json)) (key : string).

Inductive mode : Type :=
| MValue
| MValueOrEnd
| MKeyOrEnd
| MKey
| MColon
| MAfter
| MDone (v : json).

Definition pstate : Type := (mode * list frame)%type.

(** A value is complete: it goes into the innermost open container. *)
Definition complete (v : json) (stack : list frame) : option pstate :=
  match stack with
  | [] => Some (MDone v, [])
  | FArr acc :: st => Some (MAfter, FArr (acc ++ [v])%list :: st)
  | FKey acc k :: st => Some (MAfter, FObj (assoc_set k v acc) :: st)
  | FObj _ :: _ => None
  end.

Definition start_value (t : token) (stack : list frame) : option pstate :=
  match t with
  | TString s => complete (JStr s) stack
  | TValue v => complete v stack
  | TLBrack => Some (MValueOrEnd, FArr [] :: stack)
  | TLBrace => Some (MKeyOrEnd, FObj [] :: stack)
  | _ => None
  end.

Definition start_key (t : token) (stack : list frame) : option pstate :=
  match t, stack with
  | TString k, FObj acc :: st => Some (MColon, FKey acc k :: st)
  | _, _ => None
  end.

Definition close (t : token) (stack : list frame) : option pstate :=
  match t, stack with
  | TRBrack, FArr acc :: st => complete (JArr acc) st
  | TRBrace, FObj acc :: st => complete (JObj acc) st
  | _, _ => None
  end.

Definition parse_step (ps : pstate) (t : token) : option pstate :=
  let '(m, stack) := ps in
  match m with
  | MValue => start_value t stack
  | MValueOrEnd =>
      match t with
      | TRBrack => close t stack
      | _ => start_value t stack
      end
  | MKeyOrEnd =>
      match t with
      | TRBrace => close t stack
      | _ => start_key t stack
      end
  | MKey => start_key t stack
  | MColon =>
      match t with
      | TColon => Some (MValue, stack)
      | _ => None
      end
  | MAfter =>
      match t, stack with
      | TComma, FArr _ :: _ => Some (MValue, stack)
      | TComma, FObj _ :: _ => Some (MKey, stack)
      | _, _ => close t stack
      end
  | MDone _ => None
  end.

Fixpoint parse_go (ps : pstate) (ts : list token) : option json :=
  match ts with
  | [] =>
      match ps with
      | (MDone v, []) => Some v
      | _ => None
      end
  | t :: ts' =>
      match parse_step ps t with
      | Some ps1 => parse_go ps1 ts'
      | None => None
      end
  end.

Definition parse (ts : list token) : option json := parse_go (MValue, []) ts.

(** [json.loads(s)] on the documents that the model covers; [None] when it
    raises. *)
Definition loads (s : string) : option json :=
  match lex s with
  | Some ts => parse ts
  | None => None
  end.

End JsonLoads.

(** ** Predicates of the statements *)

(** No line of the text, as the parsers split and strip it, begins with
    [Thought:] or with [Action:]. *)
Definition no_prefix_line (text : string) : bool :=
  forallb
    (fun line =>
       negb (PyStr.startswith "Thought:" (PyStr.strip line))
       && negb (PyStr.startswith "Action:" (PyStr.strip line)))
    (PyStr.split (String PyStr.nl "") (PyStr.strip text)).

(** The attempted-actions list the code keeps: the previous list, with the
    last action at its end when that action is a non-empty string that the
    list does not hold yet. *)
Definition tracked_list (last_action : option string) (l : list Json.json)
  : list Json.json :=
  match last_action with
  | Some a =>
      if PyStr.truthy a && negb (existsb (Json.is_str a) l)
      then (l ++ [Json.JStr a])%list
      else l
  | None => l
  end.

(** [st["constraint_state"]["attempted_actions"]], when the state has it. *)
Definition attempted_actions_of (st : Json.json) : option Json.json :=
  match st with
  | Json.JObj m =>
      match Json.assoc_get "constraint_state" m with
      | Some (Json.JObj cs) => Json.assoc_get "attempted_actions" cs
      | _ => None
      end
  | _ => None
  end.

(** The state [st] with [l] as its attempted-actions list and nothing else
    changed. *)
Definition with_attempted (l : list Json.json) (st : Json.json) : Json.json :=
  match st with
  | Json.JObj m =>
      match Json.assoc_get "constraint_state" m with
      | Some (Json.JObj cs) =>
          Json.JObj
            (Json.assoc_set "constraint_state"
               (Json.JObj (Json.assoc_set "attempted_actions" (Json.JArr l) cs))
               m)
      | _ => st
      end
  | _ => st
  end.

(** The updater's reply does not parse: the fenced text cannot be taken, or
    [json.loads] raises on it. *)
Definition fails_to_parse (json_loads : string -> option Json.json)
  (response : string) : Prop :=
  match ZipActAgent.payload response with
  | Some json_str => json_loads (PyRe.sub_trailing_commas json_str) = None
  | None => True
  end.

(** A state that holds an attempted-actions list: an object whose
    [constraint_state] is an object whose [attempted_actions] is the list
    [l]. *)
Definition holds_attempted (st : Json.json) (l : list Json.json) : Prop :=
  attempted_actions_of st = Some (Json.JArr l).

(** The agent [ag] with [st] as its state. *)
Definition set_state (ag : ZipActAgent.agent) (st : Json.json)
  : ZipActAgent.agent :=
  ZipActAgent.mkAgent st (ZipActAgent.last_action ag)
    (ZipActAgent.last_thought ag) (ZipActAgent.current_step ag)
    (ZipActAgent.max_steps ag).

(** ** Concrete inputs *)

Module Sample.

Import Json.

(** A state whose attempted-actions list is [l], the rest as in the empty
    state. *)
Definition state_with (l : list json) : json :=
  with_attempted l ZipActAgent._get_empty_state.

(** The agent after a first step that chose [look], about to update its
    state. *)
Definition after_look : ZipActAgent.agent :=
  ZipActAgent.mkAgent ZipActAgent._get_empty_state (Some "look") "" 2 50.

(** The agent after [look] and then [go to desk 1]. *)
Definition after_go : ZipActAgent.agent :=
  ZipActAgent.mkAgent (state_with [JStr "look"]) (Some "go to desk 1") "" 3 50.

(** A reply of the updater that is a JSON object without the key
    [constraint_state]. *)
Definition reply_without_constraints : string :=
  "{" ++ PyStr.quoted "goal_state" ++ ": {"
  ++ PyStr.quoted "current_objective" ++ ": " ++ PyStr.quoted "find the desk"
  ++ "}}".

(** A reply of the updater, fenced and with trailing commas, that rewrites
    the attempted actions. *)
Definition reply_rewriting_attempts : string :=
  "```json" ++ String PyStr.nl
    ("{" ++ PyStr.quoted "world_state" ++ ": {"
     ++ PyStr.quoted "location" ++ ": " ++ PyStr.quoted "desk 1" ++ "}, "
     ++ PyStr.quoted "constraint_state" ++ ": {"
     ++ PyStr.quoted "attempted_actions" ++ ": [" ++ PyStr.quoted "fly" ++ "], "
     ++ PyStr.quoted "visited_locations" ++ ": [" ++ PyStr.quoted "desk 1"
     ++ "],},}" ++ String PyStr.nl "```").

(** A reply that is no JSON. *)
Definition reply_not_json : string := "I cannot comply".

(** A reply of the initialisation call that is a JSON object without the key
    [goal_state]. *)
Definition reply_without_goal : string :=
  "{" ++ PyStr.quoted "world_state" ++ ": {}}".

End Sample.

(** The prompt and completion tokens that one call of [LLMClient.chat] adds
    to the counters: those of the reported usage, the estimate when no usage
    is reported, nothing when the call fails before the counters are
    reached. *)
Definition call_tokens (encode_len : string -> Z)
  (call : list LLMClient.message * LLMClient.api_reply) : Z * Z :=
  match snd call with
  | LLMClient.ApiRaises => (0, 0)%Z
  | LLMClient.ApiReturns (Some (p, q)) _ => (p, q)
  | LLMClient.ApiReturns None (content :: _) =>
      (LLMClient._count_tokens encode_len (fst call),
       LLMClient._count_tokens encode_len [("assistant", content)])
  | LLMClient.ApiReturns None [] => (0, 0)%Z
  end.

(** The token usage of the calls of one episode, counted from zero. *)
Definition episode_usage (encode_len : string -> Z)
  (calls : list (list LLMClient.message * LLMClient.api_reply))
  : list (string * Z) :=
  let i := Logger.sumZ (map (fun c => fst (call_tokens encode_len c)) calls) in
  let o := Logger.sumZ (map (fun c => snd (call_tokens encode_len c)) calls) in
  [("input_tokens", i); ("output_tokens", o); ("total_tokens", (i + o)%Z)].

(** ** The statistics of the summary, as the specification words them *)

(** The sum of a list of integers. *)
Definition total (l : list Z) : Z := fold_right Z.add 0%Z l.

(** The quotient of an integer by a positive number of episodes. *)
Definition per_episode (t : Z) (n : nat) : Q := (t # Pos.of_nat n)%Q.

(** The number of the episodes with [success = True]. *)
Definition successes (eps : list Logger.episode) : Z :=
  Z.of_nat (List.length (filter Logger.success eps)).

Definition input_tokens_of (ep : Logger.episode) : Z :=
  Logger.get_or_zero "input_tokens" (Logger.token_usage ep).

Definition output_tokens_of (ep : Logger.episode) : Z :=
  Logger.get_or_zero "output_tokens" (Logger.token_usage ep).

Module SampleLog.

(** Two finished episodes: a success in three steps, a failure in five. *)
Definition first : Logger.episode :=
  Logger.mkEpisode (Some 1%Z) "put a mug on the desk" [] true 1%Q 3
    [("input_tokens", 900%Z); ("output_tokens", 100%Z); ("total_tokens", 1000%Z)].

Definition second : Logger.episode :=
  Logger.mkEpisode (Some 2%Z) "heat an egg" [] false 0%Q 5
    [("input_tokens", 1500%Z); ("output_tokens", 200%Z); ("total_tokens", 1700%Z)].

Definition logger : Logger.logger :=
  Logger.mkLogger [first; second] None [first; second] None.

(** A third episode, a failure in two steps, and the log of the three. *)
Definition third : Logger.episode :=
  Logger.mkEpisode (Some 3%Z) "cool a cup" [] false 0%Q 2
    [("input_tokens", 700%Z); ("output_tokens", 51%Z); ("total_tokens", 751%Z)].

Definition logger_of_three : Logger.logger :=
  Logger.mkLogger [first; second; third] None [first; second; third] None.

End SampleLog.

(** The environment did not report [done] at a step. *)
Definition not_done (x : Q * bool) : Prop := snd x = false.

Module SampleRun.

(** An environment that counts its steps: the task is done, with reward 1,
    at the step [goal]; [goal = 0] never ends. *)
Record env : Type := mkEnv { goal : nat; count : nat }.

Definition env_reset (e : env) : env * string :=
  (mkEnv (goal e) 0, "You are in the middle of a room.").

Definition env_get_task (e : env) : string := "put a mug on the desk".

Definition env_step (e : env) (action : string) : env * string * Q * bool :=
  let n := S (count e) in
  if Nat.eqb n (goal e)
  then (mkEnv (goal e) n, "You put the mug on the desk.", 1%Q, true)
  else (mkEnv (goal e) n, "Nothing happens.", 0%Q, false).

(** The masked-history agent when every call of the API fails, so that
    [LLMClient.chat] returns the empty string. *)
Definition agent_reset (ag : ObservationMaskingAgent.agent) (task : string)
  : result ObservationMaskingAgent.agent :=
  Ok (ObservationMaskingAgent.reset ag task).

Definition agent_step (ag : ObservationMaskingAgent.agent) (obs : string)
  : result (ObservationMaskingAgent.agent * string) :=
  ObservationMaskingAgent.step ag obs "".

Definition agent_get_state (ag : ObservationMaskingAgent.agent)
  : result (option Json.json) := Ok None.

Definition agent_reflect (ag : ObservationMaskingAgent.agent) (success : bool)
  (failure_reason : string) : ObservationMaskingAgent.agent := ag.

(** [ObservationMaskingAgent(llm, keep_recent=5)] with [max_steps] steps. *)
Definition new_agent (max_steps : Z) : ObservationMaskingAgent.agent :=
  ObservationMaskingAgent.mkAgent "alfworld" 5 [] [] [] "" "" 0 max_steps.

Definition run_episode (ag : ObservationMaskingAgent.agent) (e : env)
  (max_steps : Z) : Experiment.run env ObservationMaskingAgent.agent :=
  Experiment.run_episode env ObservationMaskingAgent.agent env_reset
    env_get_task env_step agent_reset agent_step
    ObservationMaskingAgent.last_thought agent_get_state false agent_reflect
    ag e max_steps (Some Logger.init) (Some 1%Z).

(** The floats 0.1 and 0.2, by their values. *)
Definition tenth : Q := 3602879701896397 # 36028797018963968.
Definition fifth : Q := 3602879701896397 # 18014398509481984.

(** An environment that scores 0.1 at its first step and ends the episode
    with a score of 0.2 at its second step. *)
Definition env_step_scores (e : env) (action : string)
  : env * string * Q * bool :=
  let n := S (count e) in
  if Nat.eqb n 2
  then (mkEnv (goal e) n, "You put the mug on the desk.", fifth, true)
  else (mkEnv (goal e) n, "You take the mug.", tenth, false).

Definition run_scores : Experiment.run env ObservationMaskingAgent.agent :=
  Experiment.run_episode env ObservationMaskingAgent.agent env_reset
    env_get_task env_step_scores agent_reset agent_step
    ObservationMaskingAgent.last_thought agent_get_state false agent_reflect
    (new_agent 50) (mkEnv 2 0) 50 None None.

End SampleRun.

(** ** The masked history, as the specification words it *)

(** The observations as the prompt shows them: the most recent
    [min(t, keep_recent)] of the [t] observations as they are, every older
    one replaced by the literal. *)
Definition masked_view (keep_recent : Z) (obs : list string) : list string :=
  let t := List.length obs in
  let recent := Z.to_nat (Z.min (Z.of_nat t) keep_recent) in
  (map (fun _ => "[Observation masked]") (firstn (t - recent) obs)
   ++ skipn (t - recent) obs)%list.

(** The lines of the history from the step [n] on: each observation shown,
    followed by the thought and the action of its step when they are
    stored. *)
Fixpoint interleave (n : nat) (shown thoughts actions : list string)
  : list string :=
  match shown with
  | [] => []
  | o :: shown' =>
      let num := ObservationMaskingAgent.str n in
      let obs_line := "Observation " ++ num ++ ": " ++ o in
      let thought_line :=
        match thoughts with
        | th :: _ => ["Thought " ++ num ++ ": " ++ th]
        | [] => []
        end in
      let action_line :=
        match actions with
        | a :: _ => ["Action " ++ num ++ ": " ++ a]
        | [] => []
        end in
      ([obs_line] ++ thought_line ++ action_line
       ++ interleave (S n) shown' (tl thoughts) (tl actions))%list
  end.

Module SampleHistory.

(** An agent that keeps one observation, and the first two steps of an
    episode with the replies of the model. *)
Definition agent : ObservationMaskingAgent.agent :=
  ObservationMaskingAgent.mkAgent "alfworld" 1 [] [] [] "" "" 0 50.

Definition first_steps : list (string * string) :=
  [("You are in the middle of a room.",
    "Thought: find the mug" ++ String PyStr.nl "Action: go to desk 1");
   ("You are at desk 1.", "")].

End SampleHistory.

(** ** JSON with trailing commas *)

Module TrailingCommas.

Import Json JsonLoads.

(** The tokens of a text without the commas that come just before a closing
    brace or bracket. *)
Fixpoint drop_trailing_commas (ts : list token) : list token :=
  match ts with
  | [] => []
  | t :: ts' =>
      match t, ts' with
      | TComma, TRBrace :: _ => drop_trailing_commas ts'
      | TComma, TRBrack :: _ => drop_trailing_commas ts'
      | _, _ => t :: drop_trailing_commas ts'
      end
  end.

(** The text is a JSON object but for commas just before a closing brace or
    bracket: its tokens, once these commas are left out, parse to the
    object [o]. *)
Definition object_but_for_trailing_commas (text : string)
  (o : list (string * json)) : Prop :=
  exists ts,
    lex text = Some ts /\ parse (drop_trailing_commas ts) = Some (JObj o).

(** Two tokens of the same kind: equal, or two strings. *)
Inductive tok_sim : token -> token -> Prop :=
| tok_sim_string s s' : tok_sim (TString s) (TString s')
| tok_sim_refl t : tok_sim t t.

(** Two states of the lexer that differ at most in the text of the string
    being read. *)
Inductive st_sim : lstate -> lstate -> Prop :=
| st_sim_str a a' : st_sim (LStr a) (LStr a')
| st_sim_esc a a' : st_sim (LEsc a) (LEsc a')
| st_sim_uni a a' ds : st_sim (LUni a ds) (LUni a' ds)
| st_sim_refl st : st_sim st st.

(** Two results of a step of the lexer of the same shape. *)
Definition step_sim (r r' : option (lstate * list token)) : Prop :=
  match r, r' with
  | Some (st, toks), Some (st', toks') => st_sim st st' /\ Forall2 tok_sim toks toks'
  | None, None => True
  | _, _ => False
  end.

Definition is_obj (v : json) : bool :=
  match v with
  | JObj _ => true
  | _ => false
  end.

Inductive frame_sim : frame -> frame -> Prop :=
| frame_sim_arr a a' : frame_sim (FArr a) (FArr a')
| frame_sim_obj a a' : frame_sim (FObj a) (FObj a')
| frame_sim_key a a' k k' : frame_sim (FKey a k) (FKey a' k').

Inductive mode_sim : mode -> mode -> Prop :=
| mode_sim_done v v' : is_obj v = is_obj v' -> mode_sim (MDone v) (MDone v')
| mode_sim_refl m : mode_sim m m.

(** Two states of the parser with the same open containers. *)
Definition ps_sim (p p' : pstate) : Prop :=
  mode_sim (fst p) (fst p') /\ Forall2 frame_sim (snd p) (snd p').

Definition ops_sim (r r' : option pstate) : Prop :=
  match r, r' with
  | Some p, Some p' => ps_sim p p'
  | None, None => True
  | _, _ => False
  end.

(** A state of the lexer inside a token. *)
Definition in_token (st : lstate) : Prop :=
  match st with
  | LOut => False
  | _ => True
  end.

(** The rest of a literal that the lexer expects holds no comma. *)
Fixpoint comma_free (s : string) : bool :=
  match s with
  | EmptyString => true
  | String c s' => negb (Ascii.eqb c ",") && comma_free s'
  end.

Definition lit_ok (st : lstate) : Prop :=
  match st with
  | LLit rest _ => comma_free rest = true
  | _ => True
  end.

Definition is_closer (t : token) : bool :=
  match t with
  | TRBrace | TRBrack => true
  | _ => false
  end.

Definition head_closer (ts : list token) : bool :=
  match ts with
  | t :: _ => is_closer t
  | [] => false
  end.

(** No comma inside a string literal of the text is followed by white space
    and a closing brace or bracket: the text is read from the state [st] of
    the lexer, and the commas looked at are those read inside a string. *)
Fixpoint clean_go (st : lstate) (s : string) : bool :=
  match s with
  | EmptyString => true
  | String c s' =>
      match st with
      | LStr _ => negb (Ascii.eqb c "," && PyRe.closer_after_space s')
      | _ => true
      end
      && match lex_step st c with
         | Some (st1, _) => clean_go st1 s'
         | None => true
         end
  end.

Definition strings_clean (s : string) : bool := clean_go LOut s.

End TrailingCommas.

(** A closing brace or bracket, as a character. *)
Definition closer_char (c : ascii) : bool := Ascii.eqb c "}" || Ascii.eqb c "]".

(** What [lex_out] does with a character, by the class of the character. *)
Inductive out_class (c : ascii) : option (JsonLoads.lstate * list JsonLoads.token) -> Prop :=
| out_reject :
    out_class c None
| out_space :
    JsonLoads.json_space c = true -> PyStr.isspace c = true ->
    closer_char c = false -> Ascii.eqb c "," = false ->
    out_class c (Some (JsonLoads.LOut, []))
| out_start st :
    TrailingCommas.in_token st ->
    PyStr.isspace c = false -> closer_char c = false ->
    Ascii.eqb c "," = false ->
    out_class c (Some (st, []))
| out_token t :
    PyStr.isspace c = false ->
    TrailingCommas.is_closer t = closer_char c ->
    (Ascii.eqb c "," = true -> t = JsonLoads.TComma) ->
    (Ascii.eqb c "," = false -> t <> JsonLoads.TComma) ->
    out_class c (Some (JsonLoads.LOut, [t])).

Module SampleMain.

(** A tokenizer that counts the characters. *)
Definition encode_len (s : string) : Z := Z.of_nat (String.length s).

Definition first : Experiment.episode_run :=
  Experiment.mkEpisodeRun
    [([("user", "task")], LLMClient.ApiReturns (Some (120, 30)%Z) ["Action: look"]);
     ([("user", "task")], LLMClient.ApiRaises)]
    (Ok (true, 1%Q, 2%Z)) [] "put a mug on the desk".

Definition second : Experiment.episode_run :=
  Experiment.mkEpisodeRun
    [([("user", "task")], LLMClient.ApiReturns None ["ok"])]
    (Ok (false, 0%Q, 1%Z)) [] "heat an egg".

Definition runs : list Experiment.episode_run := [first; second].

End SampleMain.

Module SampleJson.

(** An object with trailing commas, and one whose string holds a comma
    before a closing brace. *)
Definition with_trailing_commas : string :=
  "{" ++ PyStr.quoted "inventory" ++ ": [" ++ PyStr.quoted "mug" ++ ", ],"
  ++ String PyStr.nl "}".

(** The same object in a fenced block, after a line of prose. *)
Definition fenced : string :=
  "Here is the updated state:" ++ String PyStr.nl
    ("```json" ++ String PyStr.nl
       (with_trailing_commas ++ String PyStr.nl "```")).

Definition with_comma_in_string : string :=
  "{" ++ PyStr.quoted "note" ++ ": " ++ PyStr.quoted "a,}" ++ "}".

(** A JSON object whose strings hold commas, none before a closer. *)
Definition with_plain_strings : string :=
  "{" ++ PyStr.quoted "note" ++ ": " ++ PyStr.quoted "a, b" ++ ", "
  ++ PyStr.quoted "inventory" ++ ": [" ++ PyStr.quoted "mug" ++ ", 2] }".

(** The same object with a comma after its member. *)
Definition with_both_commas : string :=
  "{" ++ PyStr.quoted "note" ++ ": " ++ PyStr.quoted "a,}" ++ ",}".

(** Two members whose keys differ by a comma before a closing brace. *)
Definition with_comma_in_key : string :=
  "{" ++ PyStr.quoted "a,}" ++ ": 1, " ++ PyStr.quoted "a}" ++ ": 2}".

End SampleJson.

(** ** Sequences of calls to the logger *)

Module LoggerOps.

(** A call of one of the methods of [Logger]. *)
Inductive op : Type :=
| OpStart (task : string) (episode_id : option Z)
| OpStep (step_num : Z) (observation thought action : string)
    (state : option Json.json)
| OpEnd (success : bool) (reward : Q) (token_usage : list (string * Z))
| OpSave.

Definition apply (lg : Logger.logger) (o : op) : Logger.logger :=
  match o with
  | OpStart task episode_id => Logger.start_episode lg task episode_id
  | OpStep n observation thought action state =>
      Logger.log_step lg n observation thought action state
  | OpEnd success reward token_usage =>
      Logger.end_episode lg success reward token_usage
  | OpSave => fst (Logger.save_summary lg)
  end.

Definition run (lg : Logger.logger) (ops : list op) : Logger.logger :=
  fold_left apply ops lg.

(** The step record that [log_step] stores for a call. *)
Definition stored (sd : Logger.step_data) : Logger.step_data :=
  Logger.mkStep (Logger.step sd) (Logger.observation sd) (Logger.thought sd)
    (Logger.action sd)
    match Logger.step_state sd with
    | Some st => if Json.truthy st then Some st else None
    | None => None
    end.

End LoggerOps.

(** The rewards of the steps of an episode added up from [total] in the
    order of the steps, each addition being one of floats. *)
Definition reward_sum (total : Q) (results : list (Q * bool)) : Q :=
  fold_left PyFloat.add (map fst results) total.

(** ** An episode of the state-compression agent *)

Module ZipActEpisode.

Import Json.

Section WithLoads.

Variable json_loads : string -> option json.

(** The calls of [agent.step] of one episode, each with the observation and
    the replies of the updater call and of the actor call: the agent at the
    end and the actions returned. *)
Fixpoint steps (ag : ZipActAgent.agent) (io : list (string * string * string))
  : result (ZipActAgent.agent * list string) :=
  match io with
  | [] => Ok (ag, [])
  | (observation, upd, act) :: io' =>
      match ZipActAgent.step json_loads ag observation upd act with
      | Ok (ag1, action) =>
          match steps ag1 io' with
          | Ok (ag2, actions) => Ok (ag2, action :: actions)
          | Raise e => Raise e
          end
      | Raise e => Raise e
      end
  end.

(** A reply of the updater after which the state still holds a list: it
    does not parse, or it parses to a false value, or to a state that holds
    an attempted-actions list. *)
Definition keeps_list (response : string) : Prop :=
  match ZipActAgent.payload response with
  | Some json_str =>
      match json_loads (PyRe.sub_trailing_commas json_str) with
      | Some v => truthy v = false \/ exists l, holds_attempted v l
      | None => True
      end
  | None => True
  end.

End WithLoads.

(** The list after the tracking of each of the actions [prev] in turn. *)
Definition tracked_all (prev : list (option string)) (l : list json)
  : list json :=
  fold_left (fun l a => tracked_list a l) prev l.

(** Three steps: the first makes no updater call, the second gets a fenced
    reply that rewrites the list, the third a reply that is no JSON. *)
Definition sample_io : list (string * string * string) :=
  let a1 := "Action: look" in
  let a2 := "Thought: the desk" ++ String PyStr.nl "Action: go to desk 1" in
  [("You are in a room.", "", a1);
   ("You see a desk 1.", Sample.reply_rewriting_attempts, a2);
   ("You are at desk 1.", Sample.reply_not_json, a1)].

Definition sample_agent : ZipActAgent.agent :=
  ZipActAgent.mkAgent ZipActAgent._get_empty_state None "" 0 50.

End ZipActEpisode.

(** ** Texts without the character of the fences *)

Definition backtick : ascii := "`"%char.

Fixpoint no_backtick (s : string) : bool :=
  match s with
  | EmptyString => true
  | String c s' => negb (Ascii.eqb c backtick) && no_backtick s'
  end.

(** ** Texts of one line *)

(** The text holds a line feed. *)
Fixpoint has_nl (s : string) : bool :=
  match s with
  | EmptyString => false
  | String c s' => Ascii.eqb c PyStr.nl || has_nl s'
  end.

(** The text does not begin with white space. *)
Definition head_kept (s : string) : Prop :=
  match s with
  | EmptyString => True
  | String c _ => PyStr.isspace c = false
  end.

(** A thought and an action without surrounding white space, the action of
    one line. *)
Definition trimmed_pair (p : string * string) : Prop :=
  PyStr.strip (fst p) = fst p /\ PyStr.strip (snd p) = snd p
  /\ has_nl (snd p) = false.

(** ** The summarising agent ([src/agents/summary.py]) *)

Module SummaryAgent.

(** What a step can raise: [StopIteration] at the step limit, and the
    [ZeroDivisionError] of the modulo of its test. *)
Inductive raised : Type :=
| Exn (e : exn)
| ZeroDivisionError.

Inductive outcome (A : Type) : Type :=
| Returns (a : A)
| Raises (e : raised).
Arguments Returns {A} a.
Arguments Raises {A} e.

Record agent : Type := mkAgent {
  environment : string;
  summary_interval : Z;
  history : list string;
  summary : string;
  instruction : string;
  last_thought : string;
  current_step : Z;
  max_steps : Z
}.

(** [str(n)] for an integer *)
Definition str (n : Z) : string := NilZero.string_of_int (Z.to_int n).

(** [l[-(n):]]: the last [n] items for a positive [n], the whole list for
    zero, the list without its first [-n] items for a negative [n]. *)
Definition slice_last (n : Z) (l : list string) : list string :=
  let i := (- n)%Z in
  if (i <? 0)%Z
  then skipn (Z.to_nat (Z.max 0 (Z.of_nat (List.length l) + i))) l
  else skipn (Z.to_nat i) l.

(** [SummaryAgent._parse_thought_action] *)
Definition _parse_thought_action (environment text : string) : string * string :=
  let '(thought, action) := scan_lines text in
  if negb (PyStr.truthy thought) && negb (PyStr.truthy action) then
    fallback text action
      (if String.eqb environment "webshop" then PyRe.search_webshop text
       else if String.eqb environment "sciworld" then PyRe.search_sciworld text
       else PyRe.search_alfworld text)
  else (thought, action).

(** [SummaryAgent.reset] *)
Definition reset (ag : agent) (instruction : string) : agent :=
  mkAgent (environment ag) (summary_interval ag) [] "" instruction "" 0
    (max_steps ag).

(** [BaseAgent.is_step_limit_reached] *)
Definition is_step_limit_reached (ag : agent) : bool :=
  (max_steps ag <=? current_step ag)%Z.

(** [SummaryAgent._summarize_history]; [response] is the reply of its
    call. *)
Definition _summarize_history (ag : agent) (response : string) : agent :=
  mkAgent (environment ag) (summary_interval ag)
    (slice_last (summary_interval ag * 2) (history ag))
    (PyStr.strip response) (instruction ag) (last_thought ag)
    (current_step ag) (max_steps ag).

(** The test [len(self.history) >= self.summary_interval * 2 and
    len(self.history) % (self.summary_interval * 2) == 0]. *)
Definition should_summarize (ag : agent) : outcome bool :=
  let n := Z.of_nat (List.length (history ag)) in
  let two := (summary_interval ag * 2)%Z in
  if (two <=? n)%Z then
    if (two =? 0)%Z then Raises ZeroDivisionError
    else Returns (n mod two =? 0)%Z
  else Returns false.

(** The [context] that goes into the prompt of a step. *)
Definition context (ag : agent) : string :=
  if PyStr.truthy (summary ag) then
    "Summary of earlier steps:" ++ String PyStr.nl (summary ag)
    ++ String PyStr.nl (String PyStr.nl "Recent history:")
    ++ String PyStr.nl
         (PyStr.join (String PyStr.nl "")
            (slice_last (summary_interval ag * 2) (history ag)))
  else PyStr.join (String PyStr.nl "") (history ag).

(** [SummaryAgent.step]; [summary_reply] is the reply of the call of
    [_summarize_history], made only when the test holds, and [response] the
    reply of the call of the step. *)
Definition step (ag : agent) (observation summary_reply response : string)
  : outcome (agent * string) :=
  if is_step_limit_reached ag then Raises (Exn StopIteration)
  else
    let n := (current_step ag + 1)%Z in
    let obs_line := "Observation " ++ str n ++ ": " ++ observation in
    let ag1 := mkAgent (environment ag) (summary_interval ag)
                 (history ag ++ [obs_line])%list (summary ag) (instruction ag)
                 (last_thought ag) n (max_steps ag) in
    match should_summarize ag1 with
    | Raises e => Raises e
    | Returns b =>
        let ag2 := if b then _summarize_history ag1 summary_reply else ag1 in
        let '(thought, action) :=
          _parse_thought_action (environment ag2) response in
        let thought_line := "Thought " ++ str n ++ ": " ++ thought in
        let action_line := "Action " ++ str n ++ ": " ++ action in
        Returns
          (mkAgent (environment ag2) (summary_interval ag2)
             (history ag2 ++ [thought_line; action_line])%list (summary ag2)
             (instruction ag2) thought (current_step ag2) (max_steps ag2),
           action)
    end.

(** The steps of one episode, each with its observation and its two
    replies. *)
Fixpoint steps (ag : agent) (io : list (string * string * string))
  : outcome agent :=
  match io with
  | [] => Returns ag
  | (observation, summary_reply, response) :: io' =>
      match step ag observation summary_reply response with
      | Returns (ag1, _) => steps ag1 io'
      | Raises e => Raises e
      end
  end.

(** [SummaryAgent(llm, summary_interval=10)], as [run_experiment.py] makes
    it, and twenty steps whose summaries fail. *)
Definition sample_agent : agent :=
  mkAgent "alfworld" 10 [] "" "" "" 0 50.

Definition sample_io : list (string * string * string) :=
  repeat ("Nothing happens.", "", "Action: look") 20.

End SummaryAgent.

(** The lengths that the history of the summarising agent takes after a
    step, [two] being twice the interval: multiples of three below the first
    summary, then [two + 2] and steps of three up to the next one. *)
Definition history_invariant (two h : Z) : Prop :=
  ((h mod 3 = 0 /\ 0 <= h
    /\ ((two mod 3 = 1 /\ h < two) \/ (two mod 3 = 2 /\ h < 2 * two)))
   \/ (exists j, h = two + 2 + 3 * j /\ 0 <= j <= two - 1))%Z.

(** ** The simplified household environment ([src/envs/alfworld_simple.py]) *)

Module ALFWorldSimpleEnv.

Import PyStr.

(** [str.lower] on the code points below 256. *)
Definition lower_char (c : ascii) : ascii :=
  let n := nat_of_ascii c in
  if (((65 <=? n) && (n <=? 90)) || ((192 <=? n) && (n <=? 214))
      || ((216 <=? n) && (n <=? 222)))%nat
  then ascii_of_nat (n + 32) else c.

Fixpoint lower (s : string) : string :=
  match s with
  | EmptyString => EmptyString
  | String c s' => String (lower_char c) (lower s')
  end.

(** [s[n:]] *)
Fixpoint drop (n : nat) (s : string) : string :=
  match n, s with
  | O, _ => s
  | S n', String _ s' => drop n' s'
  | S _, EmptyString => EmptyString
  end.

(** *** The patterns of [_execute_action]

    Each is used with [re.match], at the start of the action; a dot does not
    match a line feed, so a match stays on the first line. *)

(** [lit(.+)]: the group. *)
Definition rest_of_line (lit s : string) : option string :=
  if prefix lit s then
    let g := PyRe.until_nl (drop (String.length lit) s) in
    if truthy g then Some g else None
  else None.

(** [(.+)] followed by what [tail] accepts: the first group is greedy, so
    the split is the last one that [tail] accepts. *)
Fixpoint rsplit (tail : string -> option string) (s : string)
  : option (string * string) :=
  match s with
  | EmptyString => None
  | String c s' =>
      match rsplit tail s' with
      | Some (a, b) => Some (String c a, b)
      | None =>
          match tail s' with
          | Some b => Some (String c EmptyString, b)
          | None => None
          end
      end
  end.

(** [sep(.+)] at the start of the rest of a line. *)
Definition after (sep s : string) : option string :=
  if prefix sep s then
    let b := drop (String.length sep) s in
    if truthy b then Some b else None
  else None.

(** [lit(.+)sep(.+)]: the two groups. *)
Definition two_groups (lit sep s : string) : option (string * string) :=
  if prefix lit s
  then rsplit (after sep) (PyRe.until_nl (drop (String.length lit) s))
  else None.

(** [ (?:in|on|in/on) (.+)] *)
Definition put_tail (s : string) : option string :=
  match after " in " s with
  | Some b => Some b
  | None =>
      match after " on " s with
      | Some b => Some b
      | None => after " in/on " s
      end
  end.

(** [put (.+) (?:in|on|in/on) (.+)] *)
Definition put_groups (s : string) : option (string * string) :=
  if prefix "put " s
  then rsplit put_tail (PyRe.until_nl (drop 4 s))
  else None.

(** [(?:examine|look at) (.+)] *)
Definition examine_group (s : string) : option string :=
  match rest_of_line "examine " s with
  | Some g => Some g
  | None => rest_of_line "look at " s
  end.

(** *** The task data *)

Definition task : string := "heat some mug and put it in cabinet.".

Definition initial_obs : string :=
  "You are in the middle of a room. Looking quickly around you, you see a cabinet 6, a cabinet 5, a cabinet 4, a cabinet 3, a cabinet 2, a cabinet 1, a coffeemachine 1, a countertop 3, a countertop 2, a countertop 1, a drawer 3, a drawer 2, a drawer 1, a fridge 1, a garbagecan 1, a microwave 1, a shelf 3, a shelf 2, a shelf 1, a sinkbasin 1, a stoveburner 4, a stoveburner 3, a stoveburner 2, a stoveburner 1, and a toaster 1.".

Definition task_locations : list (string * list string) :=
  [("countertop 1", ["creditcard 1"; "potato 2"]);
   ("countertop 2", ["butterknife 1"; "knife 1"; "peppershaker 2"; "spoon 1";
                     "tomato 1"; "vase 3"; "vase 2"]);
   ("countertop 3", ["butterknife 3"; "butterknife 2"; "cellphone 2";
                     "creditcard 2"; "dishsponge 3"; "glassbottle 3";
                     "houseplant 1"; "knife 3"; "knife 2"; "pan 2";
                     "saltshaker 2"; "soapbottle 3"; "spoon 3"; "statue 1";
                     "tomato 2"]);
   ("cabinet 1", ["mug 3"]);
   ("cabinet 2", []);
   ("cabinet 3", ["plate 1"]);
   ("cabinet 4", ["bowl 1"]);
   ("cabinet 5", []);
   ("cabinet 6", ["soapbottle 1"]);
   ("drawer 1", ["fork 1"]);
   ("drawer 2", ["spoon 2"]);
   ("drawer 3", []);
   ("fridge 1", ["apple 1"; "lettuce 1"; "mug 1"; "tomato 3"]);
   ("microwave 1", []);
   ("coffeemachine 1", ["mug 2"]);
   ("shelf 1", ["peppershaker 1"]);
   ("shelf 2", ["vase 1"]);
   ("shelf 3", ["statue 2"]);
   ("sinkbasin 1", []);
   ("garbagecan 1", []);
   ("stoveburner 1", []);
   ("stoveburner 2", []);
   ("stoveburner 3", []);
   ("stoveburner 4", ["pot 1"]);
   ("toaster 1", [])].

Definition needs_open : list string :=
  ["fridge 1"; "microwave 1"; "cabinet 1"; "cabinet 2"; "cabinet 3";
   "cabinet 4"; "cabinet 5"; "cabinet 6"].

(** *** The state *)

Record env : Type := mkEnv {
  task_id : Z;
  max_steps : Z;
  current_location : option string;
  inventory : list string;
  heated_objects : list string;
  cooled_objects : list string;
  cleaned_objects : list string;
  open_receptacles : list string;
  step_count : Z;
  done : bool;
  success : bool;
  locations : list (string * list string)
}.

(** The [info] dictionary of [reset] and of [step]. *)
Inductive info : Type :=
| ResetInfo (task : string) (admissible_commands : list string)
| StepInfo (success : bool) (admissible_commands : option (list string)).

(** [x in l] for a list or a set of strings *)
Definition mem (x : string) (l : list string) : bool :=
  existsb (String.eqb x) l.

(** [s.add(x)] and [s.discard(x)] on a set kept as a list *)
Definition set_add (x : string) (l : list string) : list string :=
  if mem x l then l else (l ++ [x])%list.

Definition set_discard (x : string) (l : list string) : list string :=
  filter (fun y => negb (String.eqb x y)) l.

(** [l.remove(x)]: the first occurrence goes. *)
Fixpoint remove_first (x : string) (l : list string) : list string :=
  match l with
  | [] => []
  | y :: l' => if String.eqb x y then l' else y :: remove_first x l'
  end.

(** [d[k]] and [d[k] = v] on the dictionary of the locations *)
Fixpoint lookup (k : string) (d : list (string * list string))
  : option (list string) :=
  match d with
  | [] => None
  | (k', v) :: d' => if String.eqb k k' then Some v else lookup k d'
  end.

Fixpoint update (k : string) (v : list string) (d : list (string * list string))
  : list (string * list string) :=
  match d with
  | [] => []
  | (k', v') :: d' =>
      if String.eqb k k' then (k', v) :: d' else (k', v') :: update k v d'
  end.

Definition closed (e : env) (recep : string) : bool :=
  mem recep needs_open && negb (mem recep (open_receptacles e)).

Definition nothing : string := "Nothing happened.".

(** [", ".join([f"a {item}" for item in items])] *)
Definition items_str (items : list string) : string :=
  join ", " (map (fun item => "a " ++ item) items).

Definition with_location (e : env) (l : option string) : env :=
  mkEnv (task_id e) (max_steps e) l (inventory e) (heated_objects e)
    (cooled_objects e) (cleaned_objects e) (open_receptacles e)
    (step_count e) (done e) (success e) (locations e).

(** [_go_to] *)
Definition _go_to (e : env) (location : string) : env * string :=
  match lookup location (locations e) with
  | None => (e, nothing)
  | Some items =>
      let e1 := with_location e (Some location) in
      if closed e location then (e1, "The " ++ location ++ " is closed.")
      else
        match items with
        | [] => (e1, "On the " ++ location ++ ", you see nothing.")
        | _ =>
            (e1, "On the " ++ location ++ ", you see " ++ items_str items ++ ".")
        end
  end.

(** [_take] *)
Definition _take (e : env) (obj recep : string) : env * string :=
  match inventory e with
  | _ :: _ => (e, nothing)
  | [] =>
      match lookup recep (locations e) with
      | None => (e, nothing)
      | Some items =>
          if closed e recep then (e, nothing)
          else if mem obj items then
            (mkEnv (task_id e) (max_steps e) (current_location e)
               (inventory e ++ [obj])%list (heated_objects e)
               (cooled_objects e) (cleaned_objects e) (open_receptacles e)
               (step_count e) (done e) (success e)
               (update recep (remove_first obj items) (locations e)),
             "You pick up the " ++ obj ++ " from the " ++ recep ++ ".")
          else (e, nothing)
      end
  end.

(** [_put] *)
Definition _put (e : env) (obj recep : string) : env * string :=
  if negb (mem obj (inventory e)) then (e, nothing)
  else
    match lookup recep (locations e) with
    | None => (e, nothing)
    | Some items =>
        if closed e recep then (e, nothing)
        else
          let won :=
            (contains "heat" task && contains "mug" task
             && contains "cabinet" task)
            && (contains "mug" obj && mem obj (heated_objects e)
                && contains "cabinet" recep) in
          (mkEnv (task_id e) (max_steps e) (current_location e)
             (remove_first obj (inventory e)) (heated_objects e)
             (cooled_objects e) (cleaned_objects e) (open_receptacles e)
             (step_count e)
             (if won then true else done e)
             (if won then true else success e)
             (update recep (items ++ [obj])%list (locations e)),
           "You put the " ++ obj ++ " in/on the " ++ recep ++ ".")
    end.

(** [_open] *)
Definition _open (e : env) (recep : string) : env * string :=
  match lookup recep (locations e) with
  | None => (e, nothing)
  | Some items =>
      if negb (mem recep needs_open) then (e, nothing)
      else if mem recep (open_receptacles e)
      then (e, "The " ++ recep ++ " is already open.")
      else
        let e1 :=
          mkEnv (task_id e) (max_steps e) (Some recep) (inventory e)
            (heated_objects e) (cooled_objects e) (cleaned_objects e)
            (set_add recep (open_receptacles e)) (step_count e) (done e)
            (success e) (locations e) in
        match items with
        | [] =>
            (e1, "You open the " ++ recep ++ ". The " ++ recep
                 ++ " is open. In it, you see nothing.")
        | _ =>
            (e1, "You open the " ++ recep ++ ". The " ++ recep
                 ++ " is open. In it, you see " ++ items_str items ++ ".")
        end
  end.

(** [_close] *)
Definition _close (e : env) (recep : string) : env * string :=
  if negb (mem recep needs_open) then (e, nothing)
  else if negb (mem recep (open_receptacles e))
  then (e, "The " ++ recep ++ " is already closed.")
  else
    (mkEnv (task_id e) (max_steps e) (current_location e) (inventory e)
       (heated_objects e) (cooled_objects e) (cleaned_objects e)
       (set_discard recep (open_receptacles e)) (step_count e) (done e)
       (success e) (locations e),
     "You close the " ++ recep ++ ".").

(** [_heat], [_cool] and [_clean] *)
Definition _heat (e : env) (obj recep : string) : env * string :=
  if negb (mem obj (inventory e)) then (e, nothing)
  else if negb (contains "microwave" recep) then (e, nothing)
  else
    (mkEnv (task_id e) (max_steps e) (current_location e) (inventory e)
       (set_add obj (heated_objects e)) (cooled_objects e)
       (cleaned_objects e) (open_receptacles e) (step_count e) (done e)
       (success e) (locations e),
     "You heat the " ++ obj ++ " using the " ++ recep ++ ".").

Definition _cool (e : env) (obj recep : string) : env * string :=
  if negb (mem obj (inventory e)) then (e, nothing)
  else if negb (contains "fridge" recep) then (e, nothing)
  else
    (mkEnv (task_id e) (max_steps e) (current_location e) (inventory e)
       (heated_objects e) (set_add obj (cooled_objects e))
       (cleaned_objects e) (open_receptacles e) (step_count e) (done e)
       (success e) (locations e),
     "You cool the " ++ obj ++ " using the " ++ recep ++ ".").

Definition _clean (e : env) (obj recep : string) : env * string :=
  if negb (mem obj (inventory e)) then (e, nothing)
  else if negb (contains "sinkbasin" recep) then (e, nothing)
  else
    (mkEnv (task_id e) (max_steps e) (current_location e) (inventory e)
       (heated_objects e) (cooled_objects e)
       (set_add obj (cleaned_objects e)) (open_receptacles e) (step_count e)
       (done e) (success e) (locations e),
     "You clean the " ++ obj ++ " using the " ++ recep ++ ".").

(** [_examine] *)
Definition _examine (e : env) (target : string) : env * string :=
  if mem target (inventory e) then
    let status :=
      ((if mem target (heated_objects e) then ["heated"] else [])
       ++ (if mem target (cooled_objects e) then ["cooled"] else [])
       ++ (if mem target (cleaned_objects e) then ["cleaned"] else []))%list in
    match status with
    | [] => (e, "This is a " ++ target ++ ".")
    | _ => (e, "The " ++ target ++ " is " ++ join ", " status ++ ".")
    end
  else (e, nothing).

(** [_execute_action] *)
Definition _execute_action (e : env) (action : string) : env * string :=
  match rest_of_line "go to " action with
  | Some location => _go_to e (strip location)
  | None =>
  match two_groups "take " " from " action with
  | Some (obj, recep) => _take e (strip obj) (strip recep)
  | None =>
  match put_groups action with
  | Some (obj, recep) => _put e (strip obj) (strip recep)
  | None =>
  match rest_of_line "open " action with
  | Some recep => _open e (strip recep)
  | None =>
  match rest_of_line "close " action with
  | Some recep => _close e (strip recep)
  | None =>
  match two_groups "heat " " with " action with
  | Some (obj, recep) => _heat e (strip obj) (strip recep)
  | None =>
  match two_groups "cool " " with " action with
  | Some (obj, recep) => _cool e (strip obj) (strip recep)
  | None =>
  match two_groups "clean " " with " action with
  | Some (obj, recep) => _clean e (strip obj) (strip recep)
  | None =>
  match examine_group action with
  | Some target => _examine e (strip target)
  | None => (e, nothing)
  end end end end end end end end end.

(** [_get_admissible_commands] *)
Definition _get_admissible_commands (e : env) : list string :=
  let keys := map fst (locations e) in
  let go loc := "go to " ++ loc in
  let toggle recep :=
    if mem recep (open_receptacles e) then "close " ++ recep
    else "open " ++ recep in
  let take loc obj := "take " ++ obj ++ " from " ++ loc in
  let put obj loc := "put " ++ obj ++ " in/on " ++ loc in
  let heat obj := "heat " ++ obj ++ " with microwave 1" in
  let cool obj := "cool " ++ obj ++ " with fridge 1" in
  let clean obj := "clean " ++ obj ++ " with sinkbasin 1" in
  let takes :=
    match current_location e, inventory e with
    | Some loc, [] =>
        if truthy loc then
          map (take loc)
            (match lookup loc (locations e) with
             | Some items => items
             | None => []
             end)
        else []
    | _, _ => []
    end in
  let uses :=
    match inventory e with
    | obj :: _ => (map (put obj) keys ++ [heat obj; cool obj; clean obj])%list
    | [] => []
    end in
  (map go keys ++ map toggle needs_open ++ takes ++ uses)%list.

(** [reset] *)
Definition reset (e : env) : env * string * info :=
  let e1 := mkEnv (task_id e) (max_steps e) None [] [] [] [] [] 0 false false
              task_locations in
  (e1, initial_obs ++ String nl ("Your task is to: " ++ task),
   ResetInfo task (_get_admissible_commands e1)).

(** [ALFWorldSimpleEnv(task_id, max_steps)] *)
Definition init (task_id max_steps : Z) : env :=
  fst (fst (reset (mkEnv task_id max_steps None [] [] [] [] [] 0 false false []))).

(** [step]: the environment after the call, and the observation, the
    reward, the flag [done] and the [info] returned. *)
Definition step (e : env) (action : string) : env * string * Q * bool * info :=
  let e1 := mkEnv (task_id e) (max_steps e) (current_location e)
              (inventory e) (heated_objects e) (cooled_objects e)
              (cleaned_objects e) (open_receptacles e) (step_count e + 1)
              (done e) (success e) (locations e) in
  let action := lower (strip action) in
  if (max_steps e1 <=? step_count e1)%Z then
    (mkEnv (task_id e1) (max_steps e1) (current_location e1) (inventory e1)
       (heated_objects e1) (cooled_objects e1) (cleaned_objects e1)
       (open_receptacles e1) (step_count e1) true (success e1) (locations e1),
     "Episode timed out.", 0%Q, true, StepInfo false None)
  else
    let '(e2, obs) := _execute_action e1 action in
    (e2, obs, if success e2 then 1%Q else 0%Q, done e2,
     StepInfo (success e2) (Some (_get_admissible_commands e2))).

(** The environment after a sequence of actions, and what the last step
    returned. *)
Definition after_steps (e : env) (actions : list string) : env :=
  fold_left (fun e a => fst (fst (fst (fst (step e a))))) actions e.

(** The objects of the room: those held and those of every location. *)
Definition objects (e : env) : list string :=
  (inventory e ++ List.concat (map snd (locations e)))%list.

(** A way to carry out the task in four steps. *)
Definition winning_actions : list string :=
  ["take mug 2 from coffeemachine 1"; "Heat mug 2 with microwave 1";
   "open cabinet 2"; "put mug 2 in/on cabinet 2"].

End ALFWorldSimpleEnv.

(** What an operation of the environment keeps, from [e] to [e2]: the step
    counter and its limit, one object held at most, the names of the
    locations, the objects of the room, the flag [done] equal to
    [success], and a success once reached. *)
Definition env_kept (e e2 : ALFWorldSimpleEnv.env) : Prop :=
  ALFWorldSimpleEnv.max_steps e2 = ALFWorldSimpleEnv.max_steps e
  /\ ALFWorldSimpleEnv.step_count e2 = ALFWorldSimpleEnv.step_count e
  /\ (List.length (ALFWorldSimpleEnv.inventory e) <= 1 ->
      List.length (ALFWorldSimpleEnv.inventory e2) <= 1)
  /\ map fst (ALFWorldSimpleEnv.locations e2)
     = map fst (ALFWorldSimpleEnv.locations e)
  /\ Permutation (ALFWorldSimpleEnv.objects e2) (ALFWorldSimpleEnv.objects e)
  /\ (ALFWorldSimpleEnv.done e = ALFWorldSimpleEnv.success e ->
      ALFWorldSimpleEnv.done e2 = ALFWorldSimpleEnv.success e2)
  /\ (ALFWorldSimpleEnv.done e = true -> ALFWorldSimpleEnv.done e2 = true).

(** The state reached from a new environment after [n] steps: the counter
    is [n], one object is held at most, the locations and the objects of the
    room are those of the task data, and [done] is [success] below the limit
    and true from the limit on. *)
Definition env_reached (limit : Z) (n : nat) (e : ALFWorldSimpleEnv.env) : Prop :=
  ALFWorldSimpleEnv.max_steps e = limit
  /\ ALFWorldSimpleEnv.step_count e = Z.of_nat n
  /\ List.length (ALFWorldSimpleEnv.inventory e) <= 1
  /\ map fst (ALFWorldSimpleEnv.locations e)
     = map fst ALFWorldSimpleEnv.task_locations
  /\ Permutation (ALFWorldSimpleEnv.objects e)
       (List.concat (map snd ALFWorldSimpleEnv.task_locations))
  /\ ((Z.of_nat n < limit)%Z ->
      ALFWorldSimpleEnv.done e = ALFWorldSimpleEnv.success e)
  /\ ((limit <= Z.of_nat n)%Z -> 0 < n -> ALFWorldSimpleEnv.done e = true).

(** ** The reflecting agent ([src/agents/reflexion.py]) *)

Module ReflexionAgent.

Record agent : Type := mkAgent {
  environment : string;
  history : list string;
  reflections : list string;
  instruction : string;
  last_thought : string;
  current_step : Z;
  max_steps : Z;
  episode_count : Z
}.

(** [ReflexionAgent._parse_thought_action] *)
Definition _parse_thought_action (environment text : string) : string * string :=
  let '(thought, action) := scan_lines text in
  if negb (PyStr.truthy thought) && negb (PyStr.truthy action) then
    fallback text action
      (if String.eqb environment "webshop" then PyRe.search_webshop text
       else if String.eqb environment "sciworld" then PyRe.search_sciworld text
       else PyRe.search_alfworld text)
  else (thought, action).

(** [ReflexionAgent.reset]: the reflections stay. *)
Definition reset (ag : agent) (instruction : string) : agent :=
  mkAgent (environment ag) [] (reflections ag) instruction "" 0 (max_steps ag)
    (episode_count ag + 1).

(** [BaseAgent.is_step_limit_reached] *)
Definition is_step_limit_reached (ag : agent) : bool :=
  (max_steps ag <=? current_step ag)%Z.

(** [l[-3:]] *)
Definition last_three (l : list string) : list string :=
  skipn (List.length l - 3) l.

(** [reflection_str] of a step *)
Definition reflection_str (ag : agent) : string :=
  match reflections ag with
  | [] => ""
  | _ =>
      String PyStr.nl (String PyStr.nl "Past Reflections:")
      ++ String PyStr.nl
           (PyStr.join (String PyStr.nl "")
              (map (fun r => "- " ++ r) (last_three (reflections ag))))
  end.

(** The line of an observation, of a thought and of an action. *)
Definition line (kind : string) (n : Z) (text : string) : string :=
  kind ++ " " ++ SummaryAgent.str n ++ ": " ++ text.

(** The [history] argument of the prompt of a step. *)
Definition prompt_history (ag : agent) (observation : string) : string :=
  let n := (current_step ag + 1)%Z in
  PyStr.join (String PyStr.nl "")
    (history ag ++ [line "Observation" n observation])%list
  ++ reflection_str ag.

(** [ReflexionAgent.step]; [response] is the reply of the call. *)
Definition step (ag : agent) (observation response : string)
  : result (agent * string) :=
  if is_step_limit_reached ag then Raise StopIteration
  else
    let n := (current_step ag + 1)%Z in
    let '(thought, action) := _parse_thought_action (environment ag) response in
    Ok (mkAgent (environment ag)
          (history ag
           ++ [line "Observation" n observation; line "Thought" n thought;
               line "Action" n action])%list
          (reflections ag) (instruction ag) thought n (max_steps ag)
          (episode_count ag),
        action).

(** [s[:n]] and [s[-n:]] for a positive [n] *)
Fixpoint take (n : nat) (s : string) : string :=
  match n, s with
  | S n', String c s' => String c (take n' s')
  | _, _ => EmptyString
  end.

Definition take_last (n : nat) (s : string) : string :=
  ALFWorldSimpleEnv.drop (String.length s - n) s.

(** [ReflexionAgent._summarize_history] *)
Definition _summarize_history (ag : agent) : string :=
  let history_str := PyStr.join (String PyStr.nl "") (history ag) in
  if Nat.ltb 1000 (String.length history_str) then
    take 500 history_str
    ++ String PyStr.nl ("..." ++ String PyStr.nl (take_last 500 history_str))
  else history_str.

(** [ReflexionAgent.reflect]; [response] is the reply of its call, made only
    after a failure. *)
Definition reflect (ag : agent) (success : bool) (failure_reason response : string)
  : agent :=
  if success then ag
  else
    mkAgent (environment ag) (history ag)
      (reflections ag ++ [PyStr.strip response])%list (instruction ag)
      (last_thought ag) (current_step ag) (max_steps ag) (episode_count ag).

(** [ReflexionAgent.get_reflections] *)
Definition get_reflections (ag : agent) : list string := reflections ag.

End ReflexionAgent.

(** ** An episode of the reflecting agent in [run_experiment.py] *)

Module ReflexionRun.

Section WithReplies.

Variable Env : Type.
Variable env_reset : Env -> Env * string.
Variable env_get_task : Env -> string.
Variable env_step : Env -> string -> Env * string * Q * bool.

(** The replies of the model: to the prompt of a step, which the agent and
    the observation determine, and to the prompt of a reflection, which the
    agent and the failure reason determine. *)
Variable step_reply : ReflexionAgent.agent -> string -> string.
Variable reflect_reply : ReflexionAgent.agent -> string -> string.

Definition agent_step (ag : ReflexionAgent.agent) (observation : string)
  : result (ReflexionAgent.agent * string) :=
  ReflexionAgent.step ag observation (step_reply ag observation).

Definition agent_reflect (ag : ReflexionAgent.agent) (success : bool)
  (failure_reason : string) : ReflexionAgent.agent :=
  ReflexionAgent.reflect ag success failure_reason
    (reflect_reply ag failure_reason).

(** [run_episode] with a [ReflexionAgent]: it has no [get_state]. *)
Definition run_episode (ag : ReflexionAgent.agent) (env : Env) (max_steps : Z)
  (lg : option Logger.logger) (episode_id : option Z)
  : Experiment.run Env ReflexionAgent.agent :=
  Experiment.run_episode Env ReflexionAgent.agent env_reset env_get_task
    env_step (fun ag task => Ok (ReflexionAgent.reset ag task)) agent_step
    ReflexionAgent.last_thought (fun _ => Ok None) true agent_reflect
    ag env max_steps lg episode_id.

End WithReplies.

(** A new agent, and replies that do not depend on the prompt. *)
Definition new_agent : ReflexionAgent.agent :=
  ReflexionAgent.mkAgent "alfworld" [] [] "" "" 0 50 0.

Definition sample_run (goal : nat)
  : Experiment.run SampleRun.env ReflexionAgent.agent :=
  run_episode SampleRun.env SampleRun.env_reset SampleRun.env_get_task
    SampleRun.env_step (fun _ _ => "Action: look")
    (fun _ _ => " Look for the mug first. ")
    new_agent (SampleRun.mkEnv goal 0) 3 None None.

End ReflexionRun.

(** ** The steps of the baseline agent ([src/agents/react.py]) *)

Module ReActRun.

Record agent : Type := mkAgent {
  environment : string;
  history : list string;
  instruction : string;
  last_thought : string;
  current_step : Z;
  max_steps : Z
}.

(** [ReActAgent.reset] *)
Definition reset (ag : agent) (instruction : string) : agent :=
  mkAgent (environment ag) [] instruction "" 0 (max_steps ag).

(** [BaseAgent.is_step_limit_reached] *)
Definition is_step_limit_reached (ag : agent) : bool :=
  (max_steps ag <=? current_step ag)%Z.

(** The three lines that a step adds to the history. *)
Definition step_lines (n : Z) (observation response : string) : list string :=
  let '(thought, action) := ReActAgent._parse_thought_action response in
  [ReflexionAgent.line "Observation" n observation;
   ReflexionAgent.line "Thought" n thought;
   ReflexionAgent.line "Action" n action].

(** [history_str], the history that goes into the prompt of a step. *)
Definition history_str (ag : agent) (observation : string) : string :=
  PyStr.join (String PyStr.nl "")
    (history ag
     ++ [ReflexionAgent.line "Observation" (current_step ag + 1) observation])%list.

(** [ReActAgent.step]; [response] is the reply of the call. *)
Definition step (ag : agent) (observation response : string)
  : result (agent * string) :=
  if is_step_limit_reached ag then Raise StopIteration
  else
    let step_num := (current_step ag + 1)%Z in
    let '(thought, action) := ReActAgent._parse_thought_action response in
    Ok (mkAgent (environment ag)
          ((history ag
            ++ [ReflexionAgent.line "Observation" step_num observation])
           ++ [ReflexionAgent.line "Thought" step_num thought;
               ReflexionAgent.line "Action" step_num action])%list
          (instruction ag) thought step_num (max_steps ag),
        action).

(** [ReActAgent.get_history_length] *)
Definition get_history_length (ag : agent) : Z :=
  Z.of_nat (List.length (history ag)).

(** The steps of one episode, each with its observation and its reply. *)
Fixpoint steps (ag : agent) (io : list (string * string)) : result agent :=
  match io with
  | [] => Ok ag
  | (observation, response) :: io' =>
      match step ag observation response with
      | Ok (ag1, _) => steps ag1 io'
      | Raise e => Raise e
      end
  end.

(** The lines of the steps numbered from [n + 1] on. *)
Fixpoint lines_from (n : Z) (io : list (string * string)) : list string :=
  match io with
  | [] => []
  | (observation, response) :: io' =>
      (step_lines (n + 1) observation response ++ lines_from (n + 1) io')%list
  end.

End ReActRun.

(** * Part II: properties *)

Example split_lines :
  PyStr.split (String PyStr.nl "") ("a" ++ String PyStr.nl "b" ++ String PyStr.nl "")
  = ["a"; "b"; ""].
Proof. reflexivity. Qed.

Example split_fence : PyStr.split "```json" "x```json y" = ["x"; " y"].
Proof. reflexivity. Qed.

Example replace_once :
  PyStr.replace "Thought:" "" "ThoThought:ught: x" = "Thought: x".
Proof. reflexivity. Qed.

Example strip_both : PyStr.strip "  a b  " = "a b".
Proof. reflexivity. Qed.

(** ** Thought/action extraction *)

Lemma scan_line_other (acc : string * string) (line : string) :
  PyStr.startswith "Thought:" (PyStr.strip line) = false ->
  PyStr.startswith "Action:" (PyStr.strip line) = false ->
  scan_line acc line = acc.
Proof.
  intros Ht Ha. unfold scan_line. destruct acc as [thought action].
  rewrite Ht, Ha. reflexivity.
Qed.

Lemma scan_lines_no_prefix (text : string) :
  no_prefix_line text = true -> scan_lines text = ("", "look").
Proof.
  unfold no_prefix_line, scan_lines.
  generalize ("", "look").
  induction (PyStr.split (String PyStr.nl "") (PyStr.strip text)) as [|l ls IH];
    intros acc H; simpl in *.
  - reflexivity.
  - apply andb_prop in H. destruct H as [Hl Hls].
    apply andb_prop in Hl. destruct Hl as [Ht Ha].
    apply negb_true_iff in Ht. apply negb_true_iff in Ha.
    rewrite (scan_line_other acc l Ht Ha). apply IH. exact Hls.
Qed.

(** Without a prefixed line the default action stays, so the condition of
    the fallback branch is false and the regular expression is never
    consulted: this holds for the three parsers. *)
Lemma no_prefix_gives_default (text : string) :
  no_prefix_line text = true ->
  ZipActAgent._parse_thought_action text = ("", "look")
  /\ ReActAgent._parse_thought_action text = ("", "look")
  /\ forall environment,
       ObservationMaskingAgent._parse_thought_action environment text
       = ("", "look").
Proof.
  intros H.
  unfold ZipActAgent._parse_thought_action, ReActAgent._parse_thought_action,
    ObservationMaskingAgent._parse_thought_action.
  rewrite (scan_lines_no_prefix text H). simpl. auto.
Qed.

(** C2. The text [go to desk 1] has no line that begins with [Thought:] or
    [Action:], and the verb pattern of the fallback matches it whole; yet
    each parser returns an empty thought and the action [look], instead of
    the text as thought and [go to desk 1] as action. *)
Theorem fallback_not_reached :
  no_prefix_line "go to desk 1" = true
  /\ PyRe.search_alfworld "go to desk 1" = Some "go to desk 1"
  /\ ZipActAgent._parse_thought_action "go to desk 1" = ("", "look")
  /\ ReActAgent._parse_thought_action "go to desk 1" = ("", "look")
  /\ ObservationMaskingAgent._parse_thought_action "alfworld" "go to desk 1"
     = ("", "look").
Proof. repeat split; reflexivity. Qed.

(** The fallback runs when an [Action:] line leaves the action empty. *)
Example fallback_reached :
  ZipActAgent._parse_thought_action
    ("Action:" ++ String PyStr.nl "I go to desk 2")
  = ("Action:" ++ String PyStr.nl "I go to desk 2", "go to desk 2").
Proof. reflexivity. Qed.

(** C4. When the call of the API raises, [LLMClient.chat] returns the empty
    string, whatever the client and the messages; and the empty string gives
    every parser an empty thought and the action [look]. *)
Theorem chat_failure_gives_look :
  forall (encode_len : string -> Z) (c : LLMClient.client)
         (messages : list LLMClient.message),
    let response := snd (LLMClient.chat encode_len c messages LLMClient.ApiRaises) in
    response = ""
    /\ ZipActAgent._parse_thought_action response = ("", "look")
    /\ ReActAgent._parse_thought_action response = ("", "look")
    /\ forall environment,
         ObservationMaskingAgent._parse_thought_action environment response
         = ("", "look").
Proof.
  intros encode_len c messages. simpl.
  split; [reflexivity|].
  exact (no_prefix_gives_default "" eq_refl).
Qed.

(** ** The state record of the state-compression agent *)

Section AssocFacts.

Import Json.

Lemma assoc_get_set_same k v m : assoc_get k (assoc_set k v m) = Some v.
Proof.
  induction m as [|[k' v'] m IH]; simpl.
  - rewrite String.eqb_refl. reflexivity.
  - destruct (String.eqb k k') eqn:E; simpl; rewrite E; auto.
Qed.

Lemma assoc_get_set_other k k' v m :
  String.eqb k' k = false -> assoc_get k' (assoc_set k v m) = assoc_get k' m.
Proof.
  intros Hk. induction m as [|[k0 v0] m IH]; simpl.
  - rewrite Hk. reflexivity.
  - destruct (String.eqb k k0) eqn:E; simpl.
    + apply String.eqb_eq in E. subst k0. rewrite Hk. reflexivity.
    + destruct (String.eqb k' k0); auto.
Qed.

Lemma assoc_set_twice k v v' m :
  assoc_set k v (assoc_set k v' m) = assoc_set k v m.
Proof.
  induction m as [|[k0 v0] m IH]; simpl.
  - rewrite String.eqb_refl. reflexivity.
  - destruct (String.eqb k k0) eqn:E; simpl; rewrite E; congruence.
Qed.

Lemma assoc_set_same k v m : assoc_get k m = Some v -> assoc_set k v m = m.
Proof.
  induction m as [|[k0 v0] m IH]; simpl; [discriminate|].
  destruct (String.eqb k k0) eqn:E; intros H.
  - congruence.
  - rewrite IH; auto.
Qed.

Lemma assoc_set_not_nil k v m : assoc_set k v m <> [].
Proof.
  destruct m as [|[k0 v0] m]; simpl; [discriminate|].
  destruct (String.eqb k k0); discriminate.
Qed.

End AssocFacts.

Section UpdateState.

Import Json ZipActAgent.

Variable json_loads : string -> option json.

Lemma holds_attempted_inv st l :
  holds_attempted st l ->
  exists m cs, st = JObj m
    /\ assoc_get "constraint_state" m = Some (JObj cs)
    /\ assoc_get "attempted_actions" cs = Some (JArr l).
Proof.
  unfold holds_attempted, attempted_actions_of.
  destruct st as [| | | | |?|m]; try discriminate.
  destruct (assoc_get "constraint_state" m) as [[| | | | | |cs]|] eqn:E;
    try discriminate.
  intros H. exists m, cs. auto.
Qed.

Lemma with_attempted_holds st l l' :
  holds_attempted st l -> holds_attempted (with_attempted l' st) l'.
Proof.
  intros H. destruct (holds_attempted_inv st l H) as (m & cs & -> & Hm & Hcs).
  unfold holds_attempted, with_attempted, attempted_actions_of.
  rewrite Hm. rewrite assoc_get_set_same. apply assoc_get_set_same.
Qed.

Lemma with_attempted_same st l : holds_attempted st l -> with_attempted l st = st.
Proof.
  intros H. destruct (holds_attempted_inv st l H) as (m & cs & -> & Hm & Hcs).
  unfold with_attempted. rewrite Hm.
  rewrite (assoc_set_same _ _ _ Hcs). rewrite (assoc_set_same _ _ _ Hm).
  reflexivity.
Qed.

Lemma with_attempted_twice st l l1 l2 :
  holds_attempted st l ->
  with_attempted l2 (with_attempted l1 st) = with_attempted l2 st.
Proof.
  intros H. destruct (holds_attempted_inv st l H) as (m & cs & -> & Hm & Hcs).
  unfold with_attempted. rewrite Hm. rewrite assoc_get_set_same.
  rewrite !assoc_set_twice. reflexivity.
Qed.

(** The tracking block on a state that holds a list. *)
Lemma track_holds st l la :
  holds_attempted st l ->
  track st la = Ok (with_attempted (tracked_list la l) st).
Proof.
  intros H. pose proof (with_attempted_same st l H) as Hsame.
  destruct (holds_attempted_inv st l H) as (m & cs & -> & Hm & Hcs).
  unfold track, tracked_list.
  destruct la as [a|]; [|rewrite Hsame; reflexivity].
  destruct (PyStr.truthy a) eqn:Ha; [|cbn [andb]; rewrite Hsame; reflexivity].
  cbn [contains bind]. rewrite Hm. cbn [negb getitem bind setitem contains].
  rewrite Hm. cbn [bind contains]. rewrite Hcs. cbn [negb bind getitem].
  rewrite Hcs. cbn [bind contains andb].
  unfold with_attempted. rewrite Hm.
  destruct (existsb (is_str a) l); reflexivity.
Qed.

(** The second half of [_update_state], once the tracking has given [st]. *)
Lemma update_state_cases ag l observation response :
  holds_attempted (state ag) l ->
  let tracked := tracked_list (last_action ag) l in
  let st := with_attempted tracked (state ag) in
  let new_state := _parse_json json_loads response (Some st) in
  (truthy new_state = false ->
   _update_state json_loads ag observation response = Ok (set_state ag st))
  /\ (forall l', holds_attempted new_state l' ->
      _update_state json_loads ag observation response
      = Ok (set_state ag (with_attempted tracked new_state)))
  /\ (forall m, new_state = JObj m -> m <> [] ->
      assoc_get "constraint_state" m = None ->
      _update_state json_loads ag observation response
      = Ok (set_state ag new_state)).
Proof.
  intros H tracked st new_state.
  assert (Hst : holds_attempted st tracked)
    by (apply (with_attempted_holds _ l); exact H).
  unfold _update_state. rewrite (track_holds _ l _ H).
  cbn [bind]. fold tracked. fold st. fold new_state.
  split; [|split].
  - intros Hf. rewrite Hf. reflexivity.
  - intros l' Hn.
    destruct (holds_attempted_inv _ _ Hn) as (nm & ncs & En & Hnm & Hncs).
    destruct (holds_attempted_inv _ _ Hst) as (sm & scs & Es & Hsm & Hscs).
    rewrite En. unfold with_attempted. rewrite Hnm.
    assert (Ht : truthy (JObj nm) = true)
      by (destruct nm; [discriminate|reflexivity]).
    rewrite Ht. cbn [contains bind]. rewrite Hnm. cbn [bind].
    rewrite Es. cbn [get bind]. rewrite Hsm. cbn [get bind]. rewrite Hscs.
    cbn [getitem bind]. rewrite Hnm. reflexivity.
  - intros m En Hne Hm. rewrite En.
    assert (Ht : truthy (JObj m) = true)
      by (destruct m; [contradiction|reflexivity]).
    rewrite Ht. cbn [contains bind]. rewrite Hm. reflexivity.
Qed.

Lemma parse_json_default response d :
  fails_to_parse json_loads response ->
  _parse_json json_loads response (Some d) = d.
Proof.
  unfold fails_to_parse, _parse_json.
  destruct (payload response); [intros ->|]; reflexivity.
Qed.

End UpdateState.

Section UpdateStateClaims.

Import Json ZipActAgent.

(** The tracked list only grows at its end, and stays free of duplicates. *)
Lemma tracked_list_grows la l :
  (exists suffix, tracked_list la l = (l ++ suffix)%list)
  /\ (NoDup l -> NoDup (tracked_list la l)).
Proof.
  unfold tracked_list. destruct la as [a|].
  - destruct (PyStr.truthy a && negb (existsb (is_str a) l)) eqn:E.
    + split; [eexists; reflexivity|]. intros Hl.
      apply andb_prop in E. destruct E as [_ E]. apply negb_true_iff in E.
      apply NoDup_app; [exact Hl|repeat constructor; intros []|].
      intros x Hx [<-|[]].
      assert (Hex : existsb (is_str a) l = true).
      { apply existsb_exists. exists (JStr a). split; [exact Hx|].
        apply String.eqb_refl. }
      rewrite Hex in E. discriminate.
    + split; [exists []; rewrite app_nil_r; reflexivity|auto].
  - split; [exists []; rewrite app_nil_r; reflexivity|auto].
Qed.

(** What [_update_state] does hold to.  When the state holds a list [l],
    the list the code tracks is [l] with the last action appended if it is
    non-empty and new.  Whenever the state that the updater returns is an
    object whose [constraint_state] is an object, with or without a list of
    its own and whatever that list is, the new state is the returned one
    with the tracked list as its [attempted_actions] and nothing else
    changed; a [constraint_state] that is no object makes the assignment
    raise [TypeError]. *)
Lemma update_state_overrides_list :
  forall (json_loads : string -> option json) (ag : agent) (l : list json)
         (observation response : string) (nm : list (string * json)),
    holds_attempted (state ag) l ->
    let tracked := tracked_list (last_action ag) l in
    let st := with_attempted tracked (state ag) in
    _parse_json json_loads response (Some st) = JObj nm ->
    (forall ncs,
       assoc_get "constraint_state" nm = Some (JObj ncs) ->
       _update_state json_loads ag observation response
       = Ok (set_state ag (with_attempted tracked (JObj nm)))
       /\ holds_attempted (with_attempted tracked (JObj nm)) tracked)
    /\ (forall v,
          assoc_get "constraint_state" nm = Some v ->
          (forall ncs, v <> JObj ncs) ->
          _update_state json_loads ag observation response = Raise TypeError).
Proof.
  intros json_loads ag l observation response nm H tracked st En.
  assert (Hst : holds_attempted st tracked)
    by (apply (with_attempted_holds _ l); exact H).
  destruct (holds_attempted_inv _ _ Hst) as (sm & scs & Es & Hsm & Hscs).
  assert (Hin : forall v, assoc_get "constraint_state" nm = Some v ->
                          truthy (JObj nm) = true).
  { intros v Hv. destruct nm; [discriminate|reflexivity]. }
  split.
  - intros ncs Hnm. split.
    + unfold _update_state. rewrite (track_holds _ l _ H).
      cbn [bind]. fold tracked. fold st. rewrite En.
      rewrite (Hin _ Hnm). cbn [contains bind]. rewrite Hnm. cbn [bind].
      rewrite Es. cbn [get bind]. rewrite Hsm. cbn [get bind]. rewrite Hscs.
      cbn [getitem bind]. rewrite Hnm. cbn [setitem bind].
      unfold with_attempted. rewrite Hnm. reflexivity.
    + unfold holds_attempted, with_attempted, attempted_actions_of.
      rewrite Hnm. rewrite assoc_get_set_same. apply assoc_get_set_same.
  - intros v Hv Hno.
    unfold _update_state. rewrite (track_holds _ l _ H).
    cbn [bind]. fold tracked. fold st. rewrite En.
    rewrite (Hin _ Hv). cbn [contains bind]. rewrite Hv. cbn [bind].
    rewrite Es. cbn [get bind]. rewrite Hsm. cbn [get bind]. rewrite Hscs.
    cbn [getitem bind]. rewrite Hv. cbn [bind].
    destruct v; try reflexivity. exfalso. apply (Hno m). reflexivity.
Qed.

(** A reply that rewrites the list: the tracked list takes its place. *)
Example update_state_overrides_sample :
  holds_attempted (state Sample.after_go) [JStr "look"]
  /\ _update_state JsonLoads.loads Sample.after_go "You are at desk 1."
       Sample.reply_rewriting_attempts
     = Ok (set_state Sample.after_go
             (JObj [("world_state", JObj [("location", JStr "desk 1")]);
                    ("constraint_state",
                     JObj [("attempted_actions",
                            JArr [JStr "look"; JStr "go to desk 1"]);
                           ("visited_locations", JArr [JStr "desk 1"])])])).
Proof. split; reflexivity. Qed.

(** C1. The agent has tracked [look] and is about to track [go to desk 1];
    the updater returns a JSON object without the key [constraint_state].
    The test before the override fails, the returned object becomes the
    state, and the list that the code tracked is gone: the state has no
    attempted-actions list.  The next update starts a new list that holds
    its last action alone, so the list is not append-only over the calls. *)
Theorem attempted_actions_list_lost :
  holds_attempted (state Sample.after_go) [JStr "look"]
  /\ tracked_list (last_action Sample.after_go) [JStr "look"]
     = [JStr "look"; JStr "go to desk 1"]
  /\ JsonLoads.loads Sample.reply_without_constraints
     = Some (JObj [("goal_state",
                    JObj [("current_objective", JStr "find the desk")])])
  /\ exists ag1 ag2,
       _update_state JsonLoads.loads Sample.after_go "You are at desk 1."
         Sample.reply_without_constraints = Ok ag1
       /\ state ag1
          = JObj [("goal_state",
                   JObj [("current_objective", JStr "find the desk")])]
       /\ attempted_actions_of (state ag1) = None
       /\ _update_state JsonLoads.loads
            (mkAgent (state ag1) (Some "open drawer 1") "" 4 50)
            "The drawer is open." Sample.reply_not_json = Ok ag2
       /\ attempted_actions_of (state ag2) = Some (JArr [JStr "open drawer 1"]).
Proof.
  split; [reflexivity|]. split; [reflexivity|]. split; [reflexivity|].
  eexists. eexists. repeat split.
Qed.

(** C3 (as amended). When the reply of the updater does not parse and the
    state holds an attempted-actions list [l], the state after the call is
    the state before it with the tracked list for [l]: the last action is
    added when it is non-empty and new, and only then does the state
    differ. *)
Theorem parse_failure_keeps_tracked_state :
  forall (json_loads : string -> option json) (ag : agent) (l : list json)
         (observation response : string),
    holds_attempted (state ag) l ->
    fails_to_parse json_loads response ->
    _update_state json_loads ag observation response
    = Ok (set_state ag
            (with_attempted (tracked_list (last_action ag) l) (state ag)))
    /\ (tracked_list (last_action ag) l = l ->
        _update_state json_loads ag observation response
        = Ok (set_state ag (state ag))).
Proof.
  intros json_loads ag l observation response H Hfail.
  destruct (update_state_cases json_loads ag l observation response H)
    as (_ & Hholds & _).
  rewrite (parse_json_default json_loads response _ Hfail) in Hholds.
  assert (E : _update_state json_loads ag observation response
              = Ok (set_state ag
                      (with_attempted (tracked_list (last_action ag) l)
                         (state ag)))).
  { rewrite (Hholds (tracked_list (last_action ag) l)).
    - rewrite (with_attempted_twice _ l); [reflexivity|exact H].
    - apply (with_attempted_holds _ l). exact H. }
  split; [exact E|].
  intros Hl. rewrite E, Hl. rewrite (with_attempted_same _ l H). reflexivity.
Qed.

Lemma parse_failure_keeps_tracked_state_witness :
  _update_state JsonLoads.loads Sample.after_look "Nothing happens."
    Sample.reply_not_json
  = Ok (set_state Sample.after_look (Sample.state_with [JStr "look"])).
Proof.
  apply (parse_failure_keeps_tracked_state JsonLoads.loads Sample.after_look
           [] "Nothing happens." Sample.reply_not_json);
    reflexivity.
Defined.

(** C3 as stated fails: the reply does not parse, and the state after the
    call differs from the state before it. *)
Lemma parse_failure_changes_state :
  fails_to_parse JsonLoads.loads Sample.reply_not_json
  /\ exists ag',
       _update_state JsonLoads.loads Sample.after_look "Nothing happens."
         Sample.reply_not_json = Ok ag'
       /\ state ag' <> state Sample.after_look.
Proof.
  split; [reflexivity|].
  eexists. split; [reflexivity|]. simpl. discriminate.
Qed.

(** The initialisation falls back on the empty state when the reply does not
    parse, and writes the instruction into it. *)
Lemma reset_on_parse_failure json_loads ag instruction response :
  fails_to_parse json_loads response ->
  exists ag',
    reset json_loads ag instruction response = Ok ag'
    /\ (g <- getitem (state ag') "goal_state" ;;
        getitem g "global_instruction") = Ok (JStr instruction).
Proof.
  intros Hfail. unfold reset.
  rewrite (parse_json_default json_loads response _ Hfail).
  eexists. split; reflexivity.
Qed.

(** C9. The reply [{"world_state": {}}] is a JSON object without the key
    [goal_state]; [reset] then raises [KeyError] at the assignment of the
    instruction, for every agent and instruction. *)
Theorem reset_raises_without_goal_state :
  JsonLoads.loads Sample.reply_without_goal
  = Some (JObj [("world_state", JObj [])])
  /\ forall (ag : agent) (instruction : string),
       reset JsonLoads.loads ag instruction Sample.reply_without_goal
       = Raise KeyError.
Proof. split; reflexivity. Qed.

(** A reply that is a JSON array makes [reset] raise [AttributeError]. *)
Example reset_raises_on_array :
  forall ag instruction,
    reset JsonLoads.loads ag instruction "[1]" = Raise AttributeError.
Proof. reflexivity. Qed.

End UpdateStateClaims.

(** ** Token counters across the episodes *)

Section TokenCounters.

Import LLMClient.

Variable encode_len : string -> Z.

Lemma chat_counters c call :
  fst (chat encode_len c (fst call) (snd call))
  = mkClient (total_input_tokens c + fst (call_tokens encode_len call))
      (total_output_tokens c + snd (call_tokens encode_len call))
      (call_count c + 1).
Proof.
  destruct call as [messages r]. unfold call_tokens, chat. cbn [fst snd].
  destruct r as [|[[p q]|] [|content choices]]; cbn;
    rewrite ?Z.add_0_r; reflexivity.
Qed.

Lemma fold_add_shift (l : list Z) (a : Z) :
  fold_left Z.add l a = (a + fold_left Z.add l 0)%Z.
Proof.
  revert a. induction l as [|x l IH]; intros a; simpl.
  - lia.
  - rewrite IH. rewrite (IH x). lia.
Qed.

Lemma do_calls_counters calls c :
  Experiment.do_calls encode_len c calls
  = mkClient
      (total_input_tokens c
       + Logger.sumZ (map (fun k => fst (call_tokens encode_len k)) calls))
      (total_output_tokens c
       + Logger.sumZ (map (fun k => snd (call_tokens encode_len k)) calls))
      (call_count c + Z.of_nat (List.length calls)).
Proof.
  unfold Experiment.do_calls, Logger.sumZ.
  revert c. induction calls as [|k calls IH]; intros c.
  - destruct c; simpl. rewrite !Z.add_0_r. reflexivity.
  - cbn [fold_left map List.length]. rewrite IH. rewrite chat_counters.
    cbn [total_input_tokens total_output_tokens call_count].
    rewrite (fold_add_shift _ (0 + fst _)), (fold_add_shift _ (0 + snd _)).
    f_equal; lia.
Qed.

Lemma usage_from_zero calls :
  get_token_usage (Experiment.do_calls encode_len (mkClient 0 0 0) calls)
  = episode_usage encode_len calls.
Proof. rewrite do_calls_counters. reflexivity. Qed.

Lemma log_step_current lg n o t a st ep :
  Logger.current_episode lg = Some ep ->
  exists ep',
    Logger.current_episode (Logger.log_step lg n o t a st) = Some ep'
    /\ Logger.episodes (Logger.log_step lg n o t a st) = Logger.episodes lg.
Proof.
  intros H. unfold Logger.log_step. rewrite H. eexists. split; reflexivity.
Qed.

Lemma log_steps_current lg sds ep :
  Logger.current_episode lg = Some ep ->
  exists ep',
    Logger.current_episode (Experiment.log_steps lg sds) = Some ep'
    /\ Logger.episodes (Experiment.log_steps lg sds) = Logger.episodes lg.
Proof.
  unfold Experiment.log_steps. revert lg ep.
  induction sds as [|sd sds IH]; intros lg ep H; cbn [fold_left].
  - exists ep. auto.
  - destruct (log_step_current lg (Logger.step sd) (Logger.observation sd)
                (Logger.thought sd) (Logger.action sd) (Logger.step_state sd)
                ep H) as (ep1 & H1 & H2).
    destruct (IH _ ep1 H1) as (ep' & H3 & H4).
    exists ep'. split; [exact H3|]. rewrite H4. exact H2.
Qed.

Lemma main_loop_counters runs :
  forall lg i starts res,
    Experiment.main_loop encode_len (mkClient 0 0 0) lg i runs = (starts, res) ->
    Forall (fun c => c = mkClient 0 0 0) starts
    /\ forall llm lg',
         res = Ok (llm, lg') ->
         llm = mkClient 0 0 0
         /\ map Logger.token_usage (Logger.episodes lg')
            = (map Logger.token_usage (Logger.episodes lg)
               ++ map (fun r => episode_usage encode_len (Experiment.chat_calls r))
                    runs)%list.
Proof.
  induction runs as [|r runs IH]; intros lg i starts res; cbn [Experiment.main_loop].
  - intros E. inversion E; subst. split; [constructor|].
    intros llm lg' E'. inversion E'; subst. rewrite app_nil_r. auto.
  - destruct (Experiment.returned r) as [[[success reward] steps]|e].
    + destruct (Experiment.main_loop encode_len _ _ (i + 1) runs)
        as [starts' res'] eqn:Hrec.
      intros E. inversion E; subst. clear E.
      unfold reset_token_count in Hrec.
      destruct (IH _ _ _ _ Hrec) as [Hall Hres].
      split; [constructor; [reflexivity|exact Hall]|].
      intros llm lg' E'. destruct (Hres llm lg' E') as [Hllm Hmap].
      split; [exact Hllm|]. rewrite Hmap. clear Hmap Hres Hrec.
      destruct (log_steps_current
                  (Logger.start_episode lg (Experiment.run_task r) (Some (i + 1)%Z))
                  (Experiment.logged_steps r) _ eq_refl) as (ep' & Hc & He).
      unfold Logger.end_episode. rewrite Hc. cbn [Logger.episodes].
      rewrite He. cbn [Logger.start_episode Logger.episodes].
      rewrite map_app. cbn [map Logger.token_usage].
      rewrite usage_from_zero. rewrite <- app_assoc. reflexivity.
    + intros E. inversion E; subst.
      split; [constructor; [reflexivity|constructor]|].
      intros llm lg' E'. discriminate.
Qed.

End TokenCounters.

(** The loop of [main] returns when no episode raises. *)
Lemma main_loop_returns encode_len runs :
  forall llm lg i,
    Forall (fun r => exists x, Experiment.returned r = Ok x) runs ->
    exists llm' lg',
      snd (Experiment.main_loop encode_len llm lg i runs) = Ok (llm', lg').
Proof.
  induction runs as [|r runs IH]; intros llm lg i H; cbn [Experiment.main_loop].
  - exists llm, lg. reflexivity.
  - inversion H as [|? ? [[[success reward] steps] Hr] Hrest]; subst.
    rewrite Hr.
    match goal with
    | |- context [Experiment.main_loop encode_len ?c ?l ?j runs] =>
        destruct (IH c l j Hrest) as (llm' & lg' & E);
        destruct (Experiment.main_loop encode_len c l j runs) as [starts res]
    end.
    cbn [snd] in *. exists llm', lg'. exact E.
Qed.

(** C7. [reset_token_count] sets the three counters to zero.  In the loop of
    [main] the client has its three counters at zero whenever an episode
    starts, and when the loop ends the token usage logged for each episode
    is the sum of the tokens of the calls made during that episode. *)
Theorem counters_zero_at_episode_start :
  forall (encode_len : string -> Z) (runs : list Experiment.episode_run),
    (forall c, LLMClient.reset_token_count c = LLMClient.mkClient 0 0 0)
    /\ Forall (fun c => c = LLMClient.mkClient 0 0 0)
         (fst (Experiment.main encode_len runs))
    /\ match snd (Experiment.main encode_len runs) with
       | Ok (llm, lg) =>
           map Logger.token_usage (Logger.episodes lg)
           = map (fun r => episode_usage encode_len (Experiment.chat_calls r))
               runs
       | Raise _ => True
       end.
Proof.
  intros encode_len runs. split; [reflexivity|].
  unfold Experiment.main, LLMClient.init.
  destruct (Experiment.main_loop encode_len _ Logger.init 0 runs)
    as [starts res] eqn:E.
  destruct (main_loop_counters encode_len runs _ _ _ _ E) as [Hall Hres].
  split; [exact Hall|].
  cbn [snd]. destruct res as [[llm lg]|e]; [|exact I].
  destruct (Hres llm lg eq_refl) as [_ Hmap]. exact Hmap.
Qed.

(** Two episodes: the first makes two calls, one of which fails; the second
    makes one call without reported usage. *)
Example two_episodes_usage :
  let runs := SampleMain.runs in
  fst (Experiment.main SampleMain.encode_len runs)
  = [LLMClient.mkClient 0 0 0; LLMClient.mkClient 0 0 0]
  /\ option_map (fun x => map Logger.token_usage (Logger.episodes (snd x)))
       (match snd (Experiment.main SampleMain.encode_len runs) with
        | Ok x => Some x
        | Raise _ => None
        end)
     = Some [[("input_tokens", 120%Z); ("output_tokens", 30%Z);
              ("total_tokens", 150%Z)];
             [("input_tokens", 14%Z); ("output_tokens", 17%Z);
              ("total_tokens", 31%Z)]].
Proof. split; reflexivity. Qed.

(** ** The summary of the logger *)

Section Summary.

Import Logger.

Lemma sumZ_total (l : list Z) : sumZ l = total l.
Proof.
  unfold sumZ, total. induction l as [|x l IH]; simpl.
  - reflexivity.
  - rewrite fold_add_shift. rewrite IH. lia.
Qed.

Lemma sumZ_ones {A : Type} (l : list A) :
  sumZ (map (fun _ => 1%Z) l) = Z.of_nat (List.length l).
Proof.
  rewrite sumZ_total. unfold total.
  induction l as [|x l IH]; [reflexivity|].
  cbn [map fold_right List.length]. rewrite IH. lia.
Qed.

(** The division of an integer by a positive one rounds their quotient. *)
Lemma truediv_pos (a : Z) (d : positive) :
  PyFloat.truediv a (Z.pos d) = PyFloat.round (a # d).
Proof.
  unfold PyFloat.truediv, Qdiv, Qinv, Qmult, inject_Z.
  cbn [Qnum Qden]. rewrite Z.mul_1_r. reflexivity.
Qed.

Lemma truediv_per_episode (t : Z) (n : nat) :
  n <> 0 ->
  PyFloat.truediv t (Z.of_nat n) = PyFloat.round (per_episode t n).
Proof.
  intros Hn. destruct n as [|k]; [contradiction|].
  unfold per_episode. cbn [Z.of_nat]. rewrite truediv_pos.
  rewrite Pos.of_nat_succ. reflexivity.
Qed.

Lemma exponent_nonpos (n d : positive) :
  (Z.pos n <= Z.pos d)%Z -> (PyFloat.exponent n d <= 0)%Z.
Proof.
  intros H. unfold PyFloat.exponent.
  pose proof (Z.log2_le_mono _ _ H) as Hl.
  destruct (0 <=? Z.log2 (Z.pos n) - Z.log2 (Z.pos d))%Z;
    [destruct (Z.pos d * 2 ^ (Z.log2 (Z.pos n) - Z.log2 (Z.pos d)) <=? Z.pos n)%Z
    |destruct (Z.pos d <=? Z.pos n * 2 ^ (- (Z.log2 (Z.pos n) - Z.log2 (Z.pos d))))%Z];
    lia.
Qed.

Lemma nearest_even_bounds (a : Z) (b : positive) (N : Z) :
  (0 <= a <= Z.pos b * N)%Z ->
  (0 <= PyFloat.nearest_even a b <= N)%Z.
Proof.
  intros [H0 H1]. unfold PyFloat.nearest_even.
  pose proof (Z.div_mod a (Z.pos b)) as Hdm.
  pose proof (Z.mod_pos_bound a (Z.pos b)) as Hr.
  assert (Hf : (0 <= a / Z.pos b)%Z) by (apply Z.div_pos; lia).
  set (f := (a / Z.pos b)%Z) in *. set (r := (a mod Z.pos b)%Z) in *.
  assert (Hb : (0 < Z.pos b)%Z) by lia.
  specialize (Hdm ltac:(lia)). specialize (Hr Hb).
  assert (HfN : (f <= N)%Z) by nia.
  assert (Hup : (0 < r -> f + 1 <= N)%Z) by (intros; nia).
  destruct (Z.compare_spec (2 * r) (Z.pos b)); [destruct (Z.even f)| |]; lia.
Qed.

(** A quotient between zero and one is rounded to a float between zero
    and one. *)
Lemma round_unit (a : Z) (d : positive) :
  (0 <= a <= Z.pos d)%Z ->
  (0 <= PyFloat.round (a # d))%Q /\ (PyFloat.round (a # d) <= 1)%Q.
Proof.
  intros [H0 H1]. unfold PyFloat.round. cbn [Qnum Qden].
  destruct a as [|n|n]; [split; [apply Qle_refl|discriminate]| |lia].
  unfold PyFloat.round_pos.
  pose proof (exponent_nonpos n d H1) as He.
  set (p := (Z.max (PyFloat.exponent n d) (-1022) - 52)%Z).
  assert (Hp : (p < 0)%Z) by (unfold p; lia).
  assert (E : (0 <=? p)%Z = false) by (apply Z.leb_gt; exact Hp).
  rewrite E. unfold PyFloat.pow2. rewrite E.
  assert (HN : (0 < 2 ^ (- p))%Z) by (apply Z.pow_pos_nonneg; lia).
  pose proof (nearest_even_bounds (Z.pos n * 2 ^ (- p)) d (2 ^ (- p))) as Hk.
  specialize (Hk ltac:(nia)).
  set (k := PyFloat.nearest_even (Z.pos n * 2 ^ (- p)) d) in *.
  rewrite Qred_correct.
  unfold Qle, Qmult, inject_Z. cbn [Qnum Qden].
  rewrite Pos.mul_1_l, Z2Pos.id by exact HN. split; lia.
Qed.

(** The exponent that [round] takes for [n / d] is the one of [n / d]:
    [2^e <= n / d < 2^(e+1)]. *)
Lemma exponent_spec (n d : positive) :
  let e := PyFloat.exponent n d in
  ((0 <= e)%Z ->
   (Z.pos d * 2 ^ e <= Z.pos n)%Z /\ (Z.pos n < Z.pos d * 2 ^ (e + 1))%Z)
  /\ ((e < 0)%Z ->
      (Z.pos d <= Z.pos n * 2 ^ (- e))%Z
      /\ (Z.pos n * 2 ^ (- e - 1) < Z.pos d)%Z).
Proof.
  cbv zeta. unfold PyFloat.exponent.
  pose proof (Z.log2_spec (Z.pos n) ltac:(lia)) as [Hn1 Hn2].
  pose proof (Z.log2_spec (Z.pos d) ltac:(lia)) as [Hd1 Hd2].
  pose proof (Z.log2_nonneg (Z.pos n)) as Hn0.
  pose proof (Z.log2_nonneg (Z.pos d)) as Hd0.
  set (a := Z.log2 (Z.pos n)) in *. set (b := Z.log2 (Z.pos d)) in *.
  rewrite Z.pow_succ_r in Hn2, Hd2 by lia.
  destruct (0 <=? a - b)%Z eqn:E0.
  - apply Z.leb_le in E0.
    assert (Ha : (2 ^ a = 2 ^ b * 2 ^ (a - b))%Z)
      by (rewrite <- Z.pow_add_r by lia; f_equal; lia).
    pose proof (Z.pow_pos_nonneg 2 (a - b) ltac:(lia) ltac:(lia)) as Hp.
    pose proof (Z.pow_pos_nonneg 2 b ltac:(lia) ltac:(lia)) as Hpb.
    destruct (Z.pos d * 2 ^ (a - b) <=? Z.pos n)%Z eqn:E1.
    + apply Z.leb_le in E1. split; [intros _|lia].
      split; [exact E1|]. rewrite Z.pow_add_r by lia.
      change (2 ^ 1)%Z with 2%Z. nia.
    + apply Z.leb_gt in E1.
      destruct (Z.eq_dec (a - b) 0) as [Ez|Ez].
      * rewrite Ez in *. change (2 ^ 0)%Z with 1%Z in *.
        split; [lia|intros _]. replace (- (0 - 1))%Z with 1%Z by lia.
        replace (1 - 1)%Z with 0%Z by lia.
        change (2 ^ 1)%Z with 2%Z. change (2 ^ 0)%Z with 1%Z. nia.
      * split; [intros _|lia].
        replace (a - b - 1 + 1)%Z with (a - b)%Z by lia.
        split; [|exact E1].
        assert (Hq : (2 ^ (a - b) = 2 * 2 ^ (a - b - 1))%Z).
        { rewrite <- Z.pow_succ_r by lia. f_equal. lia. }
        pose proof (Z.pow_pos_nonneg 2 (a - b - 1) ltac:(lia) ltac:(lia)).
        nia.
  - apply Z.leb_gt in E0.
    assert (Hb : (2 ^ b = 2 ^ a * 2 ^ (- (a - b)))%Z)
      by (rewrite <- Z.pow_add_r by lia; f_equal; lia).
    pose proof (Z.pow_pos_nonneg 2 (- (a - b)) ltac:(lia) ltac:(lia)) as Hp.
    pose proof (Z.pow_pos_nonneg 2 a ltac:(lia) ltac:(lia)) as Hpa.
    assert (Hq : (2 ^ (- (a - b)) = 2 * 2 ^ (- (a - b) - 1))%Z).
    { rewrite <- Z.pow_succ_r by lia. f_equal. lia. }
    pose proof (Z.pow_pos_nonneg 2 (- (a - b) - 1) ltac:(lia) ltac:(lia)).
    destruct (Z.pos d <=? Z.pos n * 2 ^ (- (a - b)))%Z eqn:E1.
    + apply Z.leb_le in E1. split; [lia|intros _]. split; [exact E1|]. nia.
    + apply Z.leb_gt in E1. split; [lia|intros _].
      replace (- (a - b - 1))%Z with (- (a - b) + 1)%Z by lia.
      replace (- (a - b) + 1 - 1)%Z with (- (a - b))%Z by lia.
      split; [|exact E1].
      rewrite Z.pow_add_r by lia. change (2 ^ 1)%Z with 2%Z. nia.
Qed.

Lemma nearest_even_spec (a : Z) (b : positive) :
  let k := PyFloat.nearest_even a b in
  (- Z.pos b <= 2 * (k * Z.pos b - a))%Z
  /\ (2 * (k * Z.pos b - a) <= Z.pos b)%Z.
Proof.
  cbv zeta. unfold PyFloat.nearest_even.
  pose proof (Z.div_mod a (Z.pos b) ltac:(lia)) as Hdm.
  pose proof (Z.mod_pos_bound a (Z.pos b) ltac:(lia)) as Hr.
  set (f := (a / Z.pos b)%Z) in *. set (r := (a mod Z.pos b)%Z) in *.
  destruct (Z.compare_spec (2 * r) (Z.pos b)); [destruct (Z.even f)| |]; nia.
Qed.

(** The float that [round] takes for [n / d] is a multiple of the unit in
    the last place, [2^(e-52)] or [2^-1074] below the normal range, and it
    lies within half a unit of [n / d]. *)
Lemma round_pos_nearest (n d : positive) :
  let p := (Z.max (PyFloat.exponent n d) (-1022) - 52)%Z in
  exists k : Z,
    (PyFloat.round_pos n d == inject_Z k * PyFloat.pow2 p)%Q
    /\ (2 * (inject_Z k * PyFloat.pow2 p - (Z.pos n # d)) <= PyFloat.pow2 p)%Q
    /\ (- PyFloat.pow2 p <= 2 * (inject_Z k * PyFloat.pow2 p - (Z.pos n # d)))%Q.
Proof.
  cbv zeta. unfold PyFloat.round_pos.
  set (p := (Z.max (PyFloat.exponent n d) (-1022) - 52)%Z).
  destruct (0 <=? p)%Z eqn:E.
  - apply Z.leb_le in E.
    assert (HP : (0 < 2 ^ p)%Z) by (apply Z.pow_pos_nonneg; lia).
    pose proof (nearest_even_spec (Z.pos n) (d * Z.to_pos (2 ^ p))) as Hk.
    cbv zeta in Hk.
    set (k := PyFloat.nearest_even (Z.pos n) (d * Z.to_pos (2 ^ p))) in *.
    exists k. split; [apply Qred_correct|].
    unfold PyFloat.pow2.
    assert (E' : (0 <=? p)%Z = true) by (apply Z.leb_le; exact E).
    rewrite E'.
    rewrite Pos2Z.inj_mul, Z2Pos.id in Hk by exact HP.
    set (P := (2 ^ p)%Z) in *.
    unfold Qle, Qmult, Qminus, Qplus, Qopp, inject_Z. cbn [Qnum Qden].
    rewrite ?Pos.mul_1_l, ?Pos.mul_1_r, ?Pos2Z.inj_mul. split; nia.
  - apply Z.leb_gt in E.
    assert (HP : (0 < 2 ^ (- p))%Z) by (apply Z.pow_pos_nonneg; lia).
    pose proof (nearest_even_spec (Z.pos n * 2 ^ (- p)) d) as Hk.
    cbv zeta in Hk.
    set (k := PyFloat.nearest_even (Z.pos n * 2 ^ (- p)) d) in *.
    exists k. split; [apply Qred_correct|].
    unfold PyFloat.pow2.
    assert (E' : (0 <=? p)%Z = false) by (apply Z.leb_gt; exact E).
    rewrite E'.
    set (P := (2 ^ (- p))%Z) in *.
    unfold Qle, Qmult, Qminus, Qplus, Qopp, inject_Z. cbn [Qnum Qden].
    rewrite ?Pos.mul_1_l, ?Pos.mul_1_r, ?Pos2Z.inj_mul, ?Z2Pos.id by exact HP.
    split; nia.
Qed.

End Summary.

(** C8. With at least one finished episode, [save_summary] returns and
    writes a summary whose success rate is the number of successful episodes
    divided by the number of episodes, whose average of steps is the sum of
    the logged step counts divided by the number of episodes, whose token
    totals are the sums of the input and of the output tokens of the
    episodes, and whose average of tokens is their sum divided by the number
    of episodes.  The divisions are those of Python on integers: each gives
    the float nearest to the exact quotient. *)
Theorem summary_statistics :
  forall lg : Logger.logger,
    Logger.episodes lg <> [] ->
    let eps := Logger.episodes lg in
    let n := List.length eps in
    exists s,
      snd (Logger.save_summary lg) = Some s
      /\ Logger.summary_file (fst (Logger.save_summary lg)) = Some s
      /\ Logger.success_rate s = PyFloat.round (per_episode (successes eps) n)
      /\ Logger.avg_steps s
         = PyFloat.round (per_episode (total (map Logger.num_steps eps)) n)
      /\ Logger.total_input_tokens s = total (map input_tokens_of eps)
      /\ Logger.total_output_tokens s = total (map output_tokens_of eps)
      /\ Logger.avg_tokens_per_episode s
         = PyFloat.round
             (per_episode (total (map input_tokens_of eps)
                           + total (map output_tokens_of eps)) n).
Proof.
  intros lg Hne. cbv zeta.
  assert (Hn : List.length (Logger.episodes lg) <> 0).
  { destruct (Logger.episodes lg); [contradiction|discriminate]. }
  assert (Hpos : (0 <? Z.of_nat (List.length (Logger.episodes lg)))%Z = true)
    by (apply Z.ltb_lt; lia).
  unfold Logger.save_summary.
  destruct (Logger.episodes lg) as [|ep eps'] eqn:E; [contradiction|].
  eexists. split; [reflexivity|]. split; [reflexivity|].
  cbn [Logger.success_rate Logger.avg_steps Logger.total_input_tokens
       Logger.total_output_tokens Logger.avg_tokens_per_episode].
  rewrite Hpos. rewrite sumZ_ones, !sumZ_total.
  repeat split; try reflexivity; apply truediv_per_episode; exact Hn.
Qed.

Lemma summary_statistics_witness :
  exists s,
    snd (Logger.save_summary SampleLog.logger_of_three) = Some s
    /\ Logger.summary_file (fst (Logger.save_summary SampleLog.logger_of_three))
       = Some s
    /\ Logger.success_rate s = PyFloat.round (1 # 3)
    /\ Logger.avg_steps s = PyFloat.round (10 # 3)
    /\ Logger.total_input_tokens s = 3100%Z
    /\ Logger.total_output_tokens s = 351%Z
    /\ Logger.avg_tokens_per_episode s = PyFloat.round (3451 # 3).
Proof.
  apply (summary_statistics SampleLog.logger_of_three). discriminate.
Defined.

(** The floats of the sample: 0.3333333333333333, 3.3333333333333335 and
    1150.3333333333333; a half and a quarter are floats already. *)
Example rounded_quotients :
  PyFloat.round (1 # 3) = (6004799503160661 # 18014398509481984)%Q
  /\ PyFloat.round (10 # 3) = (7505999378950827 # 2251799813685248)%Q
  /\ PyFloat.round (3451 # 3) = (5059219503273301 # 4398046511104)%Q
  /\ PyFloat.round (1 # 2) = (1 # 2)%Q
  /\ PyFloat.add (1 # 4) (1 # 4) = (1 # 2)%Q
  /\ PyFloat.add (3602879701896397 # 36028797018963968)
       (3602879701896397 # 18014398509481984)
     = (1351079888211149 # 4503599627370496)%Q.
Proof. vm_compute. repeat split. Qed.

(** ** The episode loop *)

Section EpisodeLoop.

Variables Env Agent : Type.
Variable env_reset : Env -> Env * string.
Variable env_get_task : Env -> string.
Variable env_step : Env -> string -> Env * string * Q * bool.
Variable agent_reset : Agent -> string -> result Agent.
Variable agent_step : Agent -> string -> result (Agent * string).
Variable agent_last_thought : Agent -> string.
Variable agent_get_state : Agent -> result (option Json.json).
Variable is_reflexion : bool.
Variable agent_reflect : Agent -> bool -> string -> Agent.

(** The two fields of [BaseAgent]. *)
Variable agent_current_step : Agent -> Z.
Variable agent_max_steps : Agent -> Z.

Let loop :=
  Experiment.loop Env Agent env_step agent_step agent_last_thought
    agent_get_state is_reflexion agent_reflect.

Let raised :=
  Experiment.raised_by_agent Agent agent_reset agent_step agent_get_state.

Let protocol :=
  Experiment.follows_base_agent Agent agent_reset agent_step agent_get_state
    agent_current_step agent_max_steps.

(** The loop, whatever the agent and the environment do. *)
Lemma loop_shape (max_steps : Z) (remaining : nat) :
  forall step ag env lg obs total_reward,
    1 <= step + remaining ->
    let r := loop max_steps remaining step ag env lg obs total_reward in
    Experiment.step_calls r <= remaining
    /\ match Experiment.outcome r with
       | Ok fin =>
           List.length (Experiment.env_results r) = Experiment.step_calls r
           /\ Experiment.steps fin = Z.of_nat (step + Experiment.step_calls r)
           /\ ((Forall not_done (Experiment.env_results r)
                /\ Experiment.step_calls r = remaining
                /\ Experiment.success fin = false)
               \/ (exists pre reward,
                     Experiment.env_results r = (pre ++ [(reward, true)])%list
                     /\ Forall not_done pre
                     /\ Experiment.success fin = Experiment.positive reward))
       | Raise e =>
           Forall not_done (Experiment.env_results r)
           /\ Experiment.step_calls r = S (List.length (Experiment.env_results r))
           /\ raised e
       end.
Proof.
  induction remaining as [|remaining IH];
    intros step ag env lg obs total_reward Hone; cbv zeta.
  - unfold loop. cbn [Experiment.loop Experiment.outcome Experiment.env_results
                       Experiment.step_calls].
    destruct step as [|step]; [lia|].
    unfold Experiment.finish.
    cbn [Experiment.steps Experiment.success List.length].
    repeat split; try lia. left. repeat split. constructor.
  - unfold loop. cbn [Experiment.loop]. fold loop.
    destruct (agent_step ag obs) as [[ag1 action]|e] eqn:Hs.
    2:{ cbn [Experiment.outcome Experiment.env_results Experiment.step_calls
               List.length].
        split; [lia|]. split; [constructor|]. split; [reflexivity|].
        right. left. exists ag, obs. exact Hs. }
    assert (Hlog :
              (exists lg1,
                  match lg with
                  | Some l =>
                      match agent_get_state ag1 with
                      | Ok state =>
                          Ok (Some (Logger.log_step l (Z.of_nat step + 1) obs
                                      (agent_last_thought ag1) action state))
                      | Raise e => Raise e
                      end
                  | None => Ok None
                  end = Ok lg1)
              \/ (exists e,
                     match lg with
                     | Some l =>
                         match agent_get_state ag1 with
                         | Ok state =>
                             Ok (Some (Logger.log_step l (Z.of_nat step + 1) obs
                                         (agent_last_thought ag1) action state))
                         | Raise e => Raise e
                         end
                     | None => Ok None
                     end = Raise e
                     /\ raised e)).
    { destruct lg as [l|]; [|left; eexists; reflexivity].
      destruct (agent_get_state ag1) as [state|e] eqn:Hg;
        [left; eexists; reflexivity|].
      right. exists e. split; [reflexivity|].
      right. right. exists ag1. exact Hg. }
    destruct Hlog as [(lg1 & Hlog)|(e & Hlog & He)]; rewrite Hlog.
    2:{ cbn [Experiment.outcome Experiment.env_results Experiment.step_calls
               List.length].
        split; [lia|]. split; [constructor|]. split; [reflexivity|exact He]. }
    destruct (env_step env action) as [[[env1 obs1] reward] done].
    destruct done.
    + cbn [Experiment.outcome Experiment.env_results Experiment.step_calls].
      unfold Experiment.finish.
      cbn [Experiment.steps Experiment.success List.length].
      repeat split; try lia.
      right. exists [], reward. repeat split. constructor.
    + cbn [Experiment.outcome Experiment.env_results Experiment.step_calls].
      match goal with
      | |- context [loop max_steps remaining (S step) ag1 env1 lg1 obs1 ?t] =>
          pose proof (IH (S step) ag1 env1 lg1 obs1 t) as Hrec
      end.
      cbv zeta in Hrec. destruct Hrec as [Hle Hm]; [lia|].
      split; [lia|].
      destruct (Experiment.outcome (loop max_steps remaining (S step) ag1 env1
                                      lg1 obs1 _)) as [fin|e].
      * destruct Hm as (Hlen & Hsteps & Hcase).
        cbn [List.length]. split; [lia|]. split; [lia|].
        destruct Hcase as [(Hall & Hcalls & Hsucc)|(pre & rw & Hres & Hpre & Hsucc)].
        -- left. repeat split; try lia; try assumption.
           constructor; [reflexivity|exact Hall].
        -- right. exists ((reward, false) :: pre), rw. rewrite Hres.
           repeat split; try assumption. constructor; [reflexivity|exact Hpre].
      * destruct Hm as (Hall & Hcalls & He).
        cbn [List.length]. split; [constructor; [reflexivity|exact Hall]|].
        split; [lia|exact He].
Qed.

(** An agent that keeps to [BaseAgent] and has as many steps left as the
    loop has iterations lets the loop return. *)
Lemma loop_within_budget (max_steps : Z) (remaining : nat) :
  protocol ->
  forall step ag env lg obs total_reward,
    (agent_current_step ag + Z.of_nat remaining <= agent_max_steps ag)%Z ->
    1 <= step + remaining ->
    exists fin,
      Experiment.outcome (loop max_steps remaining step ag env lg obs total_reward)
      = Ok fin.
Proof.
  intros (_ & step_ok & _ & get_state_ok).
  induction remaining as [|remaining IH];
    intros step ag env lg obs total_reward Hbudget Hone.
  - unfold loop. cbn [Experiment.loop Experiment.outcome].
    destruct step as [|step]; [lia|].
    unfold Experiment.finish. eexists. reflexivity.
  - unfold loop. cbn [Experiment.loop]. fold loop.
    destruct (step_ok ag obs) as (ag1 & action & Hs & Hc & Hm); [lia|].
    rewrite Hs.
    destruct (get_state_ok ag1) as (st & Hst).
    assert (Hlog : exists lg1,
               match lg with
               | Some l =>
                   match agent_get_state ag1 with
                   | Ok state =>
                       Ok (Some (Logger.log_step l (Z.of_nat step + 1) obs
                                   (agent_last_thought ag1) action state))
                   | Raise e => Raise e
                   end
               | None => Ok None
               end = Ok lg1).
    { destruct lg; [rewrite Hst|]; eexists; reflexivity. }
    destruct Hlog as (lg1 & Hlog). rewrite Hlog.
    destruct (env_step env action) as [[[env1 obs1] reward] done].
    destruct done.
    + cbn [Experiment.outcome]. unfold Experiment.finish. eexists. reflexivity.
    + cbn [Experiment.outcome]. apply IH; lia.
Qed.

(** An agent that keeps to [BaseAgent] and has fewer steps left than the
    loop has iterations: the environment ends the episode within these
    steps, or the next invocation of [step] raises [StopIteration]. *)
Lemma loop_beyond_limit (max_steps : Z) (remaining : nat) :
  protocol ->
  forall step ag env lg obs total_reward,
    Z.to_nat (agent_max_steps ag - agent_current_step ag) < remaining ->
    let r := loop max_steps remaining step ag env lg obs total_reward in
    (exists fin pre reward,
        Experiment.outcome r = Ok fin
        /\ Experiment.env_results r = (pre ++ [(reward, true)])%list
        /\ Experiment.step_calls r
           <= Z.to_nat (agent_max_steps ag - agent_current_step ag))
    \/ (Experiment.outcome r = Raise StopIteration
        /\ Experiment.step_calls r
           = S (Z.to_nat (agent_max_steps ag - agent_current_step ag))
        /\ Forall not_done (Experiment.env_results r)).
Proof.
  intros (_ & step_ok & step_limit & get_state_ok).
  induction remaining as [|remaining IH];
    intros step ag env lg obs total_reward Hk; cbv zeta; [lia|].
  unfold loop. cbn [Experiment.loop]. fold loop.
  destruct (Z_lt_le_dec (agent_current_step ag) (agent_max_steps ag))
    as [Hlt|Hge].
  - destruct (step_ok ag obs Hlt) as (ag1 & action & Hs & Hc & Hm).
    rewrite Hs.
    destruct (get_state_ok ag1) as (st & Hst).
    assert (Hlog : exists lg1,
               match lg with
               | Some l =>
                   match agent_get_state ag1 with
                   | Ok state =>
                       Ok (Some (Logger.log_step l (Z.of_nat step + 1) obs
                                   (agent_last_thought ag1) action state))
                   | Raise e => Raise e
                   end
               | None => Ok None
               end = Ok lg1).
    { destruct lg; [rewrite Hst|]; eexists; reflexivity. }
    destruct Hlog as (lg1 & Hlog). rewrite Hlog.
    destruct (env_step env action) as [[[env1 obs1] reward] done].
    destruct done.
    + cbn [Experiment.outcome Experiment.env_results Experiment.step_calls].
      left. unfold Experiment.finish. eexists. exists [], reward.
      split; [reflexivity|]. split; [reflexivity|]. lia.
    + cbn [Experiment.outcome Experiment.env_results Experiment.step_calls].
      match goal with
      | |- context [loop max_steps remaining (S step) ag1 env1 lg1 obs1 ?t] =>
          pose proof (IH (S step) ag1 env1 lg1 obs1 t) as Hrec
      end.
      cbv zeta in Hrec. rewrite Hc, Hm in Hrec.
      destruct Hrec as [(fin & pre & rw & Ho & Hres & Hle)|(Ho & Hcalls & Hall)];
        [lia| |].
      * left. exists fin, ((reward, false) :: pre), rw.
        split; [exact Ho|]. split; [rewrite Hres; reflexivity|]. lia.
      * right. split; [exact Ho|]. split; [lia|].
        constructor; [reflexivity|exact Hall].
  - rewrite (step_limit ag obs Hge).
    cbn [Experiment.outcome Experiment.env_results Experiment.step_calls].
    right. split; [reflexivity|]. split; [|constructor].
    lia.
Qed.

(** C6 (as amended). For every [max_steps >= 1], every agent and every
    environment, [run_episode] invokes [agent.step] at most [max_steps]
    times.  When it returns, every invocation was followed by a step of the
    environment, no step before the last one reported [done], and the last
    one did whenever fewer than [max_steps] invocations were made; the
    success reported is that the last step reported [done] with a positive
    reward, and the step count returned is the number of invocations.  When
    it does not return, it raises an exception that [agent.reset],
    [agent.step] or [agent.get_state] raised, right after the agent was
    invoked, and no step of the environment has reported [done].  For an
    agent that keeps to [BaseAgent] and raises nothing of its own: when the
    agent's own limit is at least [max_steps], [run_episode] returns; when
    it is smaller, either a step of the environment reports [done] within
    the agent's limit and [run_episode] returns, or the invocation of
    [agent.step] that follows the last one within the limit raises
    [StopIteration], which [run_episode] raises in turn. *)
Theorem run_episode_within_limits :
  forall (ag : Agent) (env : Env) (max_steps : Z) (lg : option Logger.logger)
         (episode_id : option Z),
    (1 <= max_steps)%Z ->
    let r :=
      Experiment.run_episode Env Agent env_reset env_get_task env_step
        agent_reset agent_step agent_last_thought agent_get_state is_reflexion
        agent_reflect ag env max_steps lg episode_id in
    Experiment.step_calls r <= Z.to_nat max_steps
    /\ match Experiment.outcome r with
       | Ok fin =>
           exists pre reward done,
             Experiment.env_results r = (pre ++ [(reward, done)])%list
             /\ Forall not_done pre
             /\ List.length (Experiment.env_results r) = Experiment.step_calls r
             /\ (done = false -> Experiment.step_calls r = Z.to_nat max_steps)
             /\ Experiment.success fin = done && Experiment.positive reward
             /\ Experiment.steps fin = Z.of_nat (Experiment.step_calls r)
       | Raise e =>
           Experiment.raised_by_agent Agent agent_reset agent_step
             agent_get_state e
           /\ Forall not_done (Experiment.env_results r)
           /\ List.length (Experiment.env_results r)
              = Nat.pred (Experiment.step_calls r)
       end
    /\ (Experiment.follows_base_agent Agent agent_reset agent_step
          agent_get_state agent_current_step agent_max_steps ->
        ((max_steps <= agent_max_steps ag)%Z ->
         exists fin, Experiment.outcome r = Ok fin)
        /\ ((agent_max_steps ag < max_steps)%Z ->
            (exists fin pre reward,
                Experiment.outcome r = Ok fin
                /\ Experiment.env_results r = (pre ++ [(reward, true)])%list
                /\ Experiment.step_calls r <= Z.to_nat (agent_max_steps ag))
            \/ (Experiment.outcome r = Raise StopIteration
                /\ Experiment.step_calls r = S (Z.to_nat (agent_max_steps ag))
                /\ Forall not_done (Experiment.env_results r)))).
Proof.
  intros ag env max_steps lg episode_id Hone. cbv zeta.
  unfold Experiment.run_episode.
  destruct (env_reset env) as [env1 obs].
  destruct (agent_reset ag (env_get_task env1)) as [ag0|e] eqn:Hr.
  - fold loop.
    set (lg1 := option_map
                  (fun l => Logger.start_episode l (env_get_task env1) episode_id)
                  lg).
    match goal with
    | |- context [loop max_steps (Z.to_nat max_steps) 0 ag0 env1 lg1 obs ?t] =>
        set (r := loop max_steps (Z.to_nat max_steps) 0 ag0 env1 lg1 obs t);
        pose proof (loop_shape max_steps (Z.to_nat max_steps) 0 ag0 env1 lg1
                      obs t) as Hshape;
        pose proof (fun P => loop_within_budget max_steps (Z.to_nat max_steps)
                               P 0 ag0 env1 lg1 obs t) as Hwithin;
        pose proof (fun P => loop_beyond_limit max_steps (Z.to_nat max_steps)
                               P 0 ag0 env1 lg1 obs t) as Hbeyond
    end.
    cbv zeta in Hshape, Hbeyond. fold r in Hshape, Hwithin, Hbeyond.
    destruct Hshape as [Hle Hm]; [lia|].
    split; [exact Hle|]. split.
    + destruct (Experiment.outcome r) as [fin|e]; [|].
      * destruct Hm as (Hlen & Hsteps & Hcase).
        destruct Hcase
          as [(Hall & Hcalls & Hsucc)|(pre & rw & Hres & Hpre & Hsucc)].
        -- assert (Hne : Experiment.env_results r <> [])
             by (destruct (Experiment.env_results r);
                 [simpl in Hlen; lia|discriminate]).
           rewrite (app_removelast_last (0%Q, false) Hne) in Hall.
           apply Forall_app in Hall. destruct Hall as [Hpre Hlast].
           inversion Hlast as [|x xs Hx _ Ex]. unfold not_done in Hx.
           destruct (List.last (Experiment.env_results r) (0%Q, false))
             as [rw d] eqn:El.
           cbn [snd] in Hx. subst d.
           exists (removelast (Experiment.env_results r)), rw, false.
           split; [rewrite <- El; apply app_removelast_last; exact Hne|].
           split; [exact Hpre|]. split; [exact Hlen|].
           split; [intros _; exact Hcalls|].
           split; [rewrite Hsucc; reflexivity|exact Hsteps].
        -- exists pre, rw, true.
           split; [exact Hres|]. split; [exact Hpre|]. split; [exact Hlen|].
           split; [discriminate|]. split; [exact Hsucc|exact Hsteps].
      * destruct Hm as (Hall & Hcalls & He).
        split; [exact He|]. split; [exact Hall|]. rewrite Hcalls. reflexivity.
    + intros Hp. pose proof Hp as (reset_ok & _).
      destruct (reset_ok ag (env_get_task env1)) as (ag0' & Hr' & Hc & Hmx).
      rewrite Hr in Hr'. injection Hr' as <-.
      split.
      * intros Hlimit. apply (Hwithin Hp); lia.
      * intros Hlimit. rewrite Hc, Hmx, Z.sub_0_r in Hbeyond.
        apply (Hbeyond Hp). lia.
  - cbn [Experiment.step_calls Experiment.outcome Experiment.env_results
           List.length Nat.pred].
    split; [lia|]. split.
    + split; [left; exists ag, (env_get_task env1); exact Hr|].
      split; [constructor|reflexivity].
    + intros (reset_ok & _).
      destruct (reset_ok ag (env_get_task env1)) as (ag0' & Hr' & _).
      rewrite Hr in Hr'. discriminate.
Qed.

End EpisodeLoop.

Section SampleRunFacts.

Import ObservationMaskingAgent.

(** The masked-history agent of the sample keeps to [BaseAgent]. *)
Lemma sample_follows_base_agent :
  Experiment.follows_base_agent agent SampleRun.agent_reset SampleRun.agent_step
    SampleRun.agent_get_state current_step max_steps.
Proof.
  split; [|split; [|split]].
  - intros ag task. eexists. repeat split.
  - intros ag obs H.
    unfold SampleRun.agent_step, step, is_step_limit_reached.
    assert (E : (max_steps ag <=? current_step ag)%Z = false)
      by (apply Z.leb_gt; exact H).
    rewrite E.
    destruct (_parse_thought_action (environment (observe ag obs)) "")
      as [thought action].
    eexists. eexists. repeat split.
  - intros ag obs H.
    unfold SampleRun.agent_step, step, is_step_limit_reached.
    assert (E : (max_steps ag <=? current_step ag)%Z = true)
      by (apply Z.leb_le; exact H).
    rewrite E. reflexivity.
  - intros ag. eexists. reflexivity.
Qed.

End SampleRunFacts.

Lemma run_episode_within_limits_witness :
  let r := SampleRun.run_episode (SampleRun.new_agent 50) (SampleRun.mkEnv 2 0) 50 in
  Experiment.step_calls r <= Z.to_nat 50
  /\ exists fin, Experiment.outcome r = Ok fin.
Proof.
  cbv zeta.
  pose proof (run_episode_within_limits SampleRun.env ObservationMaskingAgent.agent
           SampleRun.env_reset SampleRun.env_get_task SampleRun.env_step
           SampleRun.agent_reset SampleRun.agent_step
           ObservationMaskingAgent.last_thought SampleRun.agent_get_state
           false SampleRun.agent_reflect
           ObservationMaskingAgent.current_step
           ObservationMaskingAgent.max_steps
           (SampleRun.new_agent 50) (SampleRun.mkEnv 2 0) 50%Z
           (Some Logger.init) (Some 1%Z)) as H.
  cbv zeta in H. destruct H as (Hle & _ & Hp); [lia|].
  split; [exact Hle|].
  apply (Hp sample_follows_base_agent). simpl. lia.
Defined.

(** The sample run ends at its second step, with success. *)
Example sample_run_succeeds :
  let r := SampleRun.run_episode (SampleRun.new_agent 50) (SampleRun.mkEnv 2 0) 50 in
  Experiment.step_calls r = 2
  /\ Experiment.env_results r = [(0%Q, false); (1%Q, true)]
  /\ option_map Experiment.success
       (match Experiment.outcome r with Ok f => Some f | Raise _ => None end)
     = Some true.
Proof. repeat split. Qed.

(** C6 as stated fails: with the default limit of 50 steps in the agent and
    [max_steps = 60], the environment never reports [done], and yet the run
    stops at the 51st invocation of [agent.step], which raises
    [StopIteration]; nothing is reported. *)
Lemma run_stops_at_agent_limit :
  let r := SampleRun.run_episode (SampleRun.new_agent 50) (SampleRun.mkEnv 0 0) 60 in
  Experiment.step_calls r = 51
  /\ Experiment.step_calls r < Z.to_nat 60
  /\ Forall not_done (Experiment.env_results r)
  /\ Experiment.outcome r = Raise StopIteration.
Proof.
  vm_compute. repeat split; try lia. repeat constructor.
Qed.

(** ** The masked history *)

Section MaskedHistory.

Import ObservationMaskingAgent.

Lemma skipn_nth_cons {A : Type} (d : A) (l : list A) :
  forall i, i < List.length l -> skipn i l = nth i l d :: skipn (S i) l.
Proof.
  induction l as [|x l IH]; intros i Hi; simpl in Hi; [lia|].
  destruct i as [|i]; [reflexivity|].
  cbn [skipn nth]. rewrite (IH i) by lia. reflexivity.
Qed.

Lemma mask_condition (t : nat) (k : Z) (i : nat) :
  i < t ->
  (Z.of_nat i <? Z.of_nat t - k)%Z
  = Nat.ltb i (t - Z.to_nat (Z.min (Z.of_nat t) k)).
Proof.
  intros Hi. destruct (Z.ltb_spec (Z.of_nat i) (Z.of_nat t - k));
    destruct (Nat.ltb_spec i (t - Z.to_nat (Z.min (Z.of_nat t) k)));
    try reflexivity; lia.
Qed.

(** The loop of [history_parts] from the index [length done] on. *)
Lemma history_from (ag : agent) (c : nat) :
  (forall i,
     i < List.length (observations ag) ->
     (Z.of_nat i <? Z.of_nat (List.length (observations ag)) - keep_recent ag)%Z
     = Nat.ltb i c) ->
  forall rest done,
    observations ag = (done ++ rest)%list ->
    flat_map (history_entry ag) (seq (List.length done) (List.length rest))
    = interleave (S (List.length done))
        (map (fun _ => "[Observation masked]")
           (firstn (c - List.length done) rest)
         ++ skipn (c - List.length done) rest)%list
        (skipn (List.length done) (thoughts ag))
        (skipn (List.length done) (actions ag)).
Proof.
  intros Hmask. induction rest as [|x rest IH]; intros done Hobs.
  - rewrite firstn_nil, skipn_nil. reflexivity.
  - cbn [List.length seq flat_map].
    assert (Hobs' : observations ag = ((done ++ [x]) ++ rest)%list)
      by (rewrite <- app_assoc; exact Hobs).
    assert (Hlen : List.length (done ++ [x])%list = S (List.length done))
      by (rewrite length_app; simpl; lia).
    specialize (IH (done ++ [x])%list Hobs'). rewrite Hlen in IH. rewrite IH.
    clear IH Hobs'.
    unfold history_entry at 1.
    rewrite Hmask by (rewrite Hobs, length_app; simpl; lia).
    rewrite Nat.add_1_r.
    assert (Hx : nth (List.length done) (observations ag) "" = x).
    { rewrite Hobs, app_nth2 by lia. rewrite Nat.sub_diag. reflexivity. }
    rewrite Hx.
    assert (Hshown :
              (map (fun _ : string => "[Observation masked]")
                 (firstn (c - List.length done) (x :: rest))
               ++ skipn (c - List.length done) (x :: rest))%list
              = (if Nat.ltb (List.length done) c
                 then "[Observation masked]" else x)
                :: (map (fun _ : string => "[Observation masked]")
                      (firstn (c - S (List.length done)) rest)
                    ++ skipn (c - S (List.length done)) rest)%list).
    { destruct (Nat.ltb_spec (List.length done) c) as [Hlt|Hge].
      - replace (c - List.length done) with (S (c - S (List.length done)))
          by lia.
        reflexivity.
      - replace (c - List.length done) with 0 by lia.
        replace (c - S (List.length done)) with 0 by lia.
        reflexivity. }
    rewrite Hshown. cbn [interleave].
    assert (Hsk : forall l : list string,
               (if Nat.ltb (List.length done) (List.length l)
                then skipn (List.length done) l
                     = nth (List.length done) l ""
                       :: skipn (S (List.length done)) l
                else skipn (List.length done) l = []
                     /\ skipn (S (List.length done)) l = [])).
    { intros l. destruct (Nat.ltb_spec (List.length done) (List.length l)).
      - apply skipn_nth_cons. assumption.
      - split; apply skipn_all2; lia. }
    pose proof (Hsk (thoughts ag)) as Ht. pose proof (Hsk (actions ag)) as Ha.
    clear Hsk Hshown Hx.
    destruct (Nat.ltb (List.length done) (List.length (thoughts ag)));
      [rewrite Ht|destruct Ht as [Ht1 Ht2]; rewrite Ht1, Ht2];
      (destruct (Nat.ltb (List.length done) (List.length (actions ag)));
       [rewrite Ha|destruct Ha as [Ha1 Ha2]; rewrite Ha1, Ha2]);
      cbn [List.app tl]; reflexivity.
Qed.

(** The history that [step] builds, for any agent. *)
Lemma history_parts_interleave (ag : agent) :
  history_parts ag
  = interleave 1 (masked_view (keep_recent ag) (observations ag))
      (thoughts ag) (actions ag).
Proof.
  unfold history_parts, masked_view.
  pose proof (history_from ag
                (List.length (observations ag)
                 - Z.to_nat (Z.min (Z.of_nat (List.length (observations ag)))
                               (keep_recent ag)))
                (fun i Hi => mask_condition _ _ i Hi)
                (observations ag) [] eq_refl) as H.
  cbn [List.length skipn] in H. rewrite Nat.sub_0_r in H. exact H.
Qed.

(** What the steps of an episode store. *)
Lemma steps_store (io : list (string * string)) :
  forall ag ag',
    steps ag io = Ok ag' ->
    environment ag' = environment ag
    /\ keep_recent ag' = keep_recent ag
    /\ observations ag' = (observations ag ++ map fst io)%list
    /\ thoughts ag'
       = (thoughts ag
          ++ map (fun x => fst (_parse_thought_action (environment ag) (snd x)))
               io)%list
    /\ actions ag'
       = (actions ag
          ++ map (fun x => snd (_parse_thought_action (environment ag) (snd x)))
               io)%list.
Proof.
  induction io as [|[observation response] io IH]; intros ag ag' H.
  - cbn [steps] in H. inversion H; subst. cbn [map]. rewrite !app_nil_r. auto.
  - cbn [steps] in H. unfold step in H.
    destruct (is_step_limit_reached ag); [discriminate|].
    cbn [observe environment] in H.
    destruct (_parse_thought_action (environment ag) response)
      as [thought action] eqn:Ep.
    apply IH in H. cbn [environment keep_recent observations thoughts actions] in H.
    destruct H as (He & Hk & Ho & Ht & Ha).
    rewrite He, Hk, Ho, Ht, Ha. cbn [map fst snd]. rewrite Ep. cbn [fst snd].
    unfold observe.
    cbn [environment keep_recent observations thoughts actions].
    rewrite <- !app_assoc. repeat split; reflexivity.
Qed.

End MaskedHistory.

(** C10. At the step [t] of an episode, after [t - 1] steps with their
    observations and replies, the history of the prompt lists the [t]
    observations in order, the most recent [min(t, keep_recent)] as they are
    and every older one as [[Observation masked]], each followed by the
    thought and the action stored at its step, so that all the [t - 1]
    stored thoughts and actions appear, as they are and in order. *)
Theorem masked_history_contents :
  forall (ag0 ag : ObservationMaskingAgent.agent) (instruction : string)
         (io : list (string * string)) (observation : string),
    ObservationMaskingAgent.steps
      (ObservationMaskingAgent.reset ag0 instruction) io = Ok ag ->
    let parsed :=
      map (fun x =>
             ObservationMaskingAgent._parse_thought_action
               (ObservationMaskingAgent.environment ag0) (snd x)) io in
    let shown :=
      masked_view (ObservationMaskingAgent.keep_recent ag0)
        (map fst io ++ [observation])%list in
    ObservationMaskingAgent.thoughts ag = map fst parsed
    /\ ObservationMaskingAgent.actions ag = map snd parsed
    /\ List.length shown = S (List.length io)
    /\ ObservationMaskingAgent.history_parts
         (ObservationMaskingAgent.observe ag observation)
       = interleave 1 shown (map fst parsed) (map snd parsed)
    /\ ObservationMaskingAgent.history_str ag observation
       = PyStr.join (String PyStr.nl "")
           (interleave 1 shown (map fst parsed) (map snd parsed)).
Proof.
  intros ag0 ag instruction io observation H. cbv zeta.
  apply steps_store in H.
  cbn [ObservationMaskingAgent.reset ObservationMaskingAgent.environment
       ObservationMaskingAgent.keep_recent ObservationMaskingAgent.observations
       ObservationMaskingAgent.thoughts ObservationMaskingAgent.actions
       List.app] in H.
  destruct H as (He & Hk & Ho & Ht & Ha).
  assert (Hparts :
            ObservationMaskingAgent.history_parts
              (ObservationMaskingAgent.observe ag observation)
            = interleave 1
                (masked_view (ObservationMaskingAgent.keep_recent ag0)
                   (map fst io ++ [observation])%list)
                (map fst
                   (map (fun x =>
                           ObservationMaskingAgent._parse_thought_action
                             (ObservationMaskingAgent.environment ag0) (snd x))
                      io))
                (map snd
                   (map (fun x =>
                           ObservationMaskingAgent._parse_thought_action
                             (ObservationMaskingAgent.environment ag0) (snd x))
                      io))).
  { rewrite history_parts_interleave.
    cbn [ObservationMaskingAgent.observe ObservationMaskingAgent.keep_recent
         ObservationMaskingAgent.observations ObservationMaskingAgent.thoughts
         ObservationMaskingAgent.actions].
    rewrite Hk, Ho, Ht, Ha, !map_map. reflexivity. }
  rewrite !map_map.
  split; [exact Ht|]. split; [exact Ha|].
  split.
  - unfold masked_view.
    rewrite length_app, length_map, length_firstn, length_skipn.
    rewrite length_app, length_map. simpl. lia.
  - rewrite !map_map in Hparts. split; [exact Hparts|].
    unfold ObservationMaskingAgent.history_str. rewrite Hparts. reflexivity.
Qed.

Lemma masked_history_contents_witness :
  exists ag,
    ObservationMaskingAgent.steps
      (ObservationMaskingAgent.reset SampleHistory.agent "put a mug on the desk")
      SampleHistory.first_steps = Ok ag
    /\ ObservationMaskingAgent.history_parts
         (ObservationMaskingAgent.observe ag "Nothing happens.")
       = ["Observation 1: [Observation masked]";
          "Thought 1: find the mug";
          "Action 1: go to desk 1";
          "Observation 2: [Observation masked]";
          "Thought 2: ";
          "Action 2: look";
          "Observation 3: Nothing happens."].
Proof.
  eexists. split; [reflexivity|].
  exact (proj1 (proj2 (proj2 (proj2
           (masked_history_contents SampleHistory.agent _
              "put a mug on the desk" SampleHistory.first_steps
              "Nothing happens." eq_refl))))).
Defined.

(** ** The repair of trailing commas *)

Section ParserShape.

Import Json JsonLoads TrailingCommas.

Lemma tok_sim_cases t t' :
  tok_sim t t' ->
  (exists s s', t = TString s /\ t' = TString s') \/ t = t'.
Proof. intros [s s'|u]; [left; eauto|right; reflexivity]. Qed.

Lemma complete_sim v v' st st' :
  is_obj v = is_obj v' -> Forall2 frame_sim st st' ->
  ops_sim (complete v st) (complete v' st').
Proof.
  intros Hv Hst. destruct Hst as [|f f' st st' Hf Hst]; simpl.
  - split; simpl; constructor. exact Hv.
  - destruct Hf; simpl; try exact I;
      (split; simpl; [constructor|constructor; [constructor|exact Hst]]).
Qed.

Lemma start_value_sim t t' st st' :
  tok_sim t t' -> Forall2 frame_sim st st' ->
  ops_sim (start_value t st) (start_value t' st').
Proof.
  intros Ht Hst. destruct (tok_sim_cases _ _ Ht) as [(s & s' & Es & Es')|Es]; [subst t t'|subst t'].
  - simpl. apply complete_sim; [reflexivity|exact Hst].
  - destruct t; simpl; try exact I;
      try (apply complete_sim; [reflexivity|exact Hst]);
      (split; simpl; [constructor|constructor; [constructor|exact Hst]]).
Qed.

Lemma start_key_sim t t' st st' :
  tok_sim t t' -> Forall2 frame_sim st st' ->
  ops_sim (start_key t st) (start_key t' st').
Proof.
  intros Ht Hst.
  assert (Hstr : forall k k',
             ops_sim (start_key (TString k) st) (start_key (TString k') st')).
  { intros k k'. destruct Hst as [|f f' st st' Hf Hst]; simpl; try exact I.
    destruct Hf; simpl; try exact I.
    split; simpl; [constructor|constructor; [constructor|exact Hst]]. }
  destruct (tok_sim_cases _ _ Ht) as [(s & s' & Es & Es')|Es]; [subst t t'|subst t']; [apply Hstr|].
  destruct t; try apply Hstr; simpl; try exact I.
Qed.

Lemma close_sim t st st' :
  Forall2 frame_sim st st' -> ops_sim (close t st) (close t st').
Proof.
  intros Hst. destruct Hst as [|f f' st st' Hf Hst].
  - destruct t; exact I.
  - destruct t; try exact I; destruct Hf; try exact I;
      simpl; apply complete_sim; solve [reflexivity|assumption].
Qed.

Lemma close_string_none s st : close (TString s) st = None.
Proof. reflexivity. Qed.

Lemma parse_step_sim p p' t t' :
  ps_sim p p' -> tok_sim t t' -> ops_sim (parse_step p t) (parse_step p' t').
Proof.
  intros [Hm Hst] Ht. destruct p as [m st], p' as [m' st']. simpl in Hm, Hst.
  destruct Hm as [v v' Hv|m]; [simpl; try exact I|].
  destruct m; simpl; try exact I.
  - apply start_value_sim; assumption.
  - destruct (tok_sim_cases _ _ Ht) as [(s & s' & Es & Es')|Es]; [subst t t'|subst t']; [apply start_value_sim; [constructor|assumption]|].
    destruct t; try (apply start_value_sim; [constructor|assumption]).
    apply close_sim; assumption.
  - destruct (tok_sim_cases _ _ Ht) as [(s & s' & Es & Es')|Es]; [subst t t'|subst t']; [apply start_key_sim; [constructor|assumption]|].
    destruct t; try (apply start_key_sim; [constructor|assumption]).
    apply close_sim; assumption.
  - apply start_key_sim; assumption.
  - destruct (tok_sim_cases _ _ Ht) as [(s & s' & Es & Es')|Es]; [subst t t'|subst t']; [exact I|].
    destruct t; try exact I. split; [constructor|assumption].
  - destruct (tok_sim_cases _ _ Ht) as [(s & s' & Es & Es')|Es]; [subst t t'|subst t'].
    + destruct Hst as [|f f' st st' Hf Hst]; [exact I|]. destruct Hf; exact I.
    + destruct t; try (apply close_sim; assumption).
      destruct Hst as [|f f' st st' Hf Hst]; [try exact I|].
      destruct Hf; simpl; try exact I;
        (split; simpl; [constructor|constructor; [constructor|exact Hst]]).
Qed.

Lemma parse_go_sim ts :
  forall ts' p p' v,
    Forall2 tok_sim ts ts' -> ps_sim p p' ->
    parse_go p ts = Some v ->
    exists v', parse_go p' ts' = Some v' /\ is_obj v = is_obj v'.
Proof.
  induction ts as [|t ts IH]; intros ts' p p' v Hts Hp H.
  - inversion Hts; subst. simpl in *.
    destruct p as [m st], p' as [m' st']. destruct Hp as [Hm Hst].
    simpl in Hm, Hst.
    destruct m; try discriminate. destruct st; try discriminate.
    inversion H; subst. inversion Hst; subst.
    inversion Hm; subst; eexists; split; try reflexivity; assumption.
  - inversion Hts as [|? t' ? ts'' Ht Hts']; subst. simpl in *.
    pose proof (parse_step_sim p p' t t' Hp Ht) as Hs.
    destruct (parse_step p t) as [p1|]; [|discriminate].
    destruct (parse_step p' t') as [p1'|]; [|contradiction].
    apply (IH _ p1 p1' v Hts' Hs H).
Qed.

End ParserShape.

Section LexerShape.

Import Json JsonLoads TrailingCommas.

Ltac each_char c :=
  destruct c as [[|] [|] [|] [|] [|] [|] [|] [|]].

Lemma lex_out_class (c : ascii) : out_class c (lex_out c).
Proof.
  each_char c;
    first
      [ apply out_reject
      | apply out_space; reflexivity
      | apply out_start; solve [exact I | reflexivity]
      | apply out_token;
        solve [reflexivity | discriminate | intros; discriminate] ].
Qed.

Lemma space_is_json_or_rejected (c : ascii) :
  PyStr.isspace c = true -> closer_char c = false ->
  lex_out c = None \/ (json_space c = true /\ lex_out c = Some (LOut, [])).
Proof.
  intros Hs Hc. destruct (lex_out_class c) as [|Hj _ _ _|st _ Hn _ _|t Hn _ _ _].
  - left. reflexivity.
  - right. split; [exact Hj|reflexivity].
  - rewrite Hs in Hn. discriminate.
  - rewrite Hs in Hn. discriminate.
Qed.

Lemma toks_sim_refl (ts : list token) : Forall2 tok_sim ts ts.
Proof. induction ts; constructor; [apply tok_sim_refl|assumption]. Qed.

Lemma step_sim_refl r : step_sim r r.
Proof.
  destruct r as [[st toks]|]; simpl; [|exact I].
  split; [apply st_sim_refl|apply toks_sim_refl].
Qed.

(** A step of the lexer does not look at the text of the string it reads. *)
Lemma lex_step_sim st st' c :
  st_sim st st' -> step_sim (lex_step st c) (lex_step st' c).
Proof.
  intros [a a'|a a'|a a' ds|st0]; [| | |apply step_sim_refl]; simpl.
  - destruct (Ascii.eqb c PyStr.dq);
      [split; [constructor|repeat constructor]|].
    destruct (Ascii.eqb c "\");
      [split; [constructor|constructor]|].
    destruct (nat_of_ascii c <? 32)%nat; [exact I|].
    split; constructor.
  - destruct (Ascii.eqb c "u"); [split; constructor|].
    destruct (escape c); [split; constructor|exact I].
  - destruct (hexdigit c) as [h|]; [|exact I].
    destruct (List.length (ds ++ [h]) <? 4)%nat; [split; constructor|].
    destruct (hexval (ds ++ [h]) <? 256)%nat; [split; constructor|exact I].
Qed.

(** Inside a token, a step emits nothing and stays inside, or it emits a
    token that is no closing brace or bracket first. *)
Lemma lex_step_in_token st c st1 em :
  in_token st -> lex_step st c = Some (st1, em) ->
  (em = [] /\ in_token st1) \/ head_closer em = false /\ em <> [].
Proof.
  intros Hin H. destruct st as [|a|a|a ds|rest v|n]; [contradiction| | | | |];
    simpl in H.
  - destruct (Ascii.eqb c PyStr.dq);
      [inversion H; subst; right; split; [reflexivity|discriminate]|].
    destruct (Ascii.eqb c "\"); [inversion H; subst; left; split; [reflexivity|exact I]|].
    destruct (nat_of_ascii c <? 32)%nat; [discriminate|].
    inversion H; subst. left. split; [reflexivity|exact I].
  - destruct (Ascii.eqb c "u"); [inversion H; subst; left; split; [reflexivity|exact I]|].
    destruct (escape c); [|discriminate].
    inversion H; subst. left. split; [reflexivity|exact I].
  - destruct (hexdigit c) as [h|]; [|discriminate].
    destruct (List.length (ds ++ [h]) <? 4)%nat;
      [inversion H; subst; left; split; [reflexivity|exact I]|].
    destruct (hexval (ds ++ [h]) <? 256)%nat; [|discriminate].
    inversion H; subst. left. split; [reflexivity|exact I].
  - destruct rest as [|r rest']; [discriminate|].
    destruct (Ascii.eqb c r); [|discriminate].
    destruct rest'; inversion H; subst;
      [right; split; [reflexivity|discriminate]|left; split; [reflexivity|exact I]].
  - unfold lex_num, end_num in H.
    destruct (phase n);
      repeat match type of H with
        | context [if ?b then _ else _] => destruct b
        | context [match digit c with _ => _ end] => destruct (digit c)
        | context [match num_value n with _ => _ end] => destruct (num_value n)
        | context [match lex_out c with _ => _ end] =>
            destruct (lex_out c) as [[? ?]|]
        end;
      try discriminate; inversion H; subst;
      solve [left; split; [reflexivity|exact I]
            |right; split; [reflexivity|discriminate]].
Qed.

(** The first token read from inside a token is no closing brace or
    bracket. *)
Lemma first_token_in_token s :
  forall st ts, in_token st -> lex_go st s = Some ts -> head_closer ts = false.
Proof.
  induction s as [|c s IH]; intros st ts Hin H; simpl in H.
  - destruct st; try contradiction; cbn [lex_end] in H; try discriminate.
    destruct (num_value n); cbn [option_map] in H; inversion H; reflexivity.
  - destruct (lex_step st c) as [[st1 em]|] eqn:E; [|discriminate].
    destruct (lex_go st1 s) as [rest|] eqn:Er; [|discriminate].
    inversion H; subst. clear H.
    destruct (lex_step_in_token st c st1 em Hin E) as [[-> Hin1]|[Hh Hne]].
    + simpl. apply (IH st1); assumption.
    + destruct em; [contradiction|exact Hh].
Qed.

(** Between two tokens, a closing brace or bracket follows the white space
    exactly when the next token is one. *)
Lemma closer_head s :
  forall ts, lex_go LOut s = Some ts ->
             PyRe.closer_after_space s = head_closer ts.
Proof.
  induction s as [|c s IH]; intros ts H; simpl in H.
  - inversion H. reflexivity.
  - cbn [PyRe.closer_after_space]. fold (closer_char c).
    destruct (lex_out_class c) as [|Hj Hs Hc _|st Hin Hs Hc _|t Hs Hc _ _];
      [discriminate| | |].
    + destruct (lex_go LOut s) as [rest|] eqn:Er; [|discriminate].
      inversion H; subst; clear H.
      rewrite Hc, Hs. simpl. apply IH. reflexivity.
    + destruct (lex_go st s) as [rest|] eqn:Er; [|discriminate].
      inversion H; subst; clear H.
      rewrite Hc, Hs. simpl. symmetry.
      apply (first_token_in_token s st); assumption.
    + destruct (lex_go LOut s) as [rest|] eqn:Er; [|discriminate].
      inversion H; subst; clear H.
      simpl. rewrite Hc. destruct (closer_char c); [reflexivity|].
      rewrite Hs. reflexivity.
Qed.

(** The states in which a comma can be read, and what is emitted. *)
Lemma lex_out_lit_ok c st toks : lex_out c = Some (st, toks) -> lit_ok st.
Proof.
  each_char c; cbv; intros H; inversion H; solve [exact I|reflexivity].
Qed.

Lemma lex_step_lit_ok st c st1 em :
  lit_ok st -> lex_step st c = Some (st1, em) -> lit_ok st1.
Proof.
  intros Hok H. destruct st as [|a|a|a ds|rest v|n]; simpl in H.
  - apply (lex_out_lit_ok c _ _ H).
  - destruct (Ascii.eqb c PyStr.dq); [inversion H; exact I|].
    destruct (Ascii.eqb c "\"); [inversion H; exact I|].
    destruct (nat_of_ascii c <? 32)%nat; [discriminate|].
    inversion H. exact I.
  - destruct (Ascii.eqb c "u"); [inversion H; exact I|].
    destruct (escape c); [|discriminate]. inversion H. exact I.
  - destruct (hexdigit c) as [h|]; [|discriminate].
    destruct (List.length (ds ++ [h]) <? 4)%nat; [inversion H; exact I|].
    destruct (hexval (ds ++ [h]) <? 256)%nat; [|discriminate].
    inversion H. exact I.
  - destruct rest as [|r rest']; [discriminate|].
    destruct (Ascii.eqb c r); [|discriminate].
    simpl in Hok. apply andb_prop in Hok. destruct Hok as [_ Hok].
    destruct rest'; inversion H; subst; [exact I|exact Hok].
  - unfold lex_num, end_num in H.
    destruct (phase n);
      repeat match type of H with
        | context [if ?b then _ else _] => destruct b
        | context [match digit c with _ => _ end] => destruct (digit c)
        | context [match num_value n with _ => _ end] => destruct (num_value n)
        | context [match lex_out c with _ => _ end] =>
            destruct (lex_out c) as [[? ?]|] eqn:?
        end;
      try discriminate; inversion H; subst;
      solve [exact I|reflexivity|eapply lex_out_lit_ok; eassumption].
Qed.

Lemma lex_step_comma st st1 em :
  lit_ok st ->
  lex_step st "," = Some (st1, em) ->
  (st = LOut /\ st1 = LOut /\ em = [TComma])
  \/ (exists a, st = LStr a /\ st1 = LStr (snoc a ",") /\ em = [])
  \/ (exists n v, st = LNum n /\ num_value n = Some v
                  /\ st1 = LOut /\ em = [TValue v; TComma]).
Proof.
  intros Hok H. destruct st as [|a|a|a ds|rest v|n].
  - cbn in H. inversion H; subst. left. auto.
  - cbn in H. inversion H; subst. right. left. exists a. auto.
  - cbn in H. discriminate.
  - cbn in H. discriminate.
  - destruct rest as [|r rest']; [discriminate|].
    simpl in Hok. apply andb_prop in Hok. destruct Hok as [Hr _].
    rewrite Ascii.eqb_sym in Hr. apply negb_true_iff in Hr.
    cbn [lex_step] in H. rewrite Hr in H. discriminate.
  - right. right. cbn [lex_step] in H. unfold lex_num, end_num in H.
    destruct (num_value n) as [v|] eqn:Ev;
      destruct (phase n); cbn in H; try discriminate;
      inversion H; subst; exists n, v; auto.
Qed.

Lemma lex_step_no_comma st c st1 em :
  Ascii.eqb c "," = false -> lex_step st c = Some (st1, em) ->
  Forall (fun t => t <> TComma) em.
Proof.
  intros Hc H.
  assert (Hout : forall st2 toks,
             lex_out c = Some (st2, toks) -> Forall (fun t => t <> TComma) toks).
  { intros st2 toks E. destruct (lex_out_class c) as [| | |t _ _ _ Hn];
      inversion E; subst; repeat constructor. apply Hn. exact Hc. }
  destruct st as [|a|a|a ds|rest v|n]; simpl in H.
  - apply (Hout _ _ H).
  - destruct (Ascii.eqb c PyStr.dq);
      [inversion H; subst; repeat constructor; discriminate|].
    destruct (Ascii.eqb c "\"); [inversion H; constructor|].
    destruct (nat_of_ascii c <? 32)%nat; [discriminate|].
    inversion H. constructor.
  - destruct (Ascii.eqb c "u"); [inversion H; constructor|].
    destruct (escape c); [|discriminate]. inversion H. constructor.
  - destruct (hexdigit c) as [h|]; [|discriminate].
    destruct (List.length (ds ++ [h]) <? 4)%nat; [inversion H; constructor|].
    destruct (hexval (ds ++ [h]) <? 256)%nat; [|discriminate].
    inversion H. constructor.
  - destruct rest as [|r rest']; [discriminate|].
    destruct (Ascii.eqb c r); [|discriminate].
    destruct rest'; inversion H; subst; repeat constructor; discriminate.
  - unfold lex_num, end_num in H.
    destruct (phase n);
      repeat match type of H with
        | context [if ?b then _ else _] => destruct b
        | context [match digit c with _ => _ end] => destruct (digit c)
        | context [match num_value n with _ => _ end] => destruct (num_value n)
        | context [match lex_out c with _ => _ end] =>
            destruct (lex_out c) as [[? ?]|] eqn:?
        end;
      try discriminate; inversion H; subst;
      try solve [constructor];
      (constructor; [discriminate|eapply Hout; reflexivity]).
Qed.

(** A complete number ends before a closing brace or bracket and before
    white space. *)
Lemma num_flush n v c :
  num_value n = Some v -> closer_char c = true \/ json_space c = true ->
  lex_step (LNum n) c = end_num n c.
Proof.
  intros Hv Hc. unfold num_value in Hv.
  each_char c;
    (destruct Hc as [Hc|Hc]; cbv in Hc; try discriminate Hc);
    cbn [lex_step]; unfold lex_num;
    destruct (phase n); try discriminate Hv; reflexivity.
Qed.

Lemma drop_cons_other t r :
  t <> TComma -> drop_trailing_commas (t :: r) = t :: drop_trailing_commas r.
Proof. intros Ht. destruct t; try reflexivity. contradiction. Qed.

Lemma drop_app_no_comma em r :
  Forall (fun t => t <> TComma) em ->
  drop_trailing_commas (em ++ r)%list = (em ++ drop_trailing_commas r)%list.
Proof.
  induction 1 as [|t em Ht _ IH]; [reflexivity|].
  cbn [List.app]. rewrite drop_cons_other by exact Ht. rewrite IH. reflexivity.
Qed.

Lemma drop_comma_keep r :
  head_closer r = false ->
  drop_trailing_commas (TComma :: r) = TComma :: drop_trailing_commas r.
Proof. destruct r as [|t r]; [reflexivity|]. destruct t; try discriminate; reflexivity. Qed.

Lemma drop_comma_drop r :
  head_closer r = true ->
  drop_trailing_commas (TComma :: r) = drop_trailing_commas r.
Proof. destruct r as [|t r]; [discriminate|]. destruct t; try discriminate; reflexivity. Qed.

Lemma num_flush_go n v s ts :
  num_value n = Some v -> PyRe.closer_after_space s = true ->
  lex_go LOut s = Some ts ->
  lex_go (LNum n) (PyRe.sub_trailing_commas s)
  = option_map (cons (TValue v)) (lex_go LOut (PyRe.sub_trailing_commas s)).
Proof.
  intros Hv Hc H. destruct s as [|d s']; [discriminate|].
  cbn [PyRe.closer_after_space] in Hc. fold (closer_char d) in Hc.
  cbn [lex_go lex_step] in H.
  assert (Hd : (closer_char d = true \/ json_space d = true)
               /\ Ascii.eqb d "," = false).
  { destruct (lex_out_class d)
      as [|Hj Hs Hcl Hcm|st Hin Hs Hcl Hcm|t Hs Hcl Hcm1 Hcm2].
    - discriminate.
    - auto.
    - rewrite Hcl, Hs in Hc. discriminate.
    - rewrite Hs in Hc. destruct (closer_char d) eqn:Ecl; [|discriminate].
      split; [auto|].
      destruct (Ascii.eqb d ",") eqn:E2; [|reflexivity].
      rewrite (Hcm1 eq_refl) in Hcl. discriminate. }
  destruct Hd as [Hd Hcomma].
  cbn [PyRe.sub_trailing_commas]. rewrite Hcomma. cbn [andb lex_go].
  rewrite (num_flush n v d Hv Hd). cbn [lex_step]. unfold end_num. rewrite Hv.
  destruct (lex_out d) as [[st toks]|]; [|reflexivity].
  destruct (lex_go st (PyRe.sub_trailing_commas s')); reflexivity.
Qed.

(** The tokens of the text after [re.sub] are, up to the text of the
    strings, the tokens of the text before it without the commas that come
    just before a closing brace or bracket. *)
Lemma lex_sub s :
  forall st st' ts,
    lit_ok st -> st_sim st st' -> lex_go st s = Some ts ->
    exists ts',
      lex_go st' (PyRe.sub_trailing_commas s) = Some ts'
      /\ Forall2 tok_sim (drop_trailing_commas ts) ts'.
Proof.
  induction s as [|c s IH]; intros st st' ts Hok Hsim H.
  - cbn [PyRe.sub_trailing_commas lex_go] in *.
    destruct Hsim; cbn [lex_end] in *; try discriminate.
    exists ts. split; [exact H|].
    destruct st; cbn [lex_end] in H; try discriminate;
      [inversion H; constructor|].
    destruct (num_value n); inversion H. apply toks_sim_refl.
  - cbn [lex_go] in H.
    destruct (lex_step st c) as [[st1 em]|] eqn:E; [|discriminate].
    destruct (lex_go st1 s) as [rest|] eqn:Er; [|discriminate].
    inversion H; subst ts; clear H.
    pose proof (lex_step_sim st st' c Hsim) as Hs. rewrite E in Hs.
    destruct (lex_step st' c) as [[st1' em']|] eqn:E'; [|contradiction].
    destruct Hs as [Hs1 Hem].
    pose proof (lex_step_lit_ok st c st1 em Hok E) as Hok1.
    destruct (IH st1 st1' rest Hok1 Hs1 Er) as (rest' & Hrest' & Hsimrest).
    cbn [PyRe.sub_trailing_commas].
    destruct (Ascii.eqb c ",") eqn:Ec; cbn [andb].
    + apply Ascii.eqb_eq in Ec. subst c.
      destruct (lex_step_comma st st1 em Hok E)
        as [(Est & Est1 & Eem)|[(a & Est & Est1 & Eem)|(n & v & Est & Hv & Est1 & Eem)]];
        subst st st1 em.
      * assert (Est' : st' = LOut) by (inversion Hsim; reflexivity).
        subst st'.
        rewrite (closer_head s rest Er).
        destruct (head_closer rest) eqn:Eh.
        -- destruct (IH LOut LOut rest I (st_sim_refl _) Er) as (r2 & Hr2 & Hsim2).
           exists r2. split; [exact Hr2|].
           cbn [List.app]. rewrite drop_comma_drop by exact Eh. exact Hsim2.
        -- cbn [lex_go]. rewrite E', Hrest'. eexists. split; [reflexivity|].
           cbn [List.app]. rewrite drop_comma_keep by exact Eh.
           apply (Forall2_app Hem Hsimrest).
      * cbn [List.app].
        destruct (PyRe.closer_after_space s).
        -- assert (Est' : exists a', st' = LStr a')
             by (inversion Hsim; eexists; reflexivity).
           destruct Est' as (a' & ->).
           apply (IH (LStr (snoc a ",")) (LStr a') rest I (st_sim_str _ _) Er).
        -- cbn [lex_go]. rewrite E', Hrest'. eexists. split; [reflexivity|].
           inversion Hem; subst. exact Hsimrest.
      * assert (Est' : st' = LNum n) by (inversion Hsim; reflexivity).
        subst st'.
        rewrite (closer_head s rest Er).
        destruct (head_closer rest) eqn:Eh.
        -- destruct (IH LOut LOut rest I (st_sim_refl _) Er) as (r2 & Hr2 & Hsim2).
           rewrite (num_flush_go n v s rest Hv) by
             (try rewrite (closer_head s rest Er); assumption).
           rewrite Hr2. eexists. split; [reflexivity|].
           cbn [List.app]. rewrite drop_cons_other by discriminate.
           rewrite drop_comma_drop by exact Eh.
           constructor; [apply tok_sim_refl|exact Hsim2].
        -- cbn [lex_go]. rewrite E', Hrest'. eexists. split; [reflexivity|].
           cbn [List.app]. rewrite drop_cons_other by discriminate.
           rewrite drop_comma_keep by exact Eh.
           apply (Forall2_app Hem Hsimrest).
    + cbn [lex_go]. rewrite E', Hrest'. eexists. split; [reflexivity|].
      rewrite drop_app_no_comma by (apply (lex_step_no_comma st c st1 em Ec E)).
      apply (Forall2_app Hem Hsimrest).
Qed.

Lemma drop_length ts :
  List.length (drop_trailing_commas ts) <= List.length ts.
Proof.
  induction ts as [|t ts IH]; [apply le_n|].
  destruct t; try (cbn [drop_trailing_commas List.length]; lia).
  destruct ts as [|t' ts']; [cbn; lia|].
  destruct t'; cbn [drop_trailing_commas List.length] in *; lia.
Qed.

(** A token list without trailing commas: what holds of its tail. *)
Lemma drop_fix_tail t r :
  drop_trailing_commas (t :: r) = t :: r ->
  drop_trailing_commas r = r
  /\ (t = TComma -> head_closer r = false).
Proof.
  intros H.
  assert (Hc : t = TComma \/ t <> TComma)
    by (destruct t; solve [left; reflexivity|right; discriminate]).
  destruct Hc as [->|Hn].
  - destruct (head_closer r) eqn:Eh.
    + rewrite drop_comma_drop in H by exact Eh.
      pose proof (drop_length r) as Hl. rewrite H in Hl.
      cbn [List.length] in Hl. lia.
    + rewrite drop_comma_keep in H by exact Eh.
      injection H as H. split; [exact H|reflexivity].
  - rewrite drop_cons_other in H by exact Hn.
    injection H as H. split; [exact H|]. intros E. contradiction.
Qed.

Lemma drop_fix_app em r :
  drop_trailing_commas (em ++ r)%list = (em ++ r)%list ->
  drop_trailing_commas r = r.
Proof.
  induction em as [|t em IH]; intros H; [exact H|].
  cbn [List.app] in H. apply IH. apply (drop_fix_tail t _ H).
Qed.

(** When no string holds a comma followed by white space and a closer, the
    tokens of the text after [re.sub] are exactly the tokens of the text
    before it without the commas that come just before a closing brace or
    bracket. *)
Lemma lex_sub_clean s :
  forall st ts,
    lit_ok st -> lex_go st s = Some ts -> clean_go st s = true ->
    lex_go st (PyRe.sub_trailing_commas s) = Some (drop_trailing_commas ts).
Proof.
  induction s as [|c s IH]; intros st ts Hok H Hcl.
  - cbn [PyRe.sub_trailing_commas lex_go] in *.
    destruct st; cbn [lex_end] in *; try discriminate.
    + inversion H. reflexivity.
    + destruct (num_value n); inversion H. reflexivity.
  - cbn [lex_go] in H.
    destruct (lex_step st c) as [[st1 em]|] eqn:E; [|discriminate].
    destruct (lex_go st1 s) as [rest|] eqn:Er; [|discriminate].
    inversion H; subst ts; clear H.
    cbn [clean_go] in Hcl. rewrite E in Hcl.
    apply andb_prop in Hcl. destruct Hcl as [Hc1 Hc2].
    pose proof (lex_step_lit_ok st c st1 em Hok E) as Hok1.
    pose proof (IH st1 rest Hok1 Er Hc2) as Hrest.
    cbn [PyRe.sub_trailing_commas].
    destruct (Ascii.eqb c ",") eqn:Ec; cbn [andb].
    + apply Ascii.eqb_eq in Ec. subst c.
      destruct (lex_step_comma st st1 em Hok E)
        as [(Est & Est1 & Eem)|[(a & Est & Est1 & Eem)|(n & v & Est & Hv & Est1 & Eem)]];
        subst st st1 em.
      * rewrite (closer_head s rest Er).
        destruct (head_closer rest) eqn:Eh.
        -- cbn [List.app]. rewrite drop_comma_drop by exact Eh. exact Hrest.
        -- cbn [lex_go]. rewrite E, Hrest. cbn [option_map List.app].
           rewrite drop_comma_keep by exact Eh. reflexivity.
      * cbn [Ascii.eqb Bool.eqb andb] in Hc1.
        apply negb_true_iff in Hc1. rewrite Hc1.
        cbn [lex_go]. rewrite E, Hrest. reflexivity.
      * rewrite (closer_head s rest Er).
        destruct (head_closer rest) eqn:Eh.
        -- rewrite (num_flush_go n v s rest Hv) by
             (try rewrite (closer_head s rest Er); assumption).
           rewrite Hrest. cbn [option_map List.app].
           rewrite drop_cons_other by discriminate.
           rewrite drop_comma_drop by exact Eh. reflexivity.
        -- cbn [lex_go]. rewrite E, Hrest. cbn [option_map List.app].
           rewrite drop_cons_other by discriminate.
           rewrite drop_comma_keep by exact Eh. reflexivity.
    + cbn [lex_go]. rewrite E, Hrest. cbn [option_map].
      rewrite drop_app_no_comma by (apply (lex_step_no_comma st c st1 em Ec E)).
      reflexivity.
Qed.

(** A text whose tokens hold no trailing comma and whose strings hold no
    comma followed by white space and a closer is left as it is by
    [re.sub]. *)
Lemma sub_fixes_clean s :
  forall st ts,
    lit_ok st -> lex_go st s = Some ts ->
    drop_trailing_commas ts = ts -> clean_go st s = true ->
    PyRe.sub_trailing_commas s = s.
Proof.
  induction s as [|c s IH]; intros st ts Hok H Hfix Hcl; [reflexivity|].
  cbn [lex_go] in H.
  destruct (lex_step st c) as [[st1 em]|] eqn:E; [|discriminate].
  destruct (lex_go st1 s) as [rest|] eqn:Er; [|discriminate].
  inversion H; subst ts; clear H.
  cbn [clean_go] in Hcl. rewrite E in Hcl.
  apply andb_prop in Hcl. destruct Hcl as [Hc1 Hc2].
  pose proof (lex_step_lit_ok st c st1 em Hok E) as Hok1.
  pose proof (IH st1 rest Hok1 Er (drop_fix_app em rest Hfix) Hc2) as Hrest.
  cbn [PyRe.sub_trailing_commas]. rewrite Hrest.
  destruct (Ascii.eqb c ",") eqn:Ec; cbn [andb]; [|reflexivity].
  apply Ascii.eqb_eq in Ec. subst c.
  assert (Hno : PyRe.closer_after_space s = false).
  { destruct (lex_step_comma st st1 em Hok E)
      as [(Est & Est1 & Eem)|[(a & Est & Est1 & Eem)|(n & v & Est & Hv & Est1 & Eem)]];
      subst st st1 em.
    - rewrite (closer_head s rest Er).
      apply (drop_fix_tail TComma rest Hfix). reflexivity.
    - cbn [Ascii.eqb Bool.eqb andb] in Hc1.
      apply negb_true_iff in Hc1. exact Hc1.
    - rewrite (closer_head s rest Er).
      cbn [List.app] in Hfix.
      apply (drop_fix_tail TComma rest (proj1 (drop_fix_tail _ _ Hfix))).
      reflexivity. }
  rewrite Hno. reflexivity.
Qed.

End LexerShape.

Section Payload.

Lemma split_go_not_nil sep s : forall k, PyStr.split_go sep k s <> [].
Proof.
  induction s as [|c s IH]; intros k; cbn [PyStr.split_go]; [discriminate|].
  destruct k as [|k]; [|apply IH].
  destruct (prefix sep (String c s)); [discriminate|].
  destruct (PyStr.split_go sep 0 s); discriminate.
Qed.

Lemma split_contains a sep s :
  PyStr.contains (String a sep) s = true ->
  exists x y l, PyStr.split (String a sep) s = x :: y :: l.
Proof.
  unfold PyStr.split. induction s as [|c s IH]; intros H.
  - simpl in H. discriminate.
  - cbn [PyStr.contains] in H. cbn [PyStr.split_go].
    destruct (prefix (String a sep) (String c s)) eqn:E.
    + destruct (PyStr.split_go (String a sep) (String.length (String a sep) - 1) s)
        as [|y l] eqn:Es; [exfalso; apply (split_go_not_nil _ _ _ Es)|].
      eauto.
    + cbn [orb] in H. destruct (IH H) as (x & y & l & ->). eauto.
Qed.

Lemma split_first sep s : exists x l, PyStr.split sep s = x :: l.
Proof.
  unfold PyStr.split.
  destruct (PyStr.split_go sep 0 s) as [|x l] eqn:E;
    [exfalso; apply (split_go_not_nil _ _ _ E)|eauto].
Qed.

(** The extraction of the fenced text never fails. *)
Lemma payload_total text : exists json_str, ZipActAgent.payload text = Some json_str.
Proof.
  unfold ZipActAgent.payload.
  destruct (PyStr.contains "```json" text) eqn:E1.
  - destruct (split_contains _ _ _ E1) as (x & y & l & ->). cbn [nth_error].
    destruct (split_first "```" y) as (x' & l' & ->). eexists. reflexivity.
  - destruct (PyStr.contains "```" text) eqn:E2; [|eexists; reflexivity].
    destruct (split_contains _ _ _ E2) as (x & y & l & ->). cbn [nth_error].
    destruct (split_first "```" y) as (x' & l' & ->). eexists. reflexivity.
Qed.

End Payload.

(** Whatever its strings hold, a payload that is a JSON object but for
    commas before a closing brace or bracket (white space allowed between
    the comma and the closer) gives an object, never the default;
    [payload_total] shows that the payload always exists. *)
Lemma parse_json_returns_an_object :
  forall (text : string) (default : option Json.json) (json_str : string)
         (o : list (string * Json.json)),
    ZipActAgent.payload text = Some json_str ->
    TrailingCommas.object_but_for_trailing_commas json_str o ->
    exists o',
      JsonLoads.loads (PyRe.sub_trailing_commas json_str) = Some (Json.JObj o')
      /\ ZipActAgent._parse_json JsonLoads.loads text default = Json.JObj o'.
Proof.
  intros text default json_str o Hp (ts & Hlex & Hparse).
  destruct (lex_sub json_str JsonLoads.LOut JsonLoads.LOut ts I
              (TrailingCommas.st_sim_refl _) Hlex) as (ts' & Hlex' & Hsim).
  destruct (parse_go_sim _ ts' (JsonLoads.MValue, []) (JsonLoads.MValue, [])
              (Json.JObj o) Hsim) as (v' & Hv' & Hobj).
  { split; [apply TrailingCommas.mode_sim_refl|constructor]. }
  { exact Hparse. }
  destruct v' as [| | | | | |o']; try discriminate.
  assert (Hloads : JsonLoads.loads (PyRe.sub_trailing_commas json_str)
                   = Some (Json.JObj o')).
  { unfold JsonLoads.loads, JsonLoads.lex. rewrite Hlex'. exact Hv'. }
  exists o'. split; [exact Hloads|].
  unfold ZipActAgent._parse_json. rewrite Hp, Hloads. reflexivity.
Qed.

(** When no string of such a payload holds a comma followed by white space
    and a closing brace or bracket, the repair removes the trailing commas
    and nothing else: the repaired text has the tokens of the payload
    without these commas, and [_parse_json] returns the object itself. *)
Lemma parse_json_repairs_clean_payload :
  forall (text : string) (default : option Json.json) (json_str : string)
         (o : list (string * Json.json)),
    ZipActAgent.payload text = Some json_str ->
    TrailingCommas.object_but_for_trailing_commas json_str o ->
    TrailingCommas.strings_clean json_str = true ->
    option_map TrailingCommas.drop_trailing_commas (JsonLoads.lex json_str)
    = JsonLoads.lex (PyRe.sub_trailing_commas json_str)
    /\ JsonLoads.loads (PyRe.sub_trailing_commas json_str) = Some (Json.JObj o)
    /\ ZipActAgent._parse_json JsonLoads.loads text default = Json.JObj o.
Proof.
  intros text default json_str o Hp (ts & Hlex & Hparse) Hclean.
  pose proof (lex_sub_clean json_str JsonLoads.LOut ts I Hlex Hclean) as Hsub.
  assert (Hloads : JsonLoads.loads (PyRe.sub_trailing_commas json_str)
                   = Some (Json.JObj o)).
  { unfold JsonLoads.loads, JsonLoads.lex. rewrite Hsub. exact Hparse. }
  split; [rewrite Hlex; symmetry; exact Hsub|]. split; [exact Hloads|].
  unfold ZipActAgent._parse_json. rewrite Hp, Hloads. reflexivity.
Qed.

Example parse_json_repairs_clean_sample :
  ZipActAgent._parse_json JsonLoads.loads SampleJson.fenced
    (Some ZipActAgent._get_empty_state)
  = Json.JObj [("inventory", Json.JArr [Json.JStr "mug"])].
Proof.
  apply (parse_json_repairs_clean_payload SampleJson.fenced
           (Some ZipActAgent._get_empty_state) SampleJson.with_trailing_commas
           [("inventory", Json.JArr [Json.JStr "mug"])]).
  - reflexivity.
  - eexists. split; reflexivity.
  - reflexivity.
Qed.

(** A reply with trailing commas after a list element and after the last
    member. *)
Example repair_sample :
  TrailingCommas.object_but_for_trailing_commas SampleJson.with_trailing_commas
    [("inventory", Json.JArr [Json.JStr "mug"])]
  /\ JsonLoads.loads SampleJson.with_trailing_commas = None
  /\ ZipActAgent._parse_json JsonLoads.loads SampleJson.with_trailing_commas None
     = Json.JObj [("inventory", Json.JArr [Json.JStr "mug"])].
Proof.
  split; [|split; reflexivity].
  eexists. split; reflexivity.
Qed.

(** The repair reaches into string literals: a valid object comes back with
    another string. *)
Example repair_inside_string :
  JsonLoads.loads SampleJson.with_comma_in_string
  = Some (Json.JObj [("note", Json.JStr "a,}")])
  /\ ZipActAgent._parse_json JsonLoads.loads SampleJson.with_comma_in_string None
     = Json.JObj [("note", Json.JStr "a}")].
Proof. split; reflexivity. Qed.

(** C5. The repair is not confined to the commas that the specification
    and the comment of the code speak of: [re.sub] also removes a comma that stands
    inside a string literal before a closing brace or bracket.  The payload
    [{"note": "a,}",}] has no fence, is the JSON object [{"note": "a,}"}] but
    for the comma before its closing brace, and [_parse_json] returns
    [{"note": "a}"}], which is neither that object nor the default.  In the
    same way the JSON object [{"a,}": 1, "a}": 2}] comes back with the one
    member ["a}": 2]. *)
Theorem parse_json_rewrites_strings :
  ZipActAgent.payload SampleJson.with_both_commas
  = Some SampleJson.with_both_commas
  /\ TrailingCommas.object_but_for_trailing_commas SampleJson.with_both_commas
       [("note", Json.JStr "a,}")]
  /\ ZipActAgent._parse_json JsonLoads.loads SampleJson.with_both_commas
       (Some ZipActAgent._get_empty_state)
     = Json.JObj [("note", Json.JStr "a}")]
  /\ JsonLoads.loads SampleJson.with_comma_in_key
     = Some (Json.JObj [("a,}", Json.JInt 1); ("a}", Json.JInt 2)])
  /\ ZipActAgent._parse_json JsonLoads.loads SampleJson.with_comma_in_key
       (Some ZipActAgent._get_empty_state)
     = Json.JObj [("a}", Json.JInt 2)].
Proof.
  split; [reflexivity|]. split; [eexists; split; reflexivity|].
  repeat split.
Qed.

(** * Part III: further properties of the sources *)

(** ** Initialisation and update of the state record *)

Section ResetFacts.

Import Json ZipActAgent.

Variable json_loads : string -> option json.

(** X1. [reset] completes exactly when the state parsed from the reply (the
    empty state when the reply does not parse) is an object whose
    [goal_state] is an object; otherwise it raises. *)
Theorem reset_completes_iff :
  forall (ag : agent) (instruction response : string),
    (exists ag', reset json_loads ag instruction response = Ok ag')
    <-> (exists m g,
           _parse_json json_loads response (Some _get_empty_state) = JObj m
           /\ assoc_get "goal_state" m = Some (JObj g)).
Proof.
  intros ag instruction response. unfold reset.
  destruct (_parse_json json_loads response (Some _get_empty_state))
    as [| | | | | |m]; cbn [get bind];
    try (split; [intros (ag' & H); discriminate
                |intros (m & g & H & _); discriminate]).
  destruct (assoc_get "goal_state" m) as [v|] eqn:Eg.
  - destruct v as [| | | | | |g]; cbn [get bind];
      try (split; [intros (ag' & H); discriminate
                  |intros (m' & g & H & Hg); inversion H; subst m';
                   rewrite Eg in Hg; discriminate]).
    split; [intros _; exists m, g; auto|intros _].
    destruct (truthy
                match assoc_get "global_instruction" g with
                | Some x => x
                | None => JNull
                end); cbn [negb getitem bind]; [eexists; reflexivity|].
    rewrite Eg. cbn [bind setitem]. eexists. reflexivity.
  - cbn [get bind assoc_get truthy negb getitem]. rewrite Eg. cbn [bind].
    split; [intros (ag' & H); discriminate
           |intros (m' & g & H & Hg); inversion H; subst; congruence].
Qed.

(** X2. When [reset] completes, the agent starts at step zero without a last
    action and with its step limit unchanged, and the state has a
    [goal_state.global_instruction]: the true value the model gave, in which
    case the parsed state is kept as it is, or else the instruction of the
    task. *)
Theorem reset_sets_instruction :
  forall (ag ag' : agent) (instruction response : string),
    reset json_loads ag instruction response = Ok ag' ->
    current_step ag' = 0%Z /\ last_action ag' = None
    /\ max_steps ag' = max_steps ag
    /\ exists m g v,
         state ag' = JObj m
         /\ assoc_get "goal_state" m = Some (JObj g)
         /\ assoc_get "global_instruction" g = Some v
         /\ ((truthy v = true
              /\ state ag'
                 = _parse_json json_loads response (Some _get_empty_state))
             \/ v = JStr instruction).
Proof.
  intros ag ag' instruction response. unfold reset.
  destruct (_parse_json json_loads response (Some _get_empty_state))
    as [| | | | | |m]; cbn [get bind]; try discriminate.
  destruct (assoc_get "goal_state" m) as [v|] eqn:Eg.
  - destruct v as [| | | | | |g]; cbn [get bind]; try discriminate.
    destruct (assoc_get "global_instruction" g) as [gi|] eqn:Ei.
    + destruct (truthy gi) eqn:Et; cbn [negb getitem bind].
      * intros H. inversion H; subst. cbn. repeat split.
        exists m, g, gi.
        split; [reflexivity|]. split; [exact Eg|]. split; [exact Ei|].
        left. split; [exact Et|reflexivity].
      * rewrite Eg. cbn [bind setitem]. intros H. inversion H; subst. cbn.
        repeat split.
        exists (assoc_set "goal_state"
                  (JObj (assoc_set "global_instruction" (JStr instruction) g)) m),
          (assoc_set "global_instruction" (JStr instruction) g),
          (JStr instruction).
        rewrite !assoc_get_set_same. auto 6.
    + cbn [truthy negb getitem bind]. rewrite Eg. cbn [bind setitem].
      intros H. inversion H; subst. cbn. repeat split.
      exists (assoc_set "goal_state"
                (JObj (assoc_set "global_instruction" (JStr instruction) g)) m),
        (assoc_set "global_instruction" (JStr instruction) g),
        (JStr instruction).
      rewrite !assoc_get_set_same. auto 6.
  - cbn [get bind assoc_get truthy negb getitem]. rewrite Eg. discriminate.
Qed.

End ResetFacts.

Lemma reset_sets_instruction_witness :
  exists ag',
    ZipActAgent.reset JsonLoads.loads Sample.after_look
      "heat some mug and put it in cabinet." Sample.reply_not_json = Ok ag'
    /\ ZipActAgent.current_step ag' = 0%Z
    /\ ZipActAgent.last_action ag' = None.
Proof.
  eexists. split; [reflexivity|].
  destruct (reset_sets_instruction JsonLoads.loads Sample.after_look _
              "heat some mug and put it in cabinet." Sample.reply_not_json
              eq_refl) as (Hc & Hl & _).
  split; assumption.
Defined.

Section MalformedReplies.

Import Json ZipActAgent.

Variable json_loads : string -> option json.

(** X3. When the reply of the updater parses to [true] or to a number other
    than zero, [_update_state] raises [TypeError] at the test
    ["constraint_state" in new_state]. *)
Theorem update_state_scalar_reply :
  forall (ag : agent) (observation response : string) (st v : json),
    track (state ag) (last_action ag) = Ok st ->
    _parse_json json_loads response (Some st) = v ->
    truthy v = true ->
    (exists b, v = JBool b) \/ (exists n, v = JInt n) \/ (exists f, v = JFloat f) ->
    _update_state json_loads ag observation response = Raise TypeError.
Proof.
  intros ag observation response st v Ht Hv Htrue Hkind.
  unfold _update_state. rewrite Ht. cbn [bind]. rewrite Hv, Htrue.
  destruct Hkind as [(b & ->)|[(n & ->)|(f & ->)]]; reflexivity.
Qed.

(** X4. When the reply of the updater parses to a non-empty string or array
    that does not contain ["constraint_state"], it becomes the state; from
    then on every update with a non-empty last action raises [TypeError],
    whatever the reply, and [get_state] raises [AttributeError] on a string
    state. *)
Theorem update_state_non_object_reply :
  forall (ag : agent) (observation response : string) (st v : json),
    track (state ag) (last_action ag) = Ok st ->
    _parse_json json_loads response (Some st) = v ->
    truthy v = true ->
    contains "constraint_state" v = Ok false ->
    (exists s, v = JStr s) \/ (exists l, v = JArr l) ->
    _update_state json_loads ag observation response = Ok (set_state ag v)
    /\ (forall a thought n limit observation' response',
          PyStr.truthy a = true ->
          _update_state json_loads (mkAgent v (Some a) thought n limit)
            observation' response' = Raise TypeError)
    /\ (forall s, v = JStr s -> get_state (set_state ag v) = Raise AttributeError).
Proof.
  intros ag observation response st v Ht Hv Htrue Hc Hkind.
  split; [|split].
  - unfold _update_state. rewrite Ht. cbn [bind]. rewrite Hv, Htrue, Hc.
    reflexivity.
  - intros a thought n limit observation' response' Ha.
    unfold _update_state, track. cbn [state last_action]. rewrite Ha, Hc.
    destruct Hkind as [(s & ->)|(l & ->)]; reflexivity.
  - intros s ->. reflexivity.
Qed.

(** X5. On a state object without [constraint_state], the tracking of a
    non-empty last action adds that key at the end, with the three lists of
    the template and the action as the only attempted one; on a
    [constraint_state] object without [attempted_actions], it adds that list
    at its end. *)
Theorem track_creates_list :
  forall (m : list (string * json)) (a : string),
    PyStr.truthy a = true ->
    (assoc_get "constraint_state" m = None ->
     track (JObj m) (Some a)
     = Ok (JObj (m ++ [("constraint_state",
                        JObj [("attempted_actions", JArr [JStr a]);
                              ("negative_constraints", JArr []);
                              ("visited_locations", JArr [])])])%list))
    /\ (forall cs,
          assoc_get "constraint_state" m = Some (JObj cs) ->
          assoc_get "attempted_actions" cs = None ->
          track (JObj m) (Some a)
          = Ok (JObj (assoc_set "constraint_state"
                        (JObj (cs ++ [("attempted_actions", JArr [JStr a])])%list)
                        m))).
Proof.
  intros m a Ha.
  assert (Hmiss : forall k v (d : list (string * json)),
             assoc_get k d = None -> assoc_set k v d = (d ++ [(k, v)])%list).
  { intros k v d. induction d as [|[k0 v0] d IH]; simpl; [reflexivity|].
    destruct (String.eqb k k0); [discriminate|]. intros H. rewrite IH; auto. }
  split.
  - intros Hm. unfold track. rewrite Ha. cbn [contains bind]. rewrite Hm.
    cbn [negb setitem bind getitem]. rewrite assoc_get_set_same.
    cbn [bind contains assoc_get String.eqb Ascii.eqb Bool.eqb negb getitem
         existsb append setitem List.app assoc_set].
    rewrite assoc_set_twice. rewrite (Hmiss _ _ _ Hm). reflexivity.
  - intros cs Hm Hcs. unfold track. rewrite Ha. cbn [contains bind]. rewrite Hm.
    cbn [negb bind getitem]. rewrite Hm. cbn [bind contains]. rewrite Hcs.
    cbn [negb setitem bind getitem]. rewrite assoc_get_set_same.
    cbn [bind contains existsb negb append List.app setitem].
    rewrite assoc_set_twice. rewrite (Hmiss _ _ _ Hcs). reflexivity.
Qed.

(** X6. Tracking the same last action again changes nothing: on a state that
    holds an attempted-actions list, the state after the tracking is a fixed
    point of the tracking. *)
Theorem track_twice :
  forall (st st1 : json) (l : list json) (la : option string),
    holds_attempted st l ->
    track st la = Ok st1 ->
    track st1 la = Ok st1.
Proof.
  intros st st1 l la H Ht.
  rewrite (track_holds st l la H) in Ht. inversion Ht; subst st1. clear Ht.
  pose proof (with_attempted_holds st l (tracked_list la l) H) as H1.
  rewrite (track_holds _ _ la H1).
  rewrite (with_attempted_twice st l) by exact H.
  f_equal. f_equal.
  unfold tracked_list. destruct la as [a|]; [|reflexivity].
  destruct (PyStr.truthy a) eqn:Ha; cbn [andb]; [|reflexivity].
  destruct (existsb (is_str a) l) eqn:El; cbn [negb].
  - rewrite El. reflexivity.
  - rewrite existsb_app. cbn [existsb is_str]. rewrite String.eqb_refl.
    rewrite orb_true_r. reflexivity.
Qed.

End MalformedReplies.

Lemma update_state_scalar_reply_witness :
  ZipActAgent._update_state JsonLoads.loads Sample.after_look
    "Nothing happens." "42" = Raise TypeError.
Proof.
  apply (update_state_scalar_reply JsonLoads.loads Sample.after_look
           "Nothing happens." "42" (Sample.state_with [Json.JStr "look"])
           (Json.JInt 42)); try reflexivity.
  right. left. exists 42%Z. reflexivity.
Defined.

Lemma update_state_non_object_reply_witness :
  ZipActAgent._update_state JsonLoads.loads Sample.after_look
    "Nothing happens." (PyStr.quoted "done")
  = Ok (set_state Sample.after_look (Json.JStr "done")).
Proof.
  apply (update_state_non_object_reply JsonLoads.loads Sample.after_look
           "Nothing happens." (PyStr.quoted "done")
           (Sample.state_with [Json.JStr "look"]) (Json.JStr "done"));
    try reflexivity.
  left. exists "done". reflexivity.
Defined.

Lemma track_creates_list_witness :
  ZipActAgent.track
    (Json.JObj [("goal_state", Json.JObj [])]) (Some "look")
  = Ok (Json.JObj
          [("goal_state", Json.JObj []);
           ("constraint_state",
            Json.JObj [("attempted_actions", Json.JArr [Json.JStr "look"]);
                       ("negative_constraints", Json.JArr []);
                       ("visited_locations", Json.JArr [])])]).
Proof.
  apply (proj1 (track_creates_list [("goal_state", Json.JObj [])] "look"
                  eq_refl)).
  reflexivity.
Defined.

Lemma track_twice_witness :
  ZipActAgent.track (Sample.state_with [Json.JStr "look"]) (Some "look")
  = Ok (Sample.state_with [Json.JStr "look"]).
Proof.
  apply (track_twice ZipActAgent._get_empty_state
           (Sample.state_with [Json.JStr "look"]) [] (Some "look"));
    reflexivity.
Defined.

(** ** The logger *)

Section LoggerFacts.

Import Logger.

(** X7. Whatever the calls made on a new logger, the lines of the JSONL file
    are the finished episodes in order, and each finished episode records as
    its number of steps the number of the steps logged for it. *)
Theorem logger_file_mirrors_episodes :
  forall ops : list LoggerOps.op,
    let lg := LoggerOps.run Logger.init ops in
    log_file lg = episodes lg
    /\ Forall (fun ep => num_steps ep = Z.of_nat (List.length (steps ep)))
         (episodes lg).
Proof.
  intros ops. unfold LoggerOps.run.
  assert (Hinv : forall lg,
             log_file lg = episodes lg
             /\ Forall (fun ep => num_steps ep = Z.of_nat (List.length (steps ep)))
                  (episodes lg) ->
             log_file (fold_left LoggerOps.apply ops lg)
             = episodes (fold_left LoggerOps.apply ops lg)
             /\ Forall (fun ep => num_steps ep = Z.of_nat (List.length (steps ep)))
                  (episodes (fold_left LoggerOps.apply ops lg))).
  { induction ops as [|o ops IH]; intros lg H; [exact H|].
    cbn [fold_left]. apply IH. destruct H as [Hf Hn].
    destruct o as [task eid|n o t a st|success reward usage|];
      cbn [LoggerOps.apply].
    - split; assumption.
    - unfold log_step. destruct (current_episode lg); split; assumption.
    - unfold end_episode. destruct (current_episode lg) as [ep|];
        [|split; assumption].
      cbn [log_file episodes]. split; [rewrite Hf; reflexivity|].
      apply Forall_app. split; [exact Hn|]. constructor; [reflexivity|constructor].
    - assert (Hk : log_file (fst (save_summary lg)) = log_file lg
                   /\ episodes (fst (save_summary lg)) = episodes lg).
      { unfold save_summary. destruct (episodes lg) eqn:E;
          cbn [fst log_file episodes]; rewrite ?E; split; reflexivity. }
      destruct Hk as [Hk1 Hk2]. rewrite Hk1, Hk2. split; assumption. }
  apply Hinv. split; [reflexivity|constructor].
Qed.

Lemma log_steps_steps sds :
  forall lg ep,
    current_episode lg = Some ep ->
    exists ep',
      current_episode (Experiment.log_steps lg sds) = Some ep'
      /\ steps ep' = (steps ep ++ map LoggerOps.stored sds)%list
      /\ episode_id ep' = episode_id ep /\ task ep' = task ep
      /\ episodes (Experiment.log_steps lg sds) = episodes lg
      /\ log_file (Experiment.log_steps lg sds) = log_file lg.
Proof.
  unfold Experiment.log_steps.
  induction sds as [|sd sds IH]; intros lg ep H; cbn [fold_left map].
  - exists ep. rewrite app_nil_r. auto 6.
  - edestruct (IH (log_step lg (step sd) (observation sd) (thought sd)
                     (action sd) (step_state sd)))
      as (ep' & Hc & Hs & Hi & Ht & He & Hf).
    + unfold log_step. rewrite H. reflexivity.
    + exists ep'. split; [exact Hc|]. rewrite Hs, Hi, Ht, He, Hf.
      cbn [steps episode_id task]. rewrite <- app_assoc.
      unfold log_step. rewrite H. cbn [episodes log_file]. auto 6.
Qed.

(** X8. An episode that is started, given its steps and ended is appended
    to the finished episodes with its steps in order, their count, and the
    success, reward and token usage of the end; no episode is left in
    progress.  An episode that was in progress at the start is dropped. *)
Theorem logger_records_episode :
  forall (lg : logger) (task : string) (episode_id : option Z)
         (sds : list step_data) (success : bool) (reward : Q)
         (token_usage : list (string * Z)),
    let lg' :=
      end_episode
        (Experiment.log_steps (start_episode lg task episode_id) sds)
        success reward token_usage in
    episodes lg'
    = (episodes lg
       ++ [mkEpisode episode_id task (map LoggerOps.stored sds) success reward
             (Z.of_nat (List.length sds)) token_usage])%list
    /\ current_episode lg' = None.
Proof.
  intros lg tk eid sds sc rw usage. cbv zeta.
  destruct (log_steps_steps sds (start_episode lg tk eid) _ eq_refl)
    as (ep' & Hc & Hs & Hi & Ht & He & Hf).
  unfold end_episode. rewrite Hc. cbn [episodes current_episode].
  rewrite He, Hs, Hi, Ht. cbn [start_episode episodes steps episode_id task List.app].
  rewrite length_map. split; reflexivity.
Qed.

Lemma filter_length_le {A : Type} (f : A -> bool) (l : list A) :
  List.length (filter f l) <= List.length l.
Proof.
  induction l as [|x l IH]; simpl; [lia|]. destruct (f x); simpl; lia.
Qed.

(** X9. In the summary of a non-empty log the number of successful episodes
    lies between zero and the number of episodes, the success rate between
    zero and one, and the total of tokens is the sum of the input and output
    totals. *)
Theorem summary_bounds :
  forall lg : logger,
    episodes lg <> [] ->
    exists s,
      snd (save_summary lg) = Some s
      /\ total_episodes s = Z.of_nat (List.length (episodes lg))
      /\ (0 <= successful_episodes s <= total_episodes s)%Z
      /\ (0 <= success_rate s)%Q /\ (success_rate s <= 1)%Q
      /\ total_tokens s = (total_input_tokens s + total_output_tokens s)%Z.
Proof.
  intros lg Hne.
  assert (Hn : List.length (episodes lg) <> 0).
  { destruct (episodes lg); [contradiction|discriminate]. }
  assert (Hpos : (0 <? Z.of_nat (List.length (episodes lg)))%Z = true)
    by (apply Z.ltb_lt; lia).
  unfold save_summary.
  destruct (episodes lg) as [|ep eps'] eqn:E; [contradiction|].
  eexists. split; [reflexivity|].
  cbn [total_episodes successful_episodes success_rate total_tokens
       total_input_tokens total_output_tokens].
  rewrite Hpos, sumZ_ones.
  pose proof (filter_length_le success (ep :: eps')) as Hle.
  split; [reflexivity|]. split; [lia|].
  assert (Hq : forall a b : Z,
             (0 <= a <= b)%Z -> (0 < b)%Z ->
             (0 <= PyFloat.truediv a b)%Q /\ (PyFloat.truediv a b <= 1)%Q).
  { intros a b Hab Hb. destruct b as [|p|p]; try lia.
    rewrite truediv_pos. apply round_unit. exact Hab. }
  destruct (Hq (Z.of_nat (List.length (filter success (ep :: eps'))))
              (Z.of_nat (List.length (ep :: eps')))) as [H0 H1]; try lia.
  split; [exact H0|]. split; [exact H1|reflexivity].
Qed.

End LoggerFacts.

Lemma summary_bounds_witness :
  exists s,
    snd (Logger.save_summary SampleLog.logger) = Some s
    /\ Logger.total_episodes s = 2%Z
    /\ (0 <= Logger.successful_episodes s <= Logger.total_episodes s)%Z
    /\ (0 <= Logger.success_rate s)%Q /\ (Logger.success_rate s <= 1)%Q
    /\ Logger.total_tokens s
       = (Logger.total_input_tokens s + Logger.total_output_tokens s)%Z.
Proof.
  apply (summary_bounds SampleLog.logger). discriminate.
Defined.

(** ** The episode loop, for any agent and environment *)

Section EpisodeAccounts.

Variables Env Agent : Type.
Variable env_reset : Env -> Env * string.
Variable env_get_task : Env -> string.
Variable env_step : Env -> string -> Env * string * Q * bool.
Variable agent_reset : Agent -> string -> result Agent.
Variable agent_step : Agent -> string -> result (Agent * string).
Variable agent_last_thought : Agent -> string.
Variable agent_get_state : Agent -> result (option Json.json).
Variable is_reflexion : bool.
Variable agent_reflect : Agent -> bool -> string -> Agent.

Let loop :=
  Experiment.loop Env Agent env_step agent_step agent_last_thought
    agent_get_state is_reflexion agent_reflect.

Let run_episode :=
  Experiment.run_episode Env Agent env_reset env_get_task env_step agent_reset
    agent_step agent_last_thought agent_get_state is_reflexion agent_reflect.

(** X10. With [max_steps <= 0] the loop body never runs: once the agent is
    reset, [run_episode] raises [UnboundLocalError] (the variable [step] of
    its last statements has no value) without any call of [agent.step]. *)
Theorem run_episode_without_steps :
  forall (ag ag0 : Agent) (env : Env) (max_steps : Z)
         (lg : option Logger.logger) (episode_id : option Z),
    (max_steps <= 0)%Z ->
    agent_reset ag (env_get_task (fst (env_reset env))) = Ok ag0 ->
    run_episode ag env max_steps lg episode_id
    = Experiment.mkRun 0 [] (Raise UnboundLocalError).
Proof.
  intros ag ag0 env max_steps lg eid Hle Hr.
  unfold run_episode, Experiment.run_episode.
  destruct (env_reset env) as [env1 obs]. cbn [fst] in Hr. rewrite Hr.
  replace (Z.to_nat max_steps) with 0 by lia. reflexivity.
Qed.

Lemma finish_fields (max_steps : Z) (success : bool) (n : nat) (ag : Agent)
  (env : Env) (lg : option Logger.logger) (total : Q)
  (fin : Experiment.finished Env Agent) :
  Experiment.finish Env Agent is_reflexion agent_reflect max_steps success
    (S n) ag env lg total = Ok fin ->
  Experiment.total_reward fin = total
  /\ Experiment.steps fin = Z.of_nat (S n)
  /\ Experiment.end_logger fin = lg.
Proof.
  unfold Experiment.finish. cbv beta iota zeta. intros H.
  set (k := Z.of_nat (S n)) in *.
  assert (Hk : k = Z.of_nat (S n)) by reflexivity. clearbody k.
  injection H as H. rewrite <- H.
  cbn [Experiment.total_reward Experiment.steps Experiment.end_logger].
  split; [reflexivity|]. split; [lia|reflexivity].
Qed.

Lemma loop_accounts (max_steps : Z) (remaining : nat) :
  forall step ag env lg obs total fin,
    Experiment.outcome (loop max_steps remaining step ag env lg obs total)
    = Ok fin ->
    let r := loop max_steps remaining step ag env lg obs total in
    Experiment.total_reward fin = reward_sum total (Experiment.env_results r)
    /\ Experiment.steps fin = Z.of_nat (step + Experiment.step_calls r)
    /\ List.length (Experiment.env_results r) = Experiment.step_calls r
    /\ 1 <= step + Experiment.step_calls r
    /\ forall l ep,
         lg = Some l -> Logger.current_episode l = Some ep ->
         exists l' ep',
           Experiment.end_logger fin = Some l'
           /\ Logger.current_episode l' = Some ep'
           /\ map Logger.step (Logger.steps ep')
              = (map Logger.step (Logger.steps ep)
                 ++ map Z.of_nat (seq (S step) (Experiment.step_calls r)))%list
           /\ Logger.episodes l' = Logger.episodes l.
Proof.
  induction remaining as [|remaining IH];
    intros step ag env lg obs total fin H; cbv zeta.
  - unfold loop in *.
    cbn [Experiment.loop Experiment.outcome Experiment.env_results
         Experiment.step_calls] in *.
    destruct step as [|step]; [discriminate|].
    destruct (finish_fields _ _ _ _ _ _ _ _ H) as (Ft & Fs & Fl).
    rewrite Ft, Fs, Fl.
    cbn [reward_sum map fold_left List.length seq].
    split; [reflexivity|].
    split; [f_equal; lia|]. split; [reflexivity|]. split; [lia|].
    intros l ep -> Hc. exists l, ep. rewrite app_nil_r. auto.
  - unfold loop in H |- *. cbn [Experiment.loop] in H |- *. fold loop in H |- *.
    destruct (agent_step ag obs) as [[ag1 action]|e]; [|discriminate].
    destruct lg as [l0|].
    + destruct (agent_get_state ag1) as [st|e]; [|discriminate].
      destruct (env_step env action) as [[[env1 obs1] reward] done].
      destruct done.
      * cbn [Experiment.outcome Experiment.env_results Experiment.step_calls] in *.
        destruct (finish_fields _ _ _ _ _ _ _ _ H) as (Ft & Fs & Fl).
        rewrite Ft, Fs, Fl.
        cbn [reward_sum map fold_left fst List.length seq].
        split; [reflexivity|].
        split; [f_equal; lia|]. split; [reflexivity|]. split; [lia|].
        intros l ep E Hc. inversion E; subst l0.
        unfold Logger.log_step. rewrite Hc. eexists. eexists.
        split; [reflexivity|]. split; [reflexivity|].
        cbn [Logger.steps Logger.episodes]. rewrite map_app.
        cbn [map Logger.step]. split; [|reflexivity].
        f_equal. f_equal. lia.
      * cbn [Experiment.outcome Experiment.env_results Experiment.step_calls] in *.
        destruct (IH _ _ _ _ _ _ _ H) as (Ht & Hs & Hl & Hone & Hlog).
        cbn [reward_sum map fold_left fst List.length].
        split; [rewrite Ht; reflexivity|].
        split; [rewrite Hs; f_equal; lia|]. split; [rewrite Hl; reflexivity|].
        split; [lia|].
        intros l ep E Hc. inversion E; subst l0.
        edestruct Hlog as (l' & ep' & He & Hc' & Hm & Hep);
          [reflexivity|unfold Logger.log_step; rewrite Hc; reflexivity|].
        exists l', ep'. split; [exact He|]. split; [exact Hc'|].
        rewrite Hm, Hep. cbn [Logger.steps Logger.episodes].
        unfold Logger.log_step. rewrite Hc. cbn [Logger.episodes].
        rewrite map_app. cbn [map Logger.step seq]. rewrite <- app_assoc.
        split; [|reflexivity]. f_equal. cbn [List.app]. f_equal. lia.
    + destruct (env_step env action) as [[[env1 obs1] reward] done].
      destruct done.
      * cbn [Experiment.outcome Experiment.env_results Experiment.step_calls] in *.
        destruct (finish_fields _ _ _ _ _ _ _ _ H) as (Ft & Fs & Fl).
        rewrite Ft, Fs, Fl.
        cbn [reward_sum map fold_left fst List.length seq].
        split; [reflexivity|].
        split; [f_equal; lia|]. split; [reflexivity|]. split; [lia|].
        intros l ep E. discriminate.
      * cbn [Experiment.outcome Experiment.env_results Experiment.step_calls] in *.
        destruct (IH _ _ _ _ _ _ _ H) as (Ht & Hs & Hl & Hone & Hlog).
        cbn [reward_sum map fold_left fst List.length].
        split; [rewrite Ht; reflexivity|].
        split; [rewrite Hs; f_equal; lia|]. split; [rewrite Hl; reflexivity|].
        split; [lia|].
        intros l ep E. discriminate.
Qed.

(** X11. Whenever [run_episode] returns, for any agent and environment, the
    total reward it returns is what the rewards of the steps of the
    environment give when they are added up from zero in the order of the
    steps, each addition being the addition of floats (the nearest float to
    the exact sum); the step count it returns is the number of these steps,
    which is the number of calls of [agent.step] and at least one. *)
Theorem run_episode_accounts :
  forall (ag : Agent) (env : Env) (max_steps : Z) (lg : option Logger.logger)
         (episode_id : option Z) (fin : Experiment.finished Env Agent),
    let r := run_episode ag env max_steps lg episode_id in
    Experiment.outcome r = Ok fin ->
    Experiment.total_reward fin = reward_sum 0 (Experiment.env_results r)
    /\ Experiment.steps fin = Z.of_nat (List.length (Experiment.env_results r))
    /\ List.length (Experiment.env_results r) = Experiment.step_calls r
    /\ 1 <= Experiment.step_calls r.
Proof.
  intros ag env max_steps lg eid fin. cbv zeta.
  unfold run_episode, Experiment.run_episode.
  destruct (env_reset env) as [env1 obs].
  destruct (agent_reset ag (env_get_task env1)) as [ag1|e]; [|discriminate].
  fold loop. intros H.
  destruct (loop_accounts _ _ _ _ _ _ _ _ _ H) as (Ht & Hs & Hl & Hone & _).
  split; [exact Ht|].
  split; [rewrite Hs, Hl; reflexivity|]. split; [exact Hl|exact Hone].
Qed.

(** X12. Whenever [run_episode] is given a logger and returns, the episode
    in progress in the logger holds one step record for each step made,
    numbered from one in order, and the finished episodes are untouched: the
    count that [end_episode] will record is the step count returned. *)
Theorem run_episode_logs_each_step :
  forall (ag : Agent) (env : Env) (max_steps : Z) (l : Logger.logger)
         (episode_id : option Z) (fin : Experiment.finished Env Agent),
    let r := run_episode ag env max_steps (Some l) episode_id in
    Experiment.outcome r = Ok fin ->
    exists l' ep,
      Experiment.end_logger fin = Some l'
      /\ Logger.current_episode l' = Some ep
      /\ map Logger.step (Logger.steps ep)
         = map Z.of_nat (seq 1 (Experiment.step_calls r))
      /\ Z.of_nat (List.length (Logger.steps ep)) = Experiment.steps fin
      /\ Logger.episodes l' = Logger.episodes l.
Proof.
  intros ag env max_steps l eid fin. cbv zeta.
  unfold run_episode, Experiment.run_episode.
  destruct (env_reset env) as [env1 obs].
  destruct (agent_reset ag (env_get_task env1)) as [ag1|e]; [|discriminate].
  fold loop. cbn [option_map]. intros H.
  destruct (loop_accounts _ _ _ _ _ _ _ _ _ H) as (_ & Hs & Hl & _ & Hlog).
  destruct (Hlog _ _ eq_refl eq_refl) as (l' & ep & He & Hc & Hm & Hep).
  exists l', ep. split; [exact He|]. split; [exact Hc|].
  cbn [Logger.steps map List.app] in Hm. split; [exact Hm|].
  split; [|exact Hep].
  rewrite Hs. cbn [Nat.add]. f_equal.
  rewrite <- (length_map Logger.step), Hm, length_map, length_seq. reflexivity.
Qed.

End EpisodeAccounts.


Lemma run_episode_without_steps_witness :
  Experiment.run_episode SampleRun.env ObservationMaskingAgent.agent
    SampleRun.env_reset SampleRun.env_get_task SampleRun.env_step
    SampleRun.agent_reset SampleRun.agent_step
    ObservationMaskingAgent.last_thought SampleRun.agent_get_state
    false SampleRun.agent_reflect
    (SampleRun.new_agent 50) (SampleRun.mkEnv 2 0) 0%Z (Some Logger.init)
    (Some 1%Z)
  = Experiment.mkRun 0 [] (Raise UnboundLocalError).
Proof.
  apply (run_episode_without_steps SampleRun.env ObservationMaskingAgent.agent
           SampleRun.env_reset SampleRun.env_get_task SampleRun.env_step
           SampleRun.agent_reset SampleRun.agent_step
           ObservationMaskingAgent.last_thought SampleRun.agent_get_state
           false SampleRun.agent_reflect
           (SampleRun.new_agent 50)
           (ObservationMaskingAgent.reset (SampleRun.new_agent 50)
              "put a mug on the desk")).
  - lia.
  - reflexivity.
Defined.

Lemma run_episode_accounts_witness :
  let r := SampleRun.run_scores in
  exists fin,
    Experiment.outcome r = Ok fin
    /\ Experiment.total_reward fin = reward_sum 0 (Experiment.env_results r)
    /\ Experiment.steps fin = Z.of_nat (List.length (Experiment.env_results r))
    /\ List.length (Experiment.env_results r) = Experiment.step_calls r
    /\ 1 <= Experiment.step_calls r.
Proof.
  cbv zeta. eexists. split; [vm_compute; reflexivity|].
  apply (run_episode_accounts SampleRun.env ObservationMaskingAgent.agent
           SampleRun.env_reset SampleRun.env_get_task SampleRun.env_step_scores
           SampleRun.agent_reset SampleRun.agent_step
           ObservationMaskingAgent.last_thought SampleRun.agent_get_state
           false SampleRun.agent_reflect
           (SampleRun.new_agent 50) (SampleRun.mkEnv 2 0) 50%Z None None).
  vm_compute. reflexivity.
Defined.

(** The scores 0.1 and 0.2 add up to the float 0.30000000000000004, which
    is neither three tenths nor the float 0.3. *)
Example run_scores_total :
  Experiment.env_results SampleRun.run_scores
  = [(SampleRun.tenth, false); (SampleRun.fifth, true)]
  /\ option_map Experiment.total_reward
       (match Experiment.outcome SampleRun.run_scores with
        | Ok f => Some f
        | Raise _ => None
        end)
     = Some (1351079888211149 # 4503599627370496)%Q
  /\ ~ (1351079888211149 # 4503599627370496 == SampleRun.tenth + SampleRun.fifth)%Q
  /\ PyFloat.round (3 # 10) = (5404319552844595 # 18014398509481984)%Q.
Proof.
  split; [vm_compute; reflexivity|]. split; [vm_compute; reflexivity|].
  split; [vm_compute; discriminate|vm_compute; reflexivity].
Qed.

Lemma run_episode_logs_each_step_witness :
  let r := SampleRun.run_episode (SampleRun.new_agent 50) (SampleRun.mkEnv 2 0) 50 in
  exists fin l' ep,
    Experiment.outcome r = Ok fin
    /\ Experiment.end_logger fin = Some l'
    /\ Logger.current_episode l' = Some ep
    /\ map Logger.step (Logger.steps ep)
       = map Z.of_nat (seq 1 (Experiment.step_calls r))
    /\ Z.of_nat (List.length (Logger.steps ep)) = Experiment.steps fin
    /\ Logger.episodes l' = Logger.episodes Logger.init.
Proof.
  cbv zeta.
  assert (H : exists fin,
    Experiment.outcome
      (SampleRun.run_episode (SampleRun.new_agent 50) (SampleRun.mkEnv 2 0) 50)
    = Ok fin) by (eexists; vm_compute; reflexivity).
  destruct H as [fin H]. exists fin.
  destruct (run_episode_logs_each_step SampleRun.env
              ObservationMaskingAgent.agent
              SampleRun.env_reset SampleRun.env_get_task SampleRun.env_step
              SampleRun.agent_reset SampleRun.agent_step
              ObservationMaskingAgent.last_thought SampleRun.agent_get_state
              false SampleRun.agent_reflect
              (SampleRun.new_agent 50) (SampleRun.mkEnv 2 0) 50%Z
              Logger.init (Some 1%Z) fin H) as (l' & ep & R).
  exists l', ep. split; [exact H|exact R].
Defined.


(** ** The attempted actions over an episode *)

Section EpisodeOfSteps.

Import Json ZipActAgent ZipActEpisode.

Variable json_loads : string -> option json.

Lemma is_str_eq a v : is_str a v = true -> v = JStr a.
Proof.
  destruct v; try discriminate. cbn [is_str]. intros H.
  apply String.eqb_eq in H. subst. reflexivity.
Qed.

Lemma tracked_list_keeps la l x : In x l -> In x (tracked_list la l).
Proof.
  intros H. destruct (tracked_list_grows la l) as [[suffix ->] _].
  apply in_or_app. left. exact H.
Qed.

Lemma tracked_list_holds a l :
  a <> "" -> In (JStr a) (tracked_list (Some a) l).
Proof.
  intros Ha. unfold tracked_list.
  assert (Ht : PyStr.truthy a = true) by (destruct a; [contradiction|reflexivity]).
  rewrite Ht. cbn [andb].
  destruct (existsb (is_str a) l) eqn:E; cbn [negb].
  - apply existsb_exists in E. destruct E as (v & Hv & Hs).
    apply is_str_eq in Hs. subst v. exact Hv.
  - apply in_or_app. right. left. reflexivity.
Qed.

Lemma tracked_all_facts prev :
  forall l,
    (NoDup l -> NoDup (tracked_all prev l))
    /\ (forall x, In x l -> In x (tracked_all prev l))
    /\ (forall a, In (Some a) prev -> a <> "" ->
        In (JStr a) (tracked_all prev l)).
Proof.
  induction prev as [|la prev IH]; intros l.
  - cbn. split; [auto|]. split; [auto|]. intros a [].
  - unfold tracked_all. cbn [fold_left]. fold (tracked_all prev (tracked_list la l)).
    destruct (IH (tracked_list la l)) as (Hn & Hk & Hin).
    split; [intros H; apply Hn; apply tracked_list_grows; exact H|].
    split; [intros x H; apply Hk; apply tracked_list_keeps; exact H|].
    intros a [->|Ha] Hne.
    + apply Hk. apply tracked_list_holds. exact Hne.
    + apply Hin; assumption.
Qed.

(** One update with a reply that keeps a list. *)
Lemma update_state_keeps_list ag l observation response :
  holds_attempted (state ag) l ->
  keeps_list json_loads response ->
  exists st,
    _update_state json_loads ag observation response = Ok (set_state ag st)
    /\ holds_attempted st (tracked_list (last_action ag) l).
Proof.
  intros H Hk.
  destruct (update_state_cases json_loads ag l observation response H)
    as (Hfalse & Hholds & _).
  set (tracked := tracked_list (last_action ag) l) in *.
  set (st := with_attempted tracked (state ag)) in *.
  assert (Hst : holds_attempted st tracked)
    by (apply (with_attempted_holds _ l); exact H).
  unfold keeps_list in Hk.
  assert (Hcases :
    truthy (_parse_json json_loads response (Some st)) = false
    \/ exists l', holds_attempted (_parse_json json_loads response (Some st)) l').
  { unfold _parse_json.
    destruct (payload response) as [json_str|]; [|right; exists tracked; exact Hst].
    destruct (json_loads (PyRe.sub_trailing_commas json_str)) as [v|];
      [exact Hk|right; exists tracked; exact Hst]. }
  destruct Hcases as [Hf|[l' Hl']].
  - exists st. split; [apply Hfalse; exact Hf|exact Hst].
  - eexists. split; [apply (Hholds l'); exact Hl'|].
    apply (with_attempted_holds _ l'). exact Hl'.
Qed.

(** X13. Over the steps of an episode whose updater replies keep a list
    (each fails to parse, or parses to a false value or to a state with an
    attempted-actions list), on an agent whose state holds a list and whose
    step limit is not reached: every step returns the action parsed from the
    actor's reply, and the list at the end is the list at the start after the
    tracking of the action before the episode and of every action returned
    but the last, in order.  It keeps the entries it had, gains no duplicate,
    and holds every non-empty action among these. *)
Theorem attempted_actions_follow_episode :
  forall (io : list (string * string * string)) (ag : agent) (l : list json),
    holds_attempted (state ag) l ->
    (current_step ag + Z.of_nat (List.length io) <= max_steps ag)%Z ->
    Forall (fun x => keeps_list json_loads (snd (fst x))) io ->
    let actions := map (fun x => snd (_parse_thought_action (snd x))) io in
    let prev := firstn (List.length io) (last_action ag :: map Some actions) in
    exists ag',
      steps json_loads ag io = Ok (ag', actions)
      /\ holds_attempted (state ag') (tracked_all prev l)
      /\ current_step ag' = (current_step ag + Z.of_nat (List.length io))%Z
      /\ (NoDup l -> NoDup (tracked_all prev l))
      /\ (forall x, In x l -> In x (tracked_all prev l))
      /\ (forall a, In (Some a) prev -> a <> "" ->
          In (JStr a) (tracked_all prev l)).
Proof.
  intros io ag l H Hlim Hio actions prev.
  assert (Hmain : exists ag',
    steps json_loads ag io = Ok (ag', actions)
    /\ holds_attempted (state ag') (tracked_all prev l)
    /\ current_step ag' = (current_step ag + Z.of_nat (List.length io))%Z).
  { subst actions prev. revert ag l H Hlim Hio.
    induction io as [|[[observation upd] act] io IH]; intros ag l H Hlim Hio.
    - exists ag. cbn. split; [reflexivity|]. split; [exact H|lia].
    - inversion Hio as [|? ? Hupd Hio']; subst. cbn [fst snd] in Hupd.
      cbn [steps]. unfold step, is_step_limit_reached.
      cbn [List.length] in Hlim.
      replace (max_steps ag <=? current_step ag)%Z with false
        by (symmetry; apply Z.leb_gt; lia).
      cbn [last_action].
      assert (Hupdate : exists st,
        match last_action ag with
        | Some _ =>
            _update_state json_loads
              (mkAgent (state ag) (last_action ag) (last_thought ag)
                 (current_step ag + 1) (max_steps ag)) observation upd
        | None =>
            Ok (mkAgent (state ag) (last_action ag) (last_thought ag)
                  (current_step ag + 1) (max_steps ag))
        end
        = Ok (mkAgent st (last_action ag) (last_thought ag)
                (current_step ag + 1) (max_steps ag))
        /\ holds_attempted st (tracked_list (last_action ag) l)).
      { destruct (last_action ag) as [a|] eqn:Ela.
        - destruct (update_state_keeps_list
                      (mkAgent (state ag) (Some a) (last_thought ag)
                         (current_step ag + 1) (max_steps ag))
                      l observation upd H Hupd) as (st & Hu & Hs).
          exists st. split; [exact Hu|exact Hs].
        - exists (state ag). split; [reflexivity|exact H]. }
      destruct Hupdate as (st & -> & Hst). cbn [bind].
      unfold _act.
      destruct (_parse_thought_action act) as [thought action] eqn:Ep.
      cbn [state current_step max_steps].
      destruct (IH (mkAgent st (Some action) thought (current_step ag + 1)
                      (max_steps ag))
                  (tracked_list (last_action ag) l)) as (ag' & Hs & Hh & Hc).
      + exact Hst.
      + cbn [current_step max_steps]. lia.
      + exact Hio'.
      + exists ag'. rewrite Hs. cbn [map snd List.length firstn].
        rewrite Ep. cbn [snd]. split; [reflexivity|].
        cbn [last_action] in Hh. split; [exact Hh|].
        rewrite Hc. cbn [current_step]. lia. }
  destruct Hmain as (ag' & Hs & Hh & Hc).
  destruct (tracked_all_facts prev l) as (Hn & Hk & Hin).
  exists ag'. repeat split; assumption.
Qed.

End EpisodeOfSteps.

Lemma attempted_actions_follow_episode_witness :
  exists ag',
    ZipActEpisode.steps JsonLoads.loads ZipActEpisode.sample_agent
      ZipActEpisode.sample_io
    = Ok (ag', ["look"; "go to desk 1"; "look"])
    /\ holds_attempted (ZipActAgent.state ag')
         [Json.JStr "look"; Json.JStr "go to desk 1"].
Proof.
  destruct (attempted_actions_follow_episode JsonLoads.loads
              ZipActEpisode.sample_io ZipActEpisode.sample_agent [])
    as (ag' & Hs & Hh & _).
  - reflexivity.
  - vm_compute. discriminate.
  - apply Forall_cons; [vm_compute; exact I|].
    apply Forall_cons; [vm_compute; right; eexists; reflexivity|].
    apply Forall_cons; [vm_compute; exact I|apply Forall_nil].
  - exists ag'. split; [exact Hs|exact Hh].
Defined.


(** ** The repair on texts that are JSON already *)

Section RepairOfValidJson.

Import Json JsonLoads TrailingCommas.

(** A token list that the parser accepts has no comma just before a closing
    brace or bracket. *)
Lemma parse_go_no_trailing_comma ts :
  forall p v, parse_go p ts = Some v -> drop_trailing_commas ts = ts.
Proof.
  induction ts as [|t ts IH]; intros p v H; [reflexivity|].
  cbn [parse_go] in H.
  destruct (parse_step p t) as [p1|] eqn:E1; [|discriminate].
  pose proof (IH _ _ H) as Hrest.
  assert (Hkeep : drop_trailing_commas (t :: ts) = t :: drop_trailing_commas ts).
  { destruct t; try reflexivity.
    destruct ts as [|t' ts']; [reflexivity|].
    cbn [parse_go] in H.
    destruct (parse_step p1 t') as [p2|] eqn:E2; [|discriminate].
    destruct p as [m st].
    destruct m; cbn in E1; try discriminate;
      try (destruct st as [|[]]; discriminate).
    destruct st as [|[] st]; cbn in E1; try discriminate;
      inversion E1; subst p1;
      destruct t'; cbn in E2; try discriminate; reflexivity. }
  rewrite Hkeep, Hrest. reflexivity.
Qed.

(** When [json.loads] accepts the payload of a reply, it accepts the
    repaired payload too, with a value of the same kind (an object for an
    object), and [_parse_json] returns that value, not the default. *)
Lemma repair_keeps_kind :
  forall (text : string) (default : option json) (json_str : string) (v : json),
    ZipActAgent.payload text = Some json_str ->
    loads json_str = Some v ->
    exists v',
      loads (PyRe.sub_trailing_commas json_str) = Some v'
      /\ is_obj v' = is_obj v
      /\ ZipActAgent._parse_json loads text default = v'.
Proof.
  intros text default json_str v Hp Hl.
  unfold loads in Hl.
  destruct (lex json_str) as [ts|] eqn:Hlex; [|discriminate].
  unfold lex in Hlex.
  destruct (lex_sub json_str LOut LOut ts I (st_sim_refl _) Hlex)
    as (ts' & Hlex' & Hsim).
  unfold parse in Hl.
  rewrite (parse_go_no_trailing_comma _ _ _ Hl) in Hsim.
  destruct (parse_go_sim _ ts' (MValue, []) (MValue, []) v Hsim)
    as (v' & Hv' & Hobj).
  { split; [apply mode_sim_refl|constructor]. }
  { exact Hl. }
  assert (Hloads : loads (PyRe.sub_trailing_commas json_str) = Some v').
  { unfold loads, lex. rewrite Hlex'. exact Hv'. }
  exists v'. split; [exact Hloads|]. split; [symmetry; exact Hobj|].
  unfold ZipActAgent._parse_json. rewrite Hp, Hloads. reflexivity.
Qed.

(** X14. The repair leaves alone a payload that is JSON already and in
    which no comma inside a string literal is followed by white space and
    a closing brace or bracket: the text handed to [json.loads] is the
    payload itself.  So [_parse_json] returns what the decoder gives for
    the payload, the default when it raises, whatever the decoder
    [json_loads] is. *)
Theorem repair_keeps_valid_json :
  forall (json_loads : string -> option json) (text : string)
         (default : option json) (json_str : string) (v : json),
    ZipActAgent.payload text = Some json_str ->
    loads json_str = Some v ->
    strings_clean json_str = true ->
    PyRe.sub_trailing_commas json_str = json_str
    /\ ZipActAgent._parse_json json_loads text default
       = match json_loads json_str with
         | Some v' => v'
         | None => match default with Some d => d | None => JObj [] end
         end.
Proof.
  intros json_loads text default json_str v Hp Hl Hclean.
  assert (Hsub : PyRe.sub_trailing_commas json_str = json_str).
  { unfold loads in Hl.
    destruct (lex json_str) as [ts|] eqn:Hlex; [|discriminate].
    apply (sub_fixes_clean json_str LOut ts I Hlex
             (parse_go_no_trailing_comma _ _ _ Hl) Hclean). }
  split; [exact Hsub|].
  unfold ZipActAgent._parse_json. rewrite Hp, Hsub. reflexivity.
Qed.

End RepairOfValidJson.

Lemma repair_keeps_valid_json_witness :
  PyRe.sub_trailing_commas SampleJson.with_plain_strings
  = SampleJson.with_plain_strings
  /\ ZipActAgent._parse_json JsonLoads.loads SampleJson.with_plain_strings None
     = match JsonLoads.loads SampleJson.with_plain_strings with
       | Some v' => v'
       | None => Json.JObj []
       end.
Proof.
  apply (repair_keeps_valid_json JsonLoads.loads SampleJson.with_plain_strings
           None SampleJson.with_plain_strings
           (Json.JObj [("note", Json.JStr "a, b");
                       ("inventory", Json.JArr [Json.JStr "mug"; Json.JInt 2])])).
  - reflexivity.
  - reflexivity.
  - reflexivity.
Defined.

(** The sample payload comes back as it is read. *)
Example repair_keeps_plain_strings :
  TrailingCommas.strings_clean SampleJson.with_plain_strings = true
  /\ ZipActAgent._parse_json JsonLoads.loads SampleJson.with_plain_strings None
     = Json.JObj [("note", Json.JStr "a, b");
                  ("inventory", Json.JArr [Json.JStr "mug"; Json.JInt 2])]
  /\ TrailingCommas.strings_clean SampleJson.with_comma_in_string = false.
Proof. repeat split. Qed.


(** ** The fenced block of a reply *)

Section FencedPayload.

Lemma no_backtick_cons c s :
  no_backtick (String c s) = true -> c <> backtick /\ no_backtick s = true.
Proof.
  cbn [no_backtick]. intros H. apply andb_prop in H. destruct H as [Hc Hs].
  split; [|exact Hs]. intros ->. discriminate.
Qed.

Lemma prefix_other c sep s :
  c <> backtick -> prefix (String "`" sep) (String c s) = false.
Proof.
  intros Hc. cbn [prefix].
  destruct (ascii_dec "`" c) as [E|E]; [|reflexivity].
  exfalso. apply Hc. symmetry. exact E.
Qed.

Lemma prefix_same a x y : prefix (String a x) (String a y) = prefix x y.
Proof.
  cbn [prefix]. destruct (ascii_dec a a) as [_|N]; [reflexivity|contradiction].
Qed.

Lemma prefix_append sep rest : prefix sep (sep ++ rest) = true.
Proof.
  induction sep as [|a sep IH]; [destruct rest; reflexivity|].
  change (String a sep ++ rest) with (String a (sep ++ rest)).
  rewrite prefix_same. exact IH.
Qed.

Lemma split_go_skip sep x rest :
  PyStr.split_go sep (String.length x) (x ++ rest) = PyStr.split_go sep 0 rest.
Proof.
  induction x as [|c x IH]; [reflexivity|].
  change (String c x ++ rest) with (String c (x ++ rest)).
  cbn [String.length PyStr.split_go]. exact IH.
Qed.

(** At an occurrence of the separator a new piece begins. *)
Lemma split_go_at_sep a sep rest :
  PyStr.split_go (String a sep) 0 (String a sep ++ rest)
  = "" :: PyStr.split_go (String a sep) 0 rest.
Proof.
  change (String a sep ++ rest) with (String a (sep ++ rest)).
  cbn [PyStr.split_go].
  change (String a (sep ++ rest)) with (String a sep ++ rest).
  rewrite prefix_append. cbn [String.length Nat.sub]. rewrite Nat.sub_0_r.
  rewrite split_go_skip. reflexivity.
Qed.

(** A text without backtick before the first fence is the first piece. *)
Lemma split_go_plain sep body tail :
  no_backtick body = true ->
  exists h t,
    PyStr.split_go (String "`" sep) 0 tail = h :: t
    /\ PyStr.split_go (String "`" sep) 0 (body ++ tail) = (body ++ h) :: t.
Proof.
  intros Hb. induction body as [|c body IH].
  - destruct (PyStr.split_go (String "`" sep) 0 tail) as [|h t] eqn:E;
      [exfalso; apply (split_go_not_nil _ _ _ E)|].
    exists h, t. split; [reflexivity|exact E].
  - apply no_backtick_cons in Hb. destruct Hb as [Hc Hb].
    destruct (IH Hb) as (h & t & E1 & E2). exists h, t. split; [exact E1|].
    change (String c body ++ tail) with (String c (body ++ tail)).
    cbn [PyStr.split_go]. rewrite (prefix_other c sep _ Hc), E2. reflexivity.
Qed.

Lemma contains_plain sep s :
  no_backtick s = true -> PyStr.contains (String "`" sep) s = false.
Proof.
  induction s as [|c s IH]; intros H; [reflexivity|].
  apply no_backtick_cons in H. destruct H as [Hc Hs].
  cbn [PyStr.contains]. rewrite (prefix_other c sep _ Hc), (IH Hs). reflexivity.
Qed.

Lemma contains_after_plain sep pre tail :
  prefix sep tail = true -> PyStr.contains sep (pre ++ tail) = true.
Proof.
  intros H. induction pre as [|c pre IH].
  - destruct tail; cbn [append PyStr.contains]; rewrite H; reflexivity.
  - change (String c pre ++ tail) with (String c (pre ++ tail)).
    cbn [PyStr.contains]. rewrite IH. apply orb_true_r.
Qed.

Lemma append_empty_r (s : string) : s ++ "" = s.
Proof. induction s as [|c s IH]; [reflexivity|cbn; rewrite IH; reflexivity]. Qed.

(** The piece before the closing fence, cut at the next opening fence. *)
Lemma closing_fence_piece post :
  no_backtick post = true ->
  exists h t,
    PyStr.split_go "```json" 0 ("```" ++ post) = h :: t
    /\ (h = "" \/ h = "```" ++ post).
Proof.
  intros Hp.
  destruct (prefix "```json" ("```" ++ post)) eqn:E.
  - cbn [append PyStr.split_go]. cbn [append] in E. rewrite E.
    eexists. eexists. split; [reflexivity|left; reflexivity].
  - destruct (split_go_plain "``json" post "" Hp) as (h & t & E1 & E2).
    cbn [PyStr.split_go] in E1. inversion E1; subst h t.
    rewrite !append_empty_r in E2.
    assert (H1 : prefix "```json" (String "`" post) = false).
    { destruct post as [|c post]; [reflexivity|].
      apply no_backtick_cons in Hp. destruct Hp as [Hc _].
      change "```json" with (String "`" "``json").
      rewrite prefix_same. apply prefix_other. exact Hc. }
    assert (H2 : prefix "```json" (String "`" (String "`" post)) = false).
    { destruct post as [|c post]; [reflexivity|].
      apply no_backtick_cons in Hp. destruct Hp as [Hc _].
      change "```json" with (String "`" (String "`" "`json")).
      rewrite !prefix_same. apply prefix_other. exact Hc. }
    exists ("```" ++ post), []. split; [|right; reflexivity].
    cbn [append] in *.
    cbn [PyStr.split_go]. rewrite E, H2, H1, E2. reflexivity.
Qed.

Lemma payload_plain s : no_backtick s = true -> ZipActAgent.payload s = Some (PyStr.strip s).
Proof.
  intros H. unfold ZipActAgent.payload.
  rewrite (contains_plain "``json" s H), (contains_plain "``" s H). reflexivity.
Qed.

Lemma first_piece_of_body body h :
  no_backtick body = true -> h = "" \/ (exists z, h = "```" ++ z) ->
  nth_error (PyStr.split "```" (body ++ h)) 0 = Some body.
Proof.
  intros Hb Hh. unfold PyStr.split.
  destruct (split_go_plain "``" body h Hb) as (h2 & t2 & E1 & E2).
  rewrite E2. cbn [nth_error]. f_equal.
  destruct Hh as [->|[z ->]].
  - cbn in E1. inversion E1; subst. apply append_empty_r.
  - rewrite split_go_at_sep in E1. inversion E1; subst. apply append_empty_r.
Qed.

(** X15. A reply with one fenced block: when the prose before the fence, the
    body of the block and the text after the closing fence hold no backtick,
    the text handed to the decoder is the body without its surrounding white
    space, so that [_parse_json] gives what it gives on the body alone.  The
    same holds for a plain fence when the reply does not contain the opening
    fence with [json]. *)
Theorem payload_of_fenced_reply :
  forall (json_loads : string -> option Json.json) (default : option Json.json)
         (pre body post : string),
    no_backtick pre = true -> no_backtick body = true ->
    no_backtick post = true ->
    let fenced := pre ++ "```json" ++ body ++ "```" ++ post in
    let plain := pre ++ "```" ++ body ++ "```" ++ post in
    ZipActAgent.payload fenced = Some (PyStr.strip body)
    /\ ZipActAgent._parse_json json_loads fenced default
       = ZipActAgent._parse_json json_loads body default
    /\ (PyStr.contains "```json" plain = false ->
        ZipActAgent.payload plain = Some (PyStr.strip body)
        /\ ZipActAgent._parse_json json_loads plain default
           = ZipActAgent._parse_json json_loads body default).
Proof.
  intros json_loads default pre body post Hpre Hbody Hpost fenced plain.
  assert (Hf : ZipActAgent.payload fenced = Some (PyStr.strip body)).
  { unfold ZipActAgent.payload, fenced.
    rewrite (contains_after_plain "```json" pre) by apply prefix_append.
    destruct (closing_fence_piece post Hpost) as (h & t & E3 & Hh).
    assert (S2 : PyStr.split_go "```json" 0 (body ++ "```" ++ post)
                 = (body ++ h) :: t).
    { destruct (split_go_plain "``json" body ("```" ++ post) Hbody)
        as (h' & t' & E4 & E5).
      rewrite E5. rewrite E3 in E4. injection E4 as <- <-. reflexivity. }
    assert (S1 : PyStr.split "```json"
                   (pre ++ "```json" ++ body ++ "```" ++ post)
                 = pre :: (body ++ h) :: t).
    { unfold PyStr.split.
      destruct (split_go_plain "``json" pre
                  ("```json" ++ body ++ "```" ++ post) Hpre)
        as (h' & t' & E1 & E2).
      rewrite E2. rewrite split_go_at_sep, S2 in E1.
      injection E1 as <- <-. rewrite append_empty_r. reflexivity. }
    rewrite S1.
    change (nth_error (pre :: (body ++ h) :: t) 1) with (Some (body ++ h)).
    cbv beta iota.
    rewrite first_piece_of_body; [reflexivity|exact Hbody|].
    destruct Hh as [Hh|Hh]; rewrite Hh;
      [left; reflexivity|right; eexists; reflexivity]. }
  split; [exact Hf|].
  split.
  { unfold ZipActAgent._parse_json. rewrite Hf, (payload_plain body Hbody).
    reflexivity. }
  intros Hno.
  assert (Hp : ZipActAgent.payload plain = Some (PyStr.strip body)).
  { unfold ZipActAgent.payload. rewrite Hno. unfold plain.
    rewrite (contains_after_plain "```" pre) by apply prefix_append.
    assert (S2 : PyStr.split_go "```" 0 (body ++ "```" ++ post)
                 = body :: PyStr.split_go "```" 0 post).
    { destruct (split_go_plain "``" body ("```" ++ post) Hbody)
        as (h' & t' & E4 & E5).
      rewrite E5. rewrite split_go_at_sep in E4. injection E4 as <- <-.
      rewrite append_empty_r. reflexivity. }
    assert (S1 : PyStr.split "```" (pre ++ "```" ++ body ++ "```" ++ post)
                 = pre :: body :: PyStr.split_go "```" 0 post).
    { unfold PyStr.split.
      destruct (split_go_plain "``" pre ("```" ++ body ++ "```" ++ post) Hpre)
        as (h' & t' & E1 & E2).
      rewrite E2. rewrite split_go_at_sep, S2 in E1.
      injection E1 as <- <-. rewrite append_empty_r. reflexivity. }
    rewrite S1.
    change (nth_error (pre :: body :: PyStr.split_go "```" 0 post) 1)
      with (Some body).
    cbv beta iota.
    rewrite <- (append_empty_r body) at 1.
    rewrite first_piece_of_body; [reflexivity|exact Hbody|left; reflexivity]. }
  split; [exact Hp|].
  unfold ZipActAgent._parse_json. rewrite Hp, (payload_plain body Hbody).
  reflexivity.
Qed.

End FencedPayload.


Lemma payload_of_fenced_reply_witness :
  let pre := "Here is the updated state:" ++ String PyStr.nl "" in
  let body :=
    String PyStr.nl (SampleJson.with_trailing_commas ++ String PyStr.nl "") in
  ZipActAgent.payload (pre ++ "```json" ++ body ++ "```" ++ "")
  = Some (PyStr.strip body)
  /\ ZipActAgent._parse_json JsonLoads.loads
       (pre ++ "```json" ++ body ++ "```" ++ "") None
     = ZipActAgent._parse_json JsonLoads.loads body None
  /\ ZipActAgent.payload (pre ++ "```" ++ body ++ "```" ++ "")
     = Some (PyStr.strip body)
  /\ ZipActAgent._parse_json JsonLoads.loads
       (pre ++ "```" ++ body ++ "```" ++ "") None
     = ZipActAgent._parse_json JsonLoads.loads body None.
Proof.
  destruct (payload_of_fenced_reply JsonLoads.loads None
              ("Here is the updated state:" ++ String PyStr.nl "")
              (String PyStr.nl
                 (SampleJson.with_trailing_commas ++ String PyStr.nl ""))
              "") as (H1 & H2 & H3).
  - reflexivity.
  - reflexivity.
  - reflexivity.
  - split; [exact H1|]. split; [exact H2|]. apply H3. reflexivity.
Defined.


(** ** What the parsers return *)

Section ParsedAction.

Import PyStr.

Lemma lstrip_head_kept s : head_kept (lstrip s).
Proof.
  induction s as [|c s IH]; [exact I|].
  cbn [lstrip]. destruct (isspace c) eqn:E; [exact IH|exact E].
Qed.

Lemma head_kept_lstrip s : head_kept s -> lstrip s = s.
Proof. destruct s as [|c s]; [reflexivity|]. cbn. intros ->. reflexivity. Qed.

Lemma rstrip_head_kept s : head_kept s -> head_kept (rstrip s).
Proof.
  destruct s as [|c s]; [intros; exact I|].
  cbn [head_kept rstrip]. intros H. rewrite H.
  destruct (rstrip s); exact H.
Qed.

Lemma rstrip_twice s : rstrip (rstrip s) = rstrip s.
Proof.
  induction s as [|c s IH]; [reflexivity|].
  cbn [rstrip]. destruct (rstrip s) as [|d r] eqn:E.
  - destruct (isspace c) eqn:Ec; [reflexivity|]. cbn [rstrip]. rewrite Ec.
    reflexivity.
  - change (rstrip (String c (String d r)))
      with (match rstrip (String d r) with
            | "" => if isspace c then "" else String c ""
            | String a s0 => String c (String a s0)
            end).
    rewrite IH. reflexivity.
Qed.

Lemma strip_twice s : strip (strip s) = strip s.
Proof.
  unfold strip.
  rewrite (head_kept_lstrip (rstrip (lstrip s))).
  - apply rstrip_twice.
  - apply rstrip_head_kept, lstrip_head_kept.
Qed.

Lemma has_nl_cons c s :
  has_nl (String c s) = false -> Ascii.eqb c nl = false /\ has_nl s = false.
Proof. cbn [has_nl]. intros H. apply orb_false_elim in H. exact H. Qed.

Lemma has_nl_append a b :
  has_nl a = false -> has_nl b = false -> has_nl (a ++ b) = false.
Proof.
  intros Ha Hb. induction a as [|c a IH]; [exact Hb|].
  apply has_nl_cons in Ha. destruct Ha as [Hc Ha].
  cbn [append has_nl]. rewrite Hc, (IH Ha). reflexivity.
Qed.

Lemma has_nl_lstrip s : has_nl s = false -> has_nl (lstrip s) = false.
Proof.
  induction s as [|c s IH]; intros H; [reflexivity|].
  cbn [lstrip]. destruct (isspace c); [|exact H].
  apply has_nl_cons in H. apply IH, H.
Qed.

Lemma has_nl_rstrip s : has_nl s = false -> has_nl (rstrip s) = false.
Proof.
  induction s as [|c s IH]; intros H; [reflexivity|].
  apply has_nl_cons in H. destruct H as [Hc Hs]. specialize (IH Hs).
  cbn [rstrip]. destruct (rstrip s) as [|d r].
  - destruct (isspace c); [reflexivity|]. cbn [has_nl]. rewrite Hc. reflexivity.
  - cbn [has_nl] in *. rewrite Hc, IH. reflexivity.
Qed.

Lemma has_nl_strip s : has_nl s = false -> has_nl (strip s) = false.
Proof. intros H. apply has_nl_rstrip, has_nl_lstrip, H. Qed.

Lemma has_nl_replace old s :
  forall k, has_nl s = false -> has_nl (replace_go old "" k s) = false.
Proof.
  induction s as [|c s IH]; intros k H; [reflexivity|].
  apply has_nl_cons in H. destruct H as [Hc Hs].
  cbn [replace_go]. destruct k as [|k]; [|apply IH, Hs].
  destruct (prefix old (String c s)).
  - cbn [append]. apply IH, Hs.
  - cbn [has_nl]. rewrite Hc, (IH 0 Hs). reflexivity.
Qed.

(** The lines of a text hold no line feed. *)
Lemma split_lines_one_line s :
  Forall (fun line => has_nl line = false) (split (String nl "") s).
Proof.
  unfold split. induction s as [|c s IH]; [repeat constructor|].
  cbn [split_go prefix String.length Nat.sub].
  destruct (ascii_dec nl c) as [E|E].
  - destruct s; constructor; try reflexivity; exact IH.
  - assert (Hc : Ascii.eqb c nl = false).
    { apply Ascii.eqb_neq. intros ->. apply E. reflexivity. }
    destruct (split_go (String nl "") 0 s) as [|h t].
    + repeat constructor. cbn [has_nl]. rewrite Hc. reflexivity.
    + inversion IH; subst. constructor; [|assumption].
      cbn [has_nl]. rewrite Hc. assumption.
Qed.

Lemma scan_line_trimmed acc line :
  has_nl line = false -> trimmed_pair acc -> trimmed_pair (scan_line acc line).
Proof.
  intros Hl (Ht & Ha & Hn). unfold scan_line. destruct acc as [thought action].
  cbn [fst snd] in *.
  destruct (startswith "Thought:" (strip line)).
  - split; [apply strip_twice|]. split; assumption.
  - destruct (startswith "Action:" (strip line)).
    + split; [exact Ht|]. split; [apply strip_twice|].
      apply has_nl_strip. apply has_nl_replace. apply has_nl_strip. exact Hl.
    + split; [exact Ht|]. split; assumption.
Qed.

Lemma scan_lines_trimmed text : trimmed_pair (scan_lines text).
Proof.
  unfold scan_lines.
  assert (H0 : trimmed_pair ("", "look")) by (repeat split; reflexivity).
  revert H0. generalize ("", "look").
  pose proof (split_lines_one_line (strip text)) as Hl.
  induction Hl as [|line lines Hline _ IH]; intros acc Hacc; [exact Hacc|].
  cbn [fold_left]. apply IH. apply scan_line_trimmed; assumption.
Qed.

Lemma has_nl_until_nl s : has_nl (PyRe.until_nl s) = false.
Proof.
  induction s as [|c s IH]; [reflexivity|].
  cbn [PyRe.until_nl]. destruct (Ascii.eqb c nl) eqn:E; [reflexivity|].
  cbn [has_nl]. rewrite E, IH. reflexivity.
Qed.

Lemma has_nl_ci_take lit :
  forall s m rest,
    has_nl lit = false -> PyRe.ci_take lit s = Some (m, rest) ->
    has_nl m = false.
Proof.
  induction lit as [|p lit IH]; intros s m rest Hlit H.
  - cbn in H. inversion H. reflexivity.
  - apply has_nl_cons in Hlit. destruct Hlit as [Hp Hlit].
    cbn [PyRe.ci_take] in H. destruct s as [|c s]; [discriminate|].
    destruct (Ascii.eqb (PyRe.lower c) p) eqn:Ec; [|discriminate].
    destruct (PyRe.ci_take lit s) as [[m' rest']|] eqn:E; [|discriminate].
    inversion H; subst. cbn [has_nl]. rewrite (IH _ _ _ Hlit E).
    destruct (Ascii.eqb c nl) eqn:Ecn; [|reflexivity].
    apply Ascii.eqb_eq in Ecn. subst c.
    apply Ascii.eqb_eq in Ec. subst p. discriminate.
Qed.

Lemma has_nl_verbs_at verbs :
  forall prev s g,
    forallb (fun v => negb (has_nl v)) verbs = true ->
    PyRe.verbs_at verbs prev s = Some g -> has_nl g = false.
Proof.
  induction verbs as [|v verbs IH]; intros prev s g Hv H; [discriminate|].
  cbn [forallb] in Hv. apply andb_prop in Hv. destruct Hv as [Hv Hvs].
  apply negb_true_iff in Hv. cbn [PyRe.verbs_at] in H.
  destruct (PyRe.ci_take v s) as [[m rest]|] eqn:E; [|apply (IH _ _ _ Hvs H)].
  destruct (PyRe.boundary prev (PyRe.head s)
            && PyRe.boundary (PyRe.last prev m) (PyRe.head rest)
            && truthy (PyRe.until_nl rest)); [|apply (IH _ _ _ Hvs H)].
  inversion H; subst. apply has_nl_append.
  - apply (has_nl_ci_take _ _ _ _ Hv E).
  - apply has_nl_until_nl.
Qed.

Lemma has_nl_search_verbs verbs s :
  forall prev g,
    forallb (fun v => negb (has_nl v)) verbs = true ->
    PyRe.search_verbs verbs prev s = Some g -> has_nl g = false.
Proof.
  induction s as [|c s IH]; intros prev g Hv H; cbn [PyRe.search_verbs] in H.
  - destruct (PyRe.verbs_at verbs prev "") eqn:E; [|discriminate].
    inversion H; subst. apply (has_nl_verbs_at _ _ _ _ Hv E).
  - destruct (PyRe.verbs_at verbs prev (String c s)) eqn:E.
    + inversion H; subst. apply (has_nl_verbs_at _ _ _ _ Hv E).
    + apply (IH _ _ Hv H).
Qed.

Lemma has_nl_upto_rbracket s :
  forall g, PyRe.upto_rbracket s = Some g -> has_nl g = false.
Proof.
  induction s as [|c s IH]; intros g H; [discriminate|].
  cbn [PyRe.upto_rbracket] in H.
  destruct (Ascii.eqb c "]") eqn:Eb.
  - inversion H; subst. apply Ascii.eqb_eq in Eb. subst c. reflexivity.
  - destruct (Ascii.eqb c nl) eqn:En; [discriminate|].
    destruct (PyRe.upto_rbracket s) as [g'|]; [|discriminate].
    inversion H; subst. cbn [has_nl]. rewrite En, (IH _ eq_refl). reflexivity.
Qed.

Lemma has_nl_bracket_at lit s g :
  has_nl lit = false -> PyRe.bracket_at lit s = Some g -> has_nl g = false.
Proof.
  intros Hlit H. unfold PyRe.bracket_at in H.
  destruct (PyRe.ci_take lit s) as [[m rest]|] eqn:E; [|discriminate].
  unfold PyRe.lazy_bracket in H. destruct rest as [|c rest]; [discriminate|].
  destruct (Ascii.eqb c nl) eqn:En; [discriminate|].
  destruct (PyRe.upto_rbracket rest) as [g'|] eqn:Eu; [|discriminate].
  inversion H; subst. apply has_nl_append.
  - apply (has_nl_ci_take _ _ _ _ Hlit E).
  - cbn [has_nl]. rewrite En, (has_nl_upto_rbracket _ _ Eu). reflexivity.
Qed.

Lemma has_nl_search_webshop s :
  forall g, PyRe.search_webshop s = Some g -> has_nl g = false.
Proof.
  assert (Hat : forall s g, PyRe.webshop_at s = Some g -> has_nl g = false).
  { intros s0 g H. unfold PyRe.webshop_at in H.
    destruct (PyRe.bracket_at "search[" s0) eqn:E1.
    - inversion H; subst. apply (has_nl_bracket_at "search[" s0); [reflexivity|exact E1].
    - destruct (PyRe.bracket_at "click[" s0) eqn:E2.
      + inversion H; subst.
        apply (has_nl_bracket_at "click[" s0); [reflexivity|exact E2].
      + destruct (PyRe.ci_take "back" s0) as [[m rest]|] eqn:E3; [|discriminate].
        cbn [option_map fst] in H. injection H as <-.
        apply (has_nl_ci_take "back" s0 m rest); [reflexivity|exact E3]. }
  induction s as [|c s IH]; intros g H; cbn [PyRe.search_webshop] in H.
  - destruct (PyRe.webshop_at "") eqn:E; [|discriminate].
    inversion H; subst. apply (Hat _ _ E).
  - destruct (PyRe.webshop_at (String c s)) eqn:E.
    + inversion H; subst. apply (Hat _ _ E).
    + apply (IH _ H).
Qed.

Lemma fallback_trimmed text action m :
  strip action = action -> has_nl action = false ->
  (forall g, m = Some g -> has_nl g = false) ->
  trimmed_pair (fallback text action m).
Proof.
  intros Ha Hn Hm. unfold fallback. destruct m as [g|].
  - split; [apply strip_twice|]. split; [apply strip_twice|].
    apply has_nl_strip. apply Hm. reflexivity.
  - split; [apply strip_twice|]. split; assumption.
Qed.

(** X16. Whatever the reply and the environment, the thought and the action
    that a parser returns have no white space at either end, and the action
    holds no line feed: it is one line, or empty. *)
Theorem parsed_action_is_one_line :
  forall (environment text : string),
    trimmed_pair (ObservationMaskingAgent._parse_thought_action environment text)
    /\ trimmed_pair (ZipActAgent._parse_thought_action text)
    /\ trimmed_pair (ReActAgent._parse_thought_action text).
Proof.
  intros environment text.
  pose proof (scan_lines_trimmed text) as Hs.
  assert (Half : forall g, PyRe.search_alfworld text = Some g -> has_nl g = false).
  { intros g. apply has_nl_search_verbs. reflexivity. }
  assert (Hsci : forall g, PyRe.search_sciworld text = Some g -> has_nl g = false).
  { intros g. apply has_nl_search_verbs. reflexivity. }
  unfold ObservationMaskingAgent._parse_thought_action,
    ZipActAgent._parse_thought_action, ReActAgent._parse_thought_action.
  destruct (scan_lines text) as [thought action].
  destruct Hs as (Ht & Ha & Hn). cbn [fst snd] in Ht, Ha, Hn.
  destruct (negb (truthy thought) && negb (truthy action)).
  - split; [|split]; try (apply fallback_trimmed; assumption).
    apply fallback_trimmed; try assumption.
    destruct (String.eqb environment "webshop");
      [apply has_nl_search_webshop|].
    destruct (String.eqb environment "sciworld"); assumption.
  - repeat split; assumption.
Qed.

End ParsedAction.


(** ** The step limit of the masked-history agent *)

Section MaskedStepLimit.

Import ObservationMaskingAgent.

Lemma steps_limit (io : list (string * string)) :
  forall ag,
    (io = [] \/ (current_step ag + Z.of_nat (List.length io) <= max_steps ag)%Z ->
     exists ag',
       steps ag io = Ok ag'
       /\ current_step ag' = (current_step ag + Z.of_nat (List.length io))%Z
       /\ max_steps ag' = max_steps ag)
    /\ (io <> [] ->
        (max_steps ag < current_step ag + Z.of_nat (List.length io))%Z ->
        steps ag io = Raise StopIteration).
Proof.
  induction io as [|[observation response] io IH]; intros ag.
  - split; [|intros H; contradiction].
    intros _. exists ag. cbn. split; [reflexivity|]. split; [lia|reflexivity].
  - cbn [steps List.length]. unfold step, is_step_limit_reached.
    destruct (max_steps ag <=? current_step ag)%Z eqn:E.
    + apply Z.leb_le in E. split; [|reflexivity].
      intros [H|H]; [discriminate|lia].
    + apply Z.leb_gt in E.
      destruct (_parse_thought_action (environment (observe ag observation))
                  response) as [thought action].
      match goal with
      | |- context [steps ?a io] => destruct (IH a) as [Hok Hstop]
      end.
      cbn [current_step max_steps observe] in Hok, Hstop.
      split.
      * intros [H|H]; [discriminate|].
        destruct Hok as (ag' & Hs & Hc & Hm).
        { destruct io; [left; reflexivity|right; cbn [List.length] in *; lia]. }
        exists ag'. split; [exact Hs|]. split; [lia|exact Hm].
      * intros _ H. apply Hstop; [|lia].
        intros ->. cbn [List.length] in H. lia.
Qed.

(** X17. From [reset], the steps of an episode all return when their number
    is at most the step limit of the agent, and the agent has counted them;
    with more steps than the limit the episode ends in [StopIteration]. *)
Theorem masked_steps_stop_at_limit :
  forall (ag : agent) (task : string) (io : list (string * string)),
    if (Z.of_nat (List.length io) <=? Z.max 0 (max_steps ag))%Z
    then exists ag',
           steps (reset ag task) io = Ok ag'
           /\ current_step ag' = Z.of_nat (List.length io)
           /\ List.length (observations ag') = List.length io
           /\ List.length (actions ag') = List.length io
    else steps (reset ag task) io = Raise StopIteration.
Proof.
  intros ag task io.
  destruct (steps_limit io (reset ag task)) as [Hok Hstop].
  cbn [reset current_step max_steps] in Hok, Hstop.
  destruct (Z.of_nat (List.length io) <=? Z.max 0 (max_steps ag))%Z eqn:E.
  - apply Z.leb_le in E.
    destruct Hok as (ag' & Hs & Hc & _).
    { destruct io; [left; reflexivity|right; cbn [List.length] in *; lia]. }
    exists ag'. split; [exact Hs|]. split; [lia|].
    destruct (steps_store io _ _ Hs) as (_ & _ & Ho & _ & Ha).
    rewrite Ho, Ha. cbn [reset observations actions List.app].
    rewrite !length_map. split; reflexivity.
  - apply Z.leb_gt in E. apply Hstop; [|lia].
    intros ->. cbn [List.length] in E. lia.
Qed.

End MaskedStepLimit.


(** ** The history of the summarising agent *)

Section SummaryHistory.

Import SummaryAgent.

Local Open Scope Z_scope.

Lemma history_invariant_next two h :
  1 <= two -> history_invariant two h ->
  (h + 1 < two \/ (h + 1) mod two <> 0) ->
  history_invariant two (h + 3).
Proof.
  intros Htwo [(H3 & H0 & [[Hm Hlt]|[Hm Hlt]])|(j & -> & Hj)] Hnot.
  - assert (Hne : h + 1 <> two).
    { intros E. destruct Hnot as [Hnot|Hnot]; [lia|].
      apply Hnot. rewrite E. apply Z.mod_same. lia. }
    clear Hnot. left.
    assert ((h + 3) mod 3 = 0 /\ h + 3 < two)
      by (Z.div_mod_to_equations; lia).
    intuition lia.
  - assert (Hne : h + 1 <> 2 * two).
    { intros E. destruct Hnot as [Hnot|Hnot]; [lia|].
      apply Hnot. rewrite E. apply Z_mod_mult. }
    clear Hnot. left.
    assert ((h + 3) mod 3 = 0 /\ h + 3 < 2 * two)
      by (Z.div_mod_to_equations; lia).
    intuition lia.
  - assert (Hne : j <> two - 1).
    { intros E. destruct Hnot as [Hnot|Hnot]; [lia|].
      apply Hnot. replace (two + 2 + 3 * j + 1) with (4 * two) by lia.
      apply Z_mod_mult. }
    right. exists (j + 1). lia.
Qed.

Lemma history_invariant_bound two h :
  1 <= two -> history_invariant two h -> 0 <= h <= 4 * two - 1.
Proof.
  intros Htwo [(H3 & H0 & [[Hm Hlt]|[Hm Hlt]])|(j & -> & Hj)]; lia.
Qed.

Lemma slice_last_length n (l : list string) :
  0 < n <= Z.of_nat (List.length l) ->
  Z.of_nat (List.length (slice_last n l)) = n.
Proof.
  intros H. unfold slice_last.
  replace (- n <? 0) with true by (symmetry; apply Z.ltb_lt; lia).
  rewrite length_skipn. lia.
Qed.

(** What a step that returns does to the agent. *)
Lemma step_returns ag observation summary_reply response ag' action :
  step ag observation summary_reply response = Returns (ag', action) ->
  let two := summary_interval ag * 2 in
  let c := Z.of_nat (List.length (history ag)) + 1 in
  summary_interval ag' = summary_interval ag
  /\ max_steps ag' = max_steps ag
  /\ current_step ag' = current_step ag + 1
  /\ current_step ag < max_steps ag
  /\ ((two <> 0 /\ two <= c /\ c mod two = 0
       /\ (0 < two -> Z.of_nat (List.length (history ag')) = two + 2)
       /\ summary ag' = PyStr.strip summary_reply)
      \/ ((c < two \/ c mod two <> 0)
          /\ Z.of_nat (List.length (history ag')) = c + 2
          /\ summary ag' = summary ag)).
Proof.
  unfold step, is_step_limit_reached.
  destruct (max_steps ag <=? current_step ag) eqn:El; [discriminate|].
  apply Z.leb_gt in El. unfold should_summarize.
  cbn [history summary_interval].
  rewrite length_app. cbn [List.length]. rewrite Nat2Z.inj_add.
  change (Z.of_nat 1) with 1.
  set (two := summary_interval ag * 2).
  set (c := Z.of_nat (List.length (history ag)) + 1).
  destruct (two <=? c) eqn:E1.
  - apply Z.leb_le in E1.
    destruct (two =? 0) eqn:E2; [discriminate|]. apply Z.eqb_neq in E2.
    destruct (c mod two =? 0) eqn:E3.
    + apply Z.eqb_eq in E3.
      cbn [_summarize_history environment summary_interval history summary
           instruction current_step max_steps].
      destruct (_parse_thought_action (environment ag) response)
        as [thought act].
      intros H. injection H as <- <-.
      cbn [summary_interval max_steps current_step history summary].
      repeat (split; [first [reflexivity|exact El]|]).
      left.
      split; [exact E2|]. split; [exact E1|]. split; [exact E3|].
      split; [|reflexivity]. intros Hpos.
      rewrite length_app. cbn [List.length]. rewrite Nat2Z.inj_add.
      fold two. rewrite slice_last_length; [lia|].
      rewrite length_app. cbn [List.length]. unfold c in E1. lia.
    + apply Z.eqb_neq in E3.
      cbn [environment summary_interval history summary instruction
           current_step max_steps].
      destruct (_parse_thought_action (environment ag) response)
        as [thought act].
      intros H. injection H as <- <-.
      cbn [summary_interval max_steps current_step history summary].
      repeat (split; [first [reflexivity|exact El]|]).
      right. split; [right; exact E3|]. split; [|reflexivity].
      rewrite !length_app. cbn [List.length]. unfold c. lia.
  - apply Z.leb_gt in E1.
    cbn [environment summary_interval history summary instruction
         current_step max_steps].
    destruct (_parse_thought_action (environment ag) response)
      as [thought act].
    intros H. injection H as <- <-.
    cbn [summary_interval max_steps current_step history summary].
    repeat (split; [first [reflexivity|exact El]|]).
    right. split; [left; exact E1|]. split; [|reflexivity].
    rewrite !length_app. cbn [List.length]. unfold c. lia.
Qed.

(** X18. With a summary interval [k >= 1] that is no multiple of three,
    from [reset], the history never holds more than [8k - 1] entries,
    whatever the steps and the replies: it is cut back to [2k] entries before
    it can grow further. *)
Theorem summary_history_bounded :
  forall (ag ag' : agent) (task : string) (io : list (string * string * string)),
    1 <= summary_interval ag ->
    summary_interval ag mod 3 <> 0 ->
    steps (reset ag task) io = Returns ag' ->
    Z.of_nat (List.length (history ag')) <= 8 * summary_interval ag - 1.
Proof.
  intros ag ag' task io Hk H3 Hs.
  set (k := summary_interval ag) in *.
  assert (Htwo : 1 <= k * 2) by lia.
  assert (Hgen : forall io a a',
    summary_interval a = k ->
    history_invariant (k * 2) (Z.of_nat (List.length (history a))) ->
    steps a io = Returns a' ->
    history_invariant (k * 2) (Z.of_nat (List.length (history a')))).
  { clear Hs io ag'. induction io as [|[[o sr] r] io IH]; intros a a' Hka Hinv Hs.
    - cbn in Hs. injection Hs as <-. exact Hinv.
    - cbn [steps] in Hs.
      destruct (step a o sr r) as [[a1 act]|e] eqn:E; [|discriminate].
      apply step_returns in E. cbv zeta in E. rewrite Hka in E.
      destruct E as (Hk1 & _ & _ & _ & Hcase).
      apply (IH a1 a'); [exact Hk1| |exact Hs].
      destruct Hcase as [(_ & Hc & Hm & Hl & _)|(Hnot & Hl & _)].
      + rewrite Hl by lia. right. exists 0. lia.
      + rewrite Hl. replace (Z.of_nat (List.length (history a)) + 1 + 2)
          with (Z.of_nat (List.length (history a)) + 3) by lia.
        apply history_invariant_next; assumption. }
  assert (Hinv : history_invariant (k * 2)
                   (Z.of_nat (List.length (history ag')))).
  { apply (Hgen io (reset ag task) ag'); [reflexivity| |exact Hs].
    cbn [reset history List.length]. left.
    split; [reflexivity|]. split; [lia|].
    assert ((k * 2) mod 3 = 1 \/ (k * 2) mod 3 = 2)
      by (Z.div_mod_to_equations; lia).
    lia. }
  pose proof (history_invariant_bound _ _ Htwo Hinv). lia.
Qed.

Lemma never_multiple two c :
  0 < two -> two mod 3 = 0 -> c mod 3 = 1 -> c mod two <> 0.
Proof.
  intros Hp H3 Hc H.
  apply Z.mod_divide in H; [|lia]. apply Z.mod_divide in H3; [|lia].
  pose proof (Z.divide_trans _ _ _ H3 H) as Hd.
  apply Z.mod_divide in Hd; lia.
Qed.

(** X19. With a positive summary interval that is a multiple of three, no
    step ever summarises: from [reset], after any number of steps, the
    summary is still empty and the history holds three entries for each
    step. *)
Theorem summary_never_made :
  forall (ag ag' : agent) (task : string) (io : list (string * string * string)),
    0 < summary_interval ag ->
    summary_interval ag mod 3 = 0 ->
    steps (reset ag task) io = Returns ag' ->
    summary ag' = ""%string
    /\ List.length (history ag') = (3 * List.length io)%nat.
Proof.
  intros ag ag' task io Hk H3 Hs.
  set (k := summary_interval ag) in *.
  assert (Hgen : forall io a a',
    summary_interval a = k -> summary a = ""%string ->
    Z.of_nat (List.length (history a)) mod 3 = 0 ->
    steps a io = Returns a' ->
    summary a' = ""%string
    /\ Z.of_nat (List.length (history a'))
       = Z.of_nat (List.length (history a)) + 3 * Z.of_nat (List.length io)).
  { clear Hs io ag'. induction io as [|[[o sr] r] io IH]; intros a a' Hka Hsum Hm Hs.
    - cbn in Hs. injection Hs as <-. split; [exact Hsum|cbn; lia].
    - cbn [steps] in Hs.
      destruct (step a o sr r) as [[a1 act]|e] eqn:E; [|discriminate].
      apply step_returns in E. cbv zeta in E. rewrite Hka in E.
      destruct E as (Hk1 & _ & _ & _ & Hcase).
      assert (Hno : (Z.of_nat (List.length (history a)) + 1) mod (k * 2) <> 0).
      { apply never_multiple; [lia| |];
          Z.div_mod_to_equations; lia. }
      destruct Hcase as [(_ & _ & Hmod & _)|(_ & Hl & Hs1)]; [contradiction|].
      destruct (IH a1 a') as [Hsum' Hlen'].
      + exact Hk1.
      + rewrite Hs1. exact Hsum.
      + rewrite Hl. Z.div_mod_to_equations; lia.
      + exact Hs.
      + split; [exact Hsum'|]. rewrite Hlen', Hl. cbn [List.length]. lia. }
  destruct (Hgen io (reset ag task) ag') as [Hsum Hlen];
    try reflexivity; [exact Hs|].
  split; [exact Hsum|]. cbn [reset history List.length] in Hlen. lia.
Qed.

(** X20. With the summary interval zero no episode can be run: from
    [reset], the first step raises [ZeroDivisionError] at its test, or
    [StopIteration] when the step limit is not positive. *)
Theorem summary_interval_zero :
  forall (ag : agent) (task : string) (io : list (string * string * string)),
    summary_interval ag = 0 -> io <> [] ->
    steps (reset ag task) io
    = Raises (if 0 <? max_steps ag then ZeroDivisionError
              else Exn StopIteration).
Proof.
  intros ag task io Hk Hio.
  destruct io as [|[[o sr] r] io]; [contradiction|].
  cbn [steps]. unfold step, is_step_limit_reached.
  cbn [reset max_steps current_step].
  rewrite Z.leb_antisym. destruct (0 <? max_steps ag); [|reflexivity].
  cbn [negb]. unfold should_summarize, reset.
  cbn [history summary_interval List.app List.length].
  rewrite Hk. reflexivity.
Qed.

End SummaryHistory.

Lemma summary_history_bounded_witness :
  exists ag',
    SummaryAgent.steps (SummaryAgent.reset SummaryAgent.sample_agent "task")
      SummaryAgent.sample_io = SummaryAgent.Returns ag'
    /\ (Z.of_nat (List.length (SummaryAgent.history ag')) <= 79)%Z.
Proof.
  eexists. split; [vm_compute; reflexivity|].
  apply (summary_history_bounded SummaryAgent.sample_agent _ "task"
           SummaryAgent.sample_io).
  - vm_compute. discriminate.
  - vm_compute. discriminate.
  - vm_compute. reflexivity.
Defined.

Lemma summary_never_made_witness :
  let ag := SummaryAgent.mkAgent "alfworld" 3 [] "" "" "" 0 50 in
  exists ag',
    SummaryAgent.steps (SummaryAgent.reset ag "task") SummaryAgent.sample_io
    = SummaryAgent.Returns ag'
    /\ SummaryAgent.summary ag' = ""
    /\ List.length (SummaryAgent.history ag') = 60.
Proof.
  cbv zeta. eexists. split; [vm_compute; reflexivity|].
  apply (summary_never_made (SummaryAgent.mkAgent "alfworld" 3 [] "" "" "" 0 50)
           _ "task" SummaryAgent.sample_io).
  - reflexivity.
  - reflexivity.
  - vm_compute. reflexivity.
Defined.

Lemma summary_interval_zero_witness :
  SummaryAgent.steps
    (SummaryAgent.reset (SummaryAgent.mkAgent "alfworld" 0 [] "" "" "" 0 50) "task")
    SummaryAgent.sample_io
  = SummaryAgent.Raises SummaryAgent.ZeroDivisionError.
Proof.
  apply (summary_interval_zero
           (SummaryAgent.mkAgent "alfworld" 0 [] "" "" "" 0 50) "task"
           SummaryAgent.sample_io).
  - reflexivity.
  - discriminate.
Defined.


(** ** The simplified household environment *)

Section HouseholdEnvironment.

Import ALFWorldSimpleEnv.

Lemma mem_in x l : mem x l = true -> In x l.
Proof.
  unfold mem. intros H. apply existsb_exists in H.
  destruct H as (y & Hy & E). apply String.eqb_eq in E. subst. exact Hy.
Qed.

Lemma remove_first_perm x l :
  mem x l = true -> Permutation (x :: remove_first x l) l.
Proof.
  induction l as [|y l IH]; [discriminate|].
  unfold mem. cbn [existsb remove_first].
  destruct (String.eqb x y) eqn:E.
  - intros _. apply String.eqb_eq in E. subst. apply Permutation_refl.
  - cbn [orb]. intros H.
    apply perm_trans with (y :: x :: remove_first x l); [apply perm_swap|].
    apply perm_skip. apply IH. exact H.
Qed.

Lemma remove_first_length x l :
  (List.length (remove_first x l) <= List.length l)%nat.
Proof.
  induction l as [|y l IH]; [apply le_n|].
  cbn [remove_first]. destruct (String.eqb x y); cbn [List.length]; lia.
Qed.

(** The entry of a location in the dictionary. *)
Lemma lookup_split k d items :
  lookup k d = Some items ->
  exists pre post,
    d = (pre ++ (k, items) :: post)%list
    /\ forall v, update k v d = (pre ++ (k, v) :: post)%list.
Proof.
  induction d as [|[k' v'] d IH]; [discriminate|].
  cbn [lookup]. destruct (String.eqb k k') eqn:E.
  - intros H. injection H as <-. apply String.eqb_eq in E. subst k'.
    exists [], d. split; [reflexivity|].
    intros v. cbn [update]. rewrite String.eqb_refl. reflexivity.
  - intros H. destruct (IH H) as (pre & post & -> & Hu).
    exists ((k', v') :: pre), post. split; [reflexivity|].
    intros v. cbn [update]. rewrite E, Hu. reflexivity.
Qed.

Lemma concat_entry (pre post : list (string * list string)) k (v : list string) :
  List.concat (map snd (pre ++ (k, v) :: post))
  = (List.concat (map snd pre) ++ v ++ List.concat (map snd post))%list.
Proof.
  rewrite map_app, concat_app. cbn [map snd List.concat]. reflexivity.
Qed.

Lemma keys_entry (pre post : list (string * list string)) k (v w : list string) :
  map fst (pre ++ (k, v) :: post) = map fst (pre ++ (k, w) :: post).
Proof. rewrite !map_app. reflexivity. Qed.

Lemma env_kept_refl e : env_kept e e.
Proof. unfold env_kept. repeat split; auto. Qed.

Ltac same_objects :=
  unfold env_kept, objects;
  cbn [max_steps step_count inventory locations done success];
  repeat split; auto.

Lemma go_to_kept e location : env_kept e (fst (_go_to e location)).
Proof.
  unfold _go_to. destruct (lookup location (locations e)) as [items|];
    [|apply env_kept_refl].
  destruct (closed e location); [same_objects|].
  destruct items; same_objects.
Qed.

Lemma take_kept e obj recep : env_kept e (fst (_take e obj recep)).
Proof.
  unfold _take. destruct (inventory e) as [|held inv] eqn:Ei;
    [|apply env_kept_refl].
  destruct (lookup recep (locations e)) as [items|] eqn:El;
    [|apply env_kept_refl].
  destruct (closed e recep); [apply env_kept_refl|].
  destruct (mem obj items) eqn:Em; [|apply env_kept_refl].
  destruct (lookup_split _ _ _ El) as (pre & post & Hd & Hu).
  unfold env_kept, objects.
  cbn [fst max_steps step_count inventory locations done success].
  rewrite Ei, Hu, Hd. cbn [List.app List.length].
  repeat split; auto.
  - apply keys_entry.
  - rewrite !concat_entry.
    apply perm_trans
      with (List.concat (map snd pre)
            ++ obj :: remove_first obj items ++ List.concat (map snd post))%list.
    + apply Permutation_middle.
    + apply Permutation_app_head.
      apply (Permutation_app_tail _ (remove_first_perm obj items Em)).
Qed.

Lemma put_kept e obj recep : env_kept e (fst (_put e obj recep)).
Proof.
  unfold _put. destruct (mem obj (inventory e)) eqn:Em; cbn [negb];
    [|apply env_kept_refl].
  destruct (lookup recep (locations e)) as [items|] eqn:El;
    [|apply env_kept_refl].
  destruct (closed e recep); [apply env_kept_refl|].
  destruct (lookup_split _ _ _ El) as (pre & post & Hd & Hu).
  unfold env_kept, objects.
  cbn [fst max_steps step_count inventory locations done success].
  rewrite Hu, Hd.
  split; [reflexivity|]. split; [reflexivity|].
  split; [intros H; pose proof (remove_first_length obj (inventory e)); lia|].
  split; [apply keys_entry|].
  split.
  - rewrite !concat_entry.
    set (A := List.concat (map snd pre)). set (B := List.concat (map snd post)).
    set (inv' := remove_first obj (inventory e)).
    apply perm_trans with (obj :: inv' ++ A ++ items ++ B)%list.
    + replace (inv' ++ A ++ (items ++ [obj]) ++ B)%list
        with ((inv' ++ A ++ items) ++ obj :: B)%list
        by (rewrite <- !app_assoc; reflexivity).
      replace (obj :: inv' ++ A ++ items ++ B)%list
        with (obj :: (inv' ++ A ++ items) ++ B)%list
        by (rewrite <- !app_assoc; reflexivity).
      apply Permutation_sym, Permutation_middle.
    + apply (Permutation_app_tail (A ++ items ++ B)
               (remove_first_perm obj (inventory e) Em)).
  - split.
    + intros H. destruct (_ && _); [reflexivity|exact H].
    + intros H. destruct (_ && _); [reflexivity|exact H].
Qed.

Lemma open_kept e recep : env_kept e (fst (_open e recep)).
Proof.
  unfold _open. destruct (lookup recep (locations e)) as [items|];
    [|apply env_kept_refl].
  destruct (negb (mem recep needs_open)); [apply env_kept_refl|].
  destruct (mem recep (open_receptacles e)); [apply env_kept_refl|].
  destruct items; same_objects.
Qed.

Lemma close_kept e recep : env_kept e (fst (_close e recep)).
Proof.
  unfold _close. destruct (negb (mem recep needs_open)); [apply env_kept_refl|].
  destruct (negb (mem recep (open_receptacles e))); [apply env_kept_refl|].
  same_objects.
Qed.

Lemma heat_kept e obj recep : env_kept e (fst (_heat e obj recep)).
Proof.
  unfold _heat. destruct (negb (mem obj (inventory e))); [apply env_kept_refl|].
  destruct (negb (PyStr.contains "microwave" recep)); [apply env_kept_refl|].
  same_objects.
Qed.

Lemma cool_kept e obj recep : env_kept e (fst (_cool e obj recep)).
Proof.
  unfold _cool. destruct (negb (mem obj (inventory e))); [apply env_kept_refl|].
  destruct (negb (PyStr.contains "fridge" recep)); [apply env_kept_refl|].
  same_objects.
Qed.

Lemma clean_kept e obj recep : env_kept e (fst (_clean e obj recep)).
Proof.
  unfold _clean. destruct (negb (mem obj (inventory e))); [apply env_kept_refl|].
  destruct (negb (PyStr.contains "sinkbasin" recep)); [apply env_kept_refl|].
  same_objects.
Qed.

Lemma examine_kept e target : env_kept e (fst (_examine e target)).
Proof.
  unfold _examine. destruct (mem target (inventory e)); [|apply env_kept_refl].
  destruct (_ ++ _)%list; apply env_kept_refl.
Qed.

(** A property of the result of every operation holds of the result of
    [_execute_action]. *)
Lemma execute_action_cases (Q : env * string -> Prop) e action :
  (forall l, Q (_go_to e l)) ->
  (forall o r, Q (_take e o r)) ->
  (forall o r, Q (_put e o r)) ->
  (forall r, Q (_open e r)) ->
  (forall r, Q (_close e r)) ->
  (forall o r, Q (_heat e o r)) ->
  (forall o r, Q (_cool e o r)) ->
  (forall o r, Q (_clean e o r)) ->
  (forall t, Q (_examine e t)) ->
  Q (e, nothing) ->
  Q (_execute_action e action).
Proof.
  intros Hgo Htake Hput Hopen Hclose Hheat Hcool Hclean Hexamine Hnone.
  unfold _execute_action.
  destruct (rest_of_line "go to " action); [apply Hgo|].
  destruct (two_groups "take " " from " action) as [[? ?]|]; [apply Htake|].
  destruct (put_groups action) as [[? ?]|]; [apply Hput|].
  destruct (rest_of_line "open " action); [apply Hopen|].
  destruct (rest_of_line "close " action); [apply Hclose|].
  destruct (two_groups "heat " " with " action) as [[? ?]|]; [apply Hheat|].
  destruct (two_groups "cool " " with " action) as [[? ?]|]; [apply Hcool|].
  destruct (two_groups "clean " " with " action) as [[? ?]|]; [apply Hclean|].
  destruct (examine_group action); [apply Hexamine|exact Hnone].
Qed.

Lemma execute_action_kept e action :
  env_kept e (fst (_execute_action e action)).
Proof.
  apply (execute_action_cases (fun r => env_kept e (fst r)));
    intros; first [apply go_to_kept|apply take_kept|apply put_kept
                  |apply open_kept|apply close_kept|apply heat_kept
                  |apply cool_kept|apply clean_kept|apply examine_kept
                  |apply env_kept_refl].
Qed.

Lemma step_reached limit n e action :
  env_reached limit n e ->
  env_reached limit (S n) (fst (fst (fst (fst (step e action))))).
Proof.
  intros (Hm & Hc & Hi & Hk & Hp & Hd & Ht). unfold step.
  cbn [max_steps step_count].
  destruct (max_steps e <=? step_count e + 1)%Z eqn:E.
  - apply Z.leb_le in E. cbn [fst]. unfold env_reached, objects.
    cbn [max_steps step_count inventory locations done success].
    repeat split; auto; lia.
  - apply Z.leb_gt in E.
    match goal with
    | |- context [_execute_action ?e1 ?a] =>
        pose proof (execute_action_kept e1 a) as Hkept;
        destruct (_execute_action e1 a) as [e2 obs]
    end.
    cbn [fst] in *. unfold env_kept, objects in Hkept.
    cbn [max_steps step_count inventory locations done success] in Hkept.
    destruct Hkept as (K1 & K2 & K3 & K4 & K5 & K6 & K7).
    unfold env_reached. rewrite K1, K2, K4.
    split; [exact Hm|]. split; [lia|]. split; [apply K3, Hi|].
    split; [exact Hk|].
    split; [apply (perm_trans K5); exact Hp|].
    split; [intros _; apply K6, Hd; lia|]. intros H _. lia.
Qed.

Lemma init_reached task_id limit : env_reached limit 0 (init task_id limit).
Proof.
  unfold env_reached, init, objects. cbn.
  repeat split; auto; lia.
Qed.

Lemma after_steps_reached limit actions :
  forall n e,
    env_reached limit n e ->
    env_reached limit (n + List.length actions) (after_steps e actions).
Proof.
  induction actions as [|a actions IH]; intros n e H.
  - cbn. rewrite Nat.add_0_r. exact H.
  - cbn [after_steps fold_left List.length].
    replace (n + S (List.length actions)) with (S n + List.length actions) by lia.
    apply (IH (S n)). apply step_reached. exact H.
Qed.

(** X21. Whatever the actions taken in a new environment, one object is held
    at most, the locations stay those of the task data, and no object is
    lost or made: the objects held and those of the locations are, up to
    their order, the objects of the task data. *)
Theorem env_keeps_objects :
  forall (task_id limit : Z) (actions : list string),
    let e := after_steps (init task_id limit) actions in
    List.length (inventory e) <= 1
    /\ map fst (locations e) = map fst task_locations
    /\ Permutation (inventory e ++ List.concat (map snd (locations e)))
         (List.concat (map snd task_locations)).
Proof.
  intros task_id limit actions e.
  destruct (after_steps_reached limit actions 0 _ (init_reached task_id limit))
    as (_ & _ & Hi & Hk & Hp & _).
  repeat split; assumption.
Qed.

(** X22. The step that follows [n] steps in a new environment with the
    limit [max_steps] counts as step [n + 1].  From the limit on it does not
    run the action: the environment is left as it was but for the counter
    and the flag [done], which is set, and the step returns
    [Episode timed out.], the reward zero, [done] and an [info] without
    success.  Below the limit the step runs [_execute_action] on the action
    without its surrounding white space and in lower case; it returns [done]
    exactly when the task has succeeded, and the reward one then and zero
    otherwise. *)
Theorem env_step_result :
  forall (tid limit : Z) (actions : list string) (action : string),
    let e := after_steps (init tid limit) actions in
    let n := Z.of_nat (List.length actions) in
    let counted :=
      mkEnv (task_id e) (max_steps e) (current_location e) (inventory e)
        (heated_objects e) (cooled_objects e) (cleaned_objects e)
        (open_receptacles e) (step_count e + 1) (done e) (success e)
        (locations e) in
    let '(e', obs, reward, finished, i) := step e action in
    step_count e' = (n + 1)%Z
    /\ finished = done e'
    /\ if (limit <=? n + 1)%Z
       then e' = mkEnv (task_id e) (max_steps e) (current_location e)
                   (inventory e) (heated_objects e) (cooled_objects e)
                   (cleaned_objects e) (open_receptacles e) (step_count e + 1)
                   true (success e) (locations e)
            /\ obs = "Episode timed out." /\ reward = 0%Q /\ finished = true
            /\ i = StepInfo false None
       else (e', obs) = _execute_action counted (lower (PyStr.strip action))
            /\ finished = success e'
            /\ reward = (if success e' then 1%Q else 0%Q).
Proof.
  intros tid limit actions action e n counted.
  pose proof (after_steps_reached limit actions 0 _ (init_reached tid limit))
    as Hr.
  fold e in Hr. cbn [Nat.add] in Hr.
  pose proof (step_reached limit _ e action Hr) as Hr'.
  destruct Hr as (Hm & Hc & _). unfold step in *.
  cbn [max_steps step_count] in *. fold counted in Hr' |- *.
  rewrite Hm, Hc in *. fold n in Hr' |- *.
  destruct (limit <=? n + 1)%Z eqn:E.
  - cbn [step_count done]. unfold counted.
    cbn [task_id max_steps current_location inventory heated_objects
         cooled_objects cleaned_objects open_receptacles step_count success
         locations].
    repeat split; reflexivity.
  - apply Z.leb_gt in E.
    destruct (_execute_action counted (lower (PyStr.strip action)))
      as [e2 obs]. cbn [fst] in Hr'.
    destruct Hr' as (_ & Hc' & _ & _ & _ & Hd' & _).
    split; [rewrite Hc'; unfold n; lia|]. split; [reflexivity|].
    split; [reflexivity|]. split; [|reflexivity]. apply Hd'. unfold n in E. lia.
Qed.

(** X23. A step makes the task succeed only by putting down a held object
    whose name contains [mug], that has been heated, in or on a location
    whose name contains [cabinet] and that is not closed; the step then
    returns the reward one and [done]. *)
Theorem env_success_needs_heated_mug :
  forall (e e' : env) (action obs : string) (reward : Q) (finished : bool)
         (i : info),
    success e = false ->
    step e action = (e', obs, reward, finished, i) ->
    success e' = true ->
    reward = 1%Q /\ finished = true
    /\ exists obj recep,
         mem obj (inventory e) = true
         /\ mem obj (heated_objects e) = true
         /\ PyStr.contains "mug" obj = true
         /\ PyStr.contains "cabinet" recep = true
         /\ lookup recep (locations e) <> None
         /\ closed e recep = false
         /\ obs = "You put the " ++ obj ++ " in/on the " ++ recep ++ "."
         /\ inventory e' = remove_first obj (inventory e).
Proof.
  intros e e' action obs reward finished i Hs Hstep Hs'.
  unfold step in Hstep. cbn [max_steps step_count] in Hstep.
  destruct (max_steps e <=? step_count e + 1)%Z.
  - injection Hstep as <- _ _ _ _. cbn [success] in Hs'. congruence.
  - set (e1 := mkEnv (task_id e) (max_steps e) (current_location e)
                 (inventory e) (heated_objects e) (cooled_objects e)
                 (cleaned_objects e) (open_receptacles e) (step_count e + 1)
                 (done e) (success e) (locations e)) in *.
    assert (Hq :
      let r := _execute_action e1 (lower (PyStr.strip action)) in
      success (fst r) = true ->
      done (fst r) = true
      /\ exists obj recep,
           mem obj (inventory e) = true
           /\ mem obj (heated_objects e) = true
           /\ PyStr.contains "mug" obj = true
           /\ PyStr.contains "cabinet" recep = true
           /\ lookup recep (locations e) <> None
           /\ closed e recep = false
           /\ snd r = "You put the " ++ obj ++ " in/on the " ++ recep ++ "."
           /\ inventory (fst r) = remove_first obj (inventory e)).
    { cbv zeta.
      apply (execute_action_cases
               (fun r =>
                  success (fst r) = true ->
                  done (fst r) = true
                  /\ exists obj recep,
                       mem obj (inventory e) = true
                       /\ mem obj (heated_objects e) = true
                       /\ PyStr.contains "mug" obj = true
                       /\ PyStr.contains "cabinet" recep = true
                       /\ lookup recep (locations e) <> None
                       /\ closed e recep = false
                       /\ snd r = "You put the " ++ obj ++ " in/on the "
                                  ++ recep ++ "."
                       /\ inventory (fst r) = remove_first obj (inventory e)));
        cbv beta.
      - intros l. unfold _go_to.
        destruct (lookup l (locations e1)) as [items|]; [|cbn; congruence].
        destruct (closed e1 l); [cbn; congruence|].
        destruct items; cbn; congruence.
      - intros o r. unfold _take. destruct (inventory e1); [|cbn; congruence].
        destruct (lookup r (locations e1)) as [items|]; [|cbn; congruence].
        destruct (closed e1 r); [cbn; congruence|].
        destruct (mem o items); cbn; congruence.
      - intros o r. unfold _put.
        destruct (mem o (inventory e1)) eqn:Em; cbn [negb]; [|cbn; congruence].
        destruct (lookup r (locations e1)) as [items|] eqn:El; [|cbn; congruence].
        destruct (closed e1 r) eqn:Ec; [cbn; congruence|].
        cbn [fst snd success done inventory].
        destruct (PyStr.contains "heat" task && PyStr.contains "mug" task
                  && PyStr.contains "cabinet" task
                  && (PyStr.contains "mug" o && mem o (heated_objects e1)
                      && PyStr.contains "cabinet" r)) eqn:Ew;
          [|cbn; congruence].
        intros _. split; [reflexivity|].
        apply andb_prop in Ew. destruct Ew as [_ Ew].
        apply andb_prop in Ew. destruct Ew as [Ew Hcab].
        apply andb_prop in Ew. destruct Ew as [Hmug Hheat].
        exists o, r. repeat split; try assumption; try reflexivity.
        intros Hn. change (lookup r (locations e1) = None) in Hn. congruence.
      - intros r. unfold _open.
        destruct (lookup r (locations e1)) as [items|]; [|cbn; congruence].
        destruct (negb (mem r needs_open)); [cbn; congruence|].
        destruct (mem r (open_receptacles e1)); [cbn; congruence|].
        destruct items; cbn; congruence.
      - intros r. unfold _close.
        destruct (negb (mem r needs_open)); [cbn; congruence|].
        destruct (negb (mem r (open_receptacles e1))); cbn; congruence.
      - intros o r. unfold _heat.
        destruct (negb (mem o (inventory e1))); [cbn; congruence|].
        destruct (negb (PyStr.contains "microwave" r)); cbn; congruence.
      - intros o r. unfold _cool.
        destruct (negb (mem o (inventory e1))); [cbn; congruence|].
        destruct (negb (PyStr.contains "fridge" r)); cbn; congruence.
      - intros o r. unfold _clean.
        destruct (negb (mem o (inventory e1))); [cbn; congruence|].
        destruct (negb (PyStr.contains "sinkbasin" r)); cbn; congruence.
      - intros t. unfold _examine.
        destruct (mem t (inventory e1)); [|cbn; congruence].
        destruct (_ ++ _)%list; cbn; congruence.
      - cbn. congruence. }
    cbv zeta in Hq.
    destruct (_execute_action e1 (lower (PyStr.strip action))) as [e2 obs2].
    injection Hstep as <- <- <- <- _. cbn [fst snd] in Hq.
    destruct (Hq Hs') as (Hd & obj & recep & H).
    rewrite Hs'. split; [reflexivity|]. split; [exact Hd|].
    exists obj, recep. exact H.
Qed.

End HouseholdEnvironment.


Lemma env_success_needs_heated_mug_witness :
  let e :=
    ALFWorldSimpleEnv.after_steps (ALFWorldSimpleEnv.init 0 30)
      (firstn 3 ALFWorldSimpleEnv.winning_actions) in
  exists e' obs i,
    ALFWorldSimpleEnv.step e "put mug 2 in/on cabinet 2"
    = (e', obs, 1%Q, true, i)
    /\ 1%Q = 1%Q /\ true = true
    /\ exists obj recep,
         ALFWorldSimpleEnv.mem obj (ALFWorldSimpleEnv.inventory e) = true
         /\ ALFWorldSimpleEnv.mem obj (ALFWorldSimpleEnv.heated_objects e) = true
         /\ PyStr.contains "mug" obj = true
         /\ PyStr.contains "cabinet" recep = true
         /\ ALFWorldSimpleEnv.lookup recep (ALFWorldSimpleEnv.locations e) <> None
         /\ ALFWorldSimpleEnv.closed e recep = false
         /\ obs = "You put the " ++ obj ++ " in/on the " ++ recep ++ "."
         /\ ALFWorldSimpleEnv.inventory e'
            = ALFWorldSimpleEnv.remove_first obj (ALFWorldSimpleEnv.inventory e).
Proof.
  cbv zeta. do 3 eexists. split; [vm_compute; reflexivity|].
  eapply (env_success_needs_heated_mug
            (ALFWorldSimpleEnv.after_steps (ALFWorldSimpleEnv.init 0 30)
               (firstn 3 ALFWorldSimpleEnv.winning_actions))
            _ "put mug 2 in/on cabinet 2").
  - vm_compute. reflexivity.
  - vm_compute. reflexivity.
  - vm_compute. reflexivity.
Defined.


(** ** The agent that an episode leaves *)

Section EpisodeAgent.

Variables Env Agent : Type.
Variable env_step : Env -> string -> Env * string * Q * bool.
Variable agent_step : Agent -> string -> result (Agent * string).
Variable agent_last_thought : Agent -> string.
Variable agent_get_state : Agent -> result (option Json.json).
Variable is_reflexion : bool.
Variable agent_reflect : Agent -> bool -> string -> Agent.

(** A property of the agent that every step carries on, with the number of
    the steps made. *)
Variable P : nat -> Agent -> Prop.
Hypothesis step_keeps :
  forall n ag obs ag' action,
    P n ag -> agent_step ag obs = Ok (ag', action) -> P (S n) ag'.

Let loop :=
  Experiment.loop Env Agent env_step agent_step agent_last_thought
    agent_get_state is_reflexion agent_reflect.

Lemma finish_end_agent max_steps success n ag env lg total fin :
  Experiment.finish Env Agent is_reflexion agent_reflect max_steps success
    (S n) ag env lg total = Ok fin ->
  Experiment.success fin = success
  /\ exists reason,
       Experiment.end_agent fin
       = if is_reflexion && negb success
         then agent_reflect ag success reason else ag.
Proof.
  unfold Experiment.finish. cbv beta iota zeta. intros H.
  injection H as H. rewrite <- H.
  cbn [Experiment.success Experiment.end_agent].
  split; [reflexivity|]. eexists. reflexivity.
Qed.

Lemma loop_end_agent (max_steps : Z) (remaining : nat) :
  forall step ag env lg obs total fin,
    P step ag ->
    Experiment.outcome (loop max_steps remaining step ag env lg obs total)
    = Ok fin ->
    exists last reason,
      P (step
         + Experiment.step_calls
             (loop max_steps remaining step ag env lg obs total)) last
      /\ Experiment.end_agent fin
         = if is_reflexion && negb (Experiment.success fin)
           then agent_reflect last (Experiment.success fin) reason else last.
Proof.
  induction remaining as [|remaining IH];
    intros step ag env lg obs total fin HP H.
  - unfold loop in H |- *.
    cbn [Experiment.loop Experiment.outcome Experiment.step_calls] in H |- *.
    destruct step as [|step]; [discriminate|].
    destruct (finish_end_agent _ _ _ _ _ _ _ _ H) as (Hs & reason & He).
    exists ag, reason. rewrite Nat.add_0_r, Hs. split; [exact HP|exact He].
  - unfold loop in H |- *. cbn [Experiment.loop] in H |- *. fold loop in H |- *.
    destruct (agent_step ag obs) as [[ag1 action]|e] eqn:Es; [|discriminate].
    pose proof (step_keeps _ _ _ _ _ HP Es) as HP1.
    destruct (match lg with
              | Some l =>
                  match agent_get_state ag1 with
                  | Ok state =>
                      Ok (Some (Logger.log_step l (Z.of_nat step + 1) obs
                                  (agent_last_thought ag1) action state))
                  | Raise e => Raise e
                  end
              | None => Ok None
              end) as [lg1|e]; [|discriminate].
    destruct (env_step env action) as [[[env1 obs1] reward] done].
    destruct done.
    + cbn [Experiment.outcome Experiment.step_calls] in H |- *.
      destruct (finish_end_agent _ _ _ _ _ _ _ _ H) as (Hs & reason & He).
      exists ag1, reason. rewrite Hs. replace (step + 1) with (S step) by lia.
      split; [exact HP1|exact He].
    + cbn [Experiment.outcome Experiment.step_calls] in H |- *.
      destruct (IH _ _ _ _ _ _ _ HP1 H) as (last & reason & HPl & He).
      exists last, reason.
      replace (step + S (Experiment.step_calls
                           (loop max_steps remaining (S step) ag1 env1 lg1 obs1
                              (PyFloat.add total reward))))
        with (S step + Experiment.step_calls
                         (loop max_steps remaining (S step) ag1 env1 lg1 obs1
                            (PyFloat.add total reward))) by lia.
      split; [exact HPl|exact He].
Qed.

End EpisodeAgent.

Section ReflexionEpisode.

Import ReflexionAgent.

Variable Env : Type.
Variable env_reset : Env -> Env * string.
Variable env_get_task : Env -> string.
Variable env_step : Env -> string -> Env * string * Q * bool.
Variable step_reply : agent -> string -> string.
Variable reflect_reply : agent -> string -> string.

(** X24. Whenever [run_episode] returns with a [ReflexionAgent], the agent
    has counted one more episode and its history holds three lines for each
    step made; its reflections are those it had before the episode, followed
    after a failure, and only then, by one new reflection without
    surrounding white space. *)
Theorem reflexion_learns_from_failures :
  forall (ag : agent) (env : Env) (max_steps : Z) (lg : option Logger.logger)
         (episode_id : option Z) (fin : Experiment.finished Env agent),
    let r := ReflexionRun.run_episode Env env_reset env_get_task env_step
               step_reply reflect_reply ag env max_steps lg episode_id in
    Experiment.outcome r = Ok fin ->
    let ag' := Experiment.end_agent fin in
    episode_count ag' = (episode_count ag + 1)%Z
    /\ List.length (history ag') = 3 * Experiment.step_calls r
    /\ (Experiment.success fin = true -> reflections ag' = reflections ag)
    /\ (Experiment.success fin = false ->
        exists reflection,
          reflections ag' = (reflections ag ++ [reflection])%list
          /\ PyStr.strip reflection = reflection).
Proof.
  intros ag env max_steps lg episode_id fin. cbv zeta.
  unfold ReflexionRun.run_episode, Experiment.run_episode.
  destruct (env_reset env) as [env1 obs]. intros H.
  set (P := fun (n : nat) (a : agent) =>
              reflections a = reflections ag
              /\ episode_count a = (episode_count ag + 1)%Z
              /\ List.length (history a) = 3 * n).
  assert (Hkeep : forall n a o a' action,
    P n a ->
    ReflexionRun.agent_step step_reply a o = Ok (a', action) -> P (S n) a').
  { intros n a o a' action (Hr & He & Hl). unfold ReflexionRun.agent_step, step.
    destruct (is_step_limit_reached a); [discriminate|].
    destruct (_parse_thought_action (environment a) (step_reply a o))
      as [thought act].
    intros E. injection E as <- _. unfold P.
    cbn [reflections episode_count history].
    rewrite length_app. cbn [List.length]. repeat split; try assumption. lia. }
  destruct (loop_end_agent Env agent env_step
              (ReflexionRun.agent_step step_reply) last_thought
              (fun _ => Ok None) true
              (ReflexionRun.agent_reflect reflect_reply) P Hkeep
              max_steps (Z.to_nat max_steps) 0 (reset ag (env_get_task env1))
              env1
              (option_map
                 (fun l => Logger.start_episode l (env_get_task env1) episode_id)
                 lg)
              obs 0%Q fin)
    as (last & reason & (Hr & He & Hl) & Hend); [|exact H|].
  { unfold P, reset. cbn. repeat split; reflexivity. }
  cbn [Nat.add] in Hl. rewrite Hend. cbn [andb].
  unfold ReflexionRun.agent_reflect, reflect.
  destruct (Experiment.success fin); cbn [negb].
  - split; [exact He|]. split; [exact Hl|].
    split; [intros _; exact Hr|intros E; discriminate].
  - cbn [episode_count history reflections].
    split; [exact He|]. split; [exact Hl|].
    split; [intros E; discriminate|].
    intros _. eexists. rewrite Hr. split; [reflexivity|apply strip_twice].
Qed.

End ReflexionEpisode.


Lemma reflexion_learns_from_failures_witness :
  exists fin,
    Experiment.outcome (ReflexionRun.sample_run 0) = Ok fin
    /\ ReflexionAgent.episode_count (Experiment.end_agent fin) = 1%Z
    /\ List.length (ReflexionAgent.history (Experiment.end_agent fin)) = 9
    /\ Experiment.success fin = false
    /\ ReflexionAgent.reflections (Experiment.end_agent fin)
       = ["Look for the mug first."].
Proof.
  eexists. split; [vm_compute; reflexivity|].
  match goal with
  | |- context [Experiment.end_agent ?f] =>
      destruct (reflexion_learns_from_failures SampleRun.env SampleRun.env_reset
                  SampleRun.env_get_task SampleRun.env_step
                  (fun _ _ => "Action: look")
                  (fun _ _ => " Look for the mug first. ")
                  ReflexionRun.new_agent (SampleRun.mkEnv 0 0) 3%Z None None f)
        as (He & Hl & _ & Hf)
  end.
  - vm_compute. reflexivity.
  - split; [exact He|]. split; [exact Hl|]. split; [reflexivity|reflexivity].
Defined.


(** ** The history of the baseline agent *)

Section ReActHistory.

Import ReActRun.

Lemma react_steps_from (io : list (string * string)) :
  forall ag,
    (io = [] \/ (current_step ag + Z.of_nat (List.length io) <= max_steps ag)%Z ->
     exists ag',
       steps ag io = Ok ag'
       /\ history ag' = (history ag ++ lines_from (current_step ag) io)%list
       /\ current_step ag' = (current_step ag + Z.of_nat (List.length io))%Z)
    /\ (io <> [] ->
        (max_steps ag < current_step ag + Z.of_nat (List.length io))%Z ->
        steps ag io = Raise StopIteration).
Proof.
  induction io as [|[observation response] io IH]; intros ag.
  - split; [|intros H; contradiction].
    intros _. exists ag. cbn. rewrite app_nil_r.
    split; [reflexivity|]. split; [reflexivity|lia].
  - cbn [steps List.length lines_from]. unfold step, is_step_limit_reached, step_lines.
    destruct (max_steps ag <=? current_step ag)%Z eqn:E.
    + apply Z.leb_le in E. split; [|reflexivity].
      intros [H|H]; [discriminate|lia].
    + apply Z.leb_gt in E.
      destruct (ReActAgent._parse_thought_action response) as [thought action].
      match goal with
      | |- context [steps ?a io] => destruct (IH a) as [Hok Hstop]
      end.
      cbn [current_step max_steps history] in Hok, Hstop.
      split.
      * intros [H|H]; [discriminate|].
        destruct Hok as (ag' & Hs & Hh & Hc).
        { destruct io; [left; reflexivity|right; cbn [List.length] in *; lia]. }
        exists ag'. split; [exact Hs|]. split; [|lia].
        rewrite Hh. rewrite <- !app_assoc. reflexivity.
      * intros _ H. apply Hstop; [|lia].
        intros ->. cbn [List.length] in H. lia.
Qed.

Lemma lines_from_length n io :
  List.length (lines_from n io) = 3 * List.length io.
Proof.
  revert n. induction io as [|[observation response] io IH]; intros n;
    [reflexivity|].
  cbn [lines_from List.length]. unfold step_lines.
  destruct (ReActAgent._parse_thought_action response).
  cbn [List.app List.length]. rewrite IH. lia.
Qed.

(** X25. From [reset], the steps of an episode of the baseline agent all
    return when their number is at most the step limit, and the history is
    then, for each step in order, the line of its observation, of the
    thought and of the action parsed from its reply, all three with the
    number of the step: three entries for each step.  With more steps than
    the limit the episode ends in [StopIteration]. *)
Theorem react_history_after_steps :
  forall (ag : agent) (task : string) (io : list (string * string)),
    if (Z.of_nat (List.length io) <=? Z.max 0 (max_steps ag))%Z
    then exists ag',
           steps (reset ag task) io = Ok ag'
           /\ history ag' = lines_from 0 io
           /\ get_history_length ag' = (3 * Z.of_nat (List.length io))%Z
           /\ current_step ag' = Z.of_nat (List.length io)
    else steps (reset ag task) io = Raise StopIteration.
Proof.
  intros ag task io.
  destruct (react_steps_from io (reset ag task)) as [Hok Hstop].
  cbn [reset current_step max_steps history] in Hok, Hstop.
  destruct (Z.of_nat (List.length io) <=? Z.max 0 (max_steps ag))%Z eqn:E.
  - apply Z.leb_le in E.
    destruct Hok as (ag' & Hs & Hh & Hc).
    { destruct io; [left; reflexivity|right; cbn [List.length] in *; lia]. }
    exists ag'. split; [exact Hs|]. cbn [List.app] in Hh.
    split; [exact Hh|]. split; [|lia].
    unfold get_history_length. rewrite Hh, lines_from_length. lia.
  - apply Z.leb_gt in E. apply Hstop; [|lia].
    intros ->. cbn [List.length] in E. lia.
Qed.

End ReActHistory.
